(** * Travel-list backend: city and user stores

    A shallow embedding of [backend/src/city.js], [backend/src/user.js] and
    the limits of [backend/config/config.js], with the properties of the
    per-user city / attraction / restaurant limit-and-persistence logic.

    Conventions of the embedding.
    - The parsed data file (the object [data] of every handler) is a finite
      map from property names to city arrays, [gmap string (list City)];
      the snapshot [data.latest] is the entry under the key ["latest"], as
      in the JavaScript object.  A lookup that gives [None] stands for a
      property that is absent or [null] (both are falsy in the source).
    - Session usernames are written by [user.js] only after the email check
      ([session_user_is_email]), so they never name a member of
      [Object.prototype] ([email_is_plain_key]); the prototype chain of
      [data] is therefore not modelled.
    - A handler body is a function of the object returned by [readData()];
      it yields the HTTP response and the object handed to [writeData], if
      the handler reaches that call.  [serve] puts the handlers back on top
      of the data file, whose text is written by [JSON.stringify] and read
      by [JSON.parse]. *)

From Stdlib Require Import ZArith Lia Ascii String.
From stdpp Require Import gmap strings list fin_maps pretty.

Open Scope Z_scope.

(** ** JavaScript primitives used by the handlers *)

Module JS.

(** [relativeStart] / [relativeEnd] of [Array.prototype.slice]: a negative
    index counts from the end, and the result is clamped to [0 .. len]. *)
Definition rel_index (len i : Z) : Z :=
  if i <? 0 then Z.max (len + i) 0 else Z.min i len.

(** [l.slice(start, end)]; [end_ = None] is the one-argument call. *)
Definition slice {A} (l : list A) (start : Z) (end_ : option Z) : list A :=
  let len := Z.of_nat (length l) in
  let k := rel_index len start in
  let final := from_option (rel_index len) len end_ in
  take (Z.to_nat (Z.max (final - k) 0)) (drop (Z.to_nat k) l).

(** [l.findIndex(p)]: the first index whose element satisfies [p], or -1. *)
Fixpoint findIndex {A} (p : A → bool) (l : list A) : Z :=
  match l with
  | [] => -1
  | x :: l' => if p x then 0 else
                 let i := findIndex p l' in
                 if i =? -1 then -1 else i + 1
  end.

(** [l.find(p)]: the first element that satisfies [p], or [undefined]. *)
Fixpoint find {A} (p : A → bool) (l : list A) : option A :=
  match l with
  | [] => None
  | x :: l' => if p x then Some x else find p l'
  end.

(** [l.filter(p)]. *)
Fixpoint filter {A} (p : A → bool) (l : list A) : list A :=
  match l with
  | [] => []
  | x :: l' => if p x then x :: filter p l' else filter p l'
  end.

(** [l.push(x)]. *)
Definition push {A} (l : list A) (x : A) : list A := l ++ [x].

(** [l[i] = x] for an index obtained from [findIndex]. *)
Definition set_index {A} (l : list A) (i : Z) (x : A) : list A :=
  <[Z.to_nat i := x]> l.

(** [a === b] on strings. *)
Definition strict_eq (a b : string) : bool := bool_decide (a = b).

(** Truthiness of a value that is a string or [undefined]: the string when
    it is non-empty, nothing otherwise. *)
Definition truthy (v : option string) : option string :=
  match v with
  | Some s => if bool_decide (s = "") then None else Some s
  | None => None
  end.

(** [String(v)] for a string or [undefined]. *)
Definition to_string (v : option string) : string :=
  from_option id "undefined" v.

End JS.

(** ** Configuration ([config.js]) *)

Record Config := {
  maxCitiesPerUser : Z;
  maxAttractionsPerCity : Z;
  maxRestaurantsPerCity : Z
}.

(** The [defaults] block of [database.json], which is also the fallback of
    [loadConfig]. *)
Definition default_config : Config :=
  {| maxCitiesPerUser := 10;
     maxAttractionsPerCity := 5;
     maxRestaurantsPerCity := 5 |}.

Definition getMaxCitiesPerUser (cfg : Config) : Z := maxCitiesPerUser cfg.
Definition getMaxAttractionsPerCity (cfg : Config) : Z := maxAttractionsPerCity cfg.
Definition getMaxRestaurantsPerCity (cfg : Config) : Z := maxRestaurantsPerCity cfg.

(** ** Data model *)

(** A city object.  [attractions] and [restaurants] are [None] when the
    property is missing or [null]; the source reads them as [x || []]. *)
Record City := {
  name : string;
  attractions : option (list string);
  restaurants : option (list string)
}.

#[global] Instance City_eq_dec : EqDecision City.
Proof. solve_decision. Defined.

(** The parsed data file: [{ [username]: City[], latest: City[] }]. *)
Abbreviation Database := (gmap string (list City)).

(** [x || []]. *)
Definition or_empty {A} (x : option (list A)) : list A := default [] x.

(** ** Responses *)

Inductive Body :=
| BodyCities (cities : list City)
| BodyCity (city : City)
| BodyMessage (message : string)
| BodyUser (user : string)
| BodyError (error : string).

Record Response := { status : Z; body : Body }.

Definition ok (b : Body) : Response := {| status := 200; body := b |}.
Definition fail (code : Z) (msg : string) : Response :=
  {| status := code; body := BodyError msg |}.

Definition NotAuthenticated : Response := fail 401 "Login required".
Definition MissingName : Response := fail 400 "City name required".
Definition CityLimitReached (cfg : Config) : Response :=
  fail 400 ("City limit (" +:+ pretty (getMaxCitiesPerUser cfg) +:+ ") reached").
Definition NoCitiesForUser : Response := fail 404 "No cities found".
Definition MissingAttraction : Response := fail 400 "Attraction required".
Definition MissingRestaurant : Response := fail 400 "Restaurant required".
Definition CityNotFound : Response := fail 404 "City not found".
Definition AttractionLimitReached (cfg : Config) : Response :=
  fail 400 ("Attraction limit (" +:+ pretty (getMaxAttractionsPerCity cfg) +:+ ") reached").
Definition RestaurantLimitReached (cfg : Config) : Response :=
  fail 400 ("Restaurant limit (" +:+ pretty (getMaxRestaurantsPerCity cfg) +:+ ") reached").

(** What a handler body does: the response, and the object passed to
    [writeData] when the handler gets that far. *)
Record Outcome := { response : Response; written : option Database }.

Definition respond (r : Response) : Outcome :=
  {| response := r; written := None |}.
Definition commit (r : Response) (data : Database) : Outcome :=
  {| response := r; written := Some data |}.

(** ** CityStore ([city.js]) *)

(** [getUserCities(username)], as a function of [data = readData()]. *)
Definition getUserCities (cfg : Config) (data : Database)
    (username : option string) : list City :=
  let cities :=
    match JS.truthy username ≫= (λ u, data !! u) with
    | Some l => l
    | None =>
        match data !! "latest" with
        | Some l => l
        | None => []
        end
    end in
  let maxCities := getMaxCitiesPerUser cfg in
  let maxAttractions := getMaxAttractionsPerCity cfg in
  let maxRestaurants := getMaxRestaurantsPerCity cfg in
  (λ city,
     {| name := name city;
        attractions := Some (JS.slice (or_empty (attractions city)) (- maxAttractions) None);
        restaurants := Some (JS.slice (or_empty (restaurants city)) (- maxRestaurants) None) |})
  <$> JS.slice cities (- maxCities) None.

(** [GET /]. *)
Definition listCities (cfg : Config) (username : option string)
    (data : Database) : Outcome :=
  respond (ok (BodyCities (getUserCities cfg data username))).

(** The stored form of an incoming city: [POST /] caps both arrays with
    [slice(0, max)] before it stores the object. *)
Definition cap_city (cfg : Config) (city : City) : City :=
  let maxAttractions := getMaxAttractionsPerCity cfg in
  let maxRestaurants := getMaxRestaurantsPerCity cfg in
  {| name := name city;
     attractions := Some (JS.slice (or_empty (attractions city)) 0 (Some maxAttractions));
     restaurants := Some (JS.slice (or_empty (restaurants city)) 0 (Some maxRestaurants)) |}.

(** [data.latest = data[username]; writeData(data)] once [data[username]]
    holds [cities]. *)
Definition store (username : string) (cities : list City) (data : Database) : Database :=
  <["latest" := cities]> (<[username := cities]> data).

(** [POST /]: add or update a city. [city] is [req.body.city]. *)
Definition addOrUpdateCity (cfg : Config) (username : option string)
    (city : option City) (data : Database) : Outcome :=
  match JS.truthy username with
  | None => respond NotAuthenticated
  | Some username =>
      match city with
      | None => respond MissingName
      | Some city =>
          if bool_decide (name city = "") then respond MissingName else
          let cities := or_empty (data !! username) in
          let idx := JS.findIndex (λ c, JS.strict_eq (name c) (name city)) cities in
          let maxCities := getMaxCitiesPerUser cfg in
          if (idx =? -1) && (Z.of_nat (length cities) >=? maxCities)
          then respond (CityLimitReached cfg)
          else
            let city := cap_city cfg city in
            let cities :=
              if idx >=? 0 then JS.set_index cities idx city
              else JS.push cities city in
            commit (ok (BodyCity city)) (store username cities data)
      end
  end.

(** [DELETE /:cityName]. *)
Definition deleteCity (cfg : Config) (username : option string)
    (cityName : string) (data : Database) : Outcome :=
  match JS.truthy username with
  | None => respond NotAuthenticated
  | Some username =>
      match data !! username with
      | None => respond NoCitiesForUser
      | Some cities =>
          let cities := JS.filter (λ c, negb (JS.strict_eq (name c) cityName)) cities in
          commit (ok (BodyMessage "City deleted")) (store username cities data)
      end
  end.

(** In-place mutation of the object that [find(p)] returned: the first
    element satisfying [p] becomes [f] of itself, the array keeps its shape. *)
Fixpoint mutate_found {A} (p : A → bool) (f : A → A) (l : list A) : list A :=
  match l with
  | [] => []
  | x :: l' => if p x then f x :: l' else x :: mutate_found p f l'
  end.

Definition set_attractions (v : list string) (city : City) : City :=
  {| name := name city; attractions := Some v; restaurants := restaurants city |}.
Definition set_restaurants (v : list string) (city : City) : City :=
  {| name := name city; attractions := attractions city; restaurants := Some v |}.

(** [POST /:cityName/attractions]. [attraction] is [req.body.attraction]. *)
Definition addAttraction (cfg : Config) (username : option string)
    (cityName : string) (attraction : option string) (data : Database) : Outcome :=
  match JS.truthy username with
  | None => respond NotAuthenticated
  | Some username =>
      match JS.truthy attraction with
      | None => respond MissingAttraction
      | Some attraction =>
          let cities := or_empty (data !! username) in
          let named := λ c, JS.strict_eq (name c) cityName in
          match JS.find named cities with
          | None => respond CityNotFound
          | Some city =>
              let list := or_empty (attractions city) in
              let maxAttractions := getMaxAttractionsPerCity cfg in
              if Z.of_nat (length list) >=? maxAttractions
              then respond (AttractionLimitReached cfg)
              else
                let idx := JS.findIndex (λ a, JS.strict_eq a attraction) list in
                let list := if idx =? -1 then JS.push list attraction else list in
                let cities := mutate_found named (set_attractions list) cities in
                commit (ok (BodyCity (set_attractions list city)))
                       (store username cities data)
          end
      end
  end.

(** [DELETE /:cityName/attractions/:attraction]. *)
Definition deleteAttraction (cfg : Config) (username : option string)
    (cityName attraction : string) (data : Database) : Outcome :=
  match JS.truthy username with
  | None => respond NotAuthenticated
  | Some username =>
      let cities := or_empty (data !! username) in
      let named := λ c, JS.strict_eq (name c) cityName in
      match JS.find named cities with
      | None => respond CityNotFound
      | Some city =>
          let list := JS.filter (λ a, negb (JS.strict_eq a attraction))
                                (or_empty (attractions city)) in
          let cities := mutate_found named (set_attractions list) cities in
          commit (ok (BodyCity (set_attractions list city)))
                 (store username cities data)
      end
  end.

(** [POST /:cityName/restaurants]. [restaurant] is [req.body.restaurant]. *)
Definition addRestaurant (cfg : Config) (username : option string)
    (cityName : string) (restaurant : option string) (data : Database) : Outcome :=
  match JS.truthy username with
  | None => respond NotAuthenticated
  | Some username =>
      match JS.truthy restaurant with
      | None => respond MissingRestaurant
      | Some restaurant =>
          let cities := or_empty (data !! username) in
          let named := λ c, JS.strict_eq (name c) cityName in
          match JS.find named cities with
          | None => respond CityNotFound
          | Some city =>
              let list := or_empty (restaurants city) in
              let maxRestaurants := getMaxRestaurantsPerCity cfg in
              if Z.of_nat (length list) >=? maxRestaurants
              then respond (RestaurantLimitReached cfg)
              else
                let idx := JS.findIndex (λ r, JS.strict_eq r restaurant) list in
                let list := if idx =? -1 then JS.push list restaurant else list in
                let cities := mutate_found named (set_restaurants list) cities in
                commit (ok (BodyCity (set_restaurants list city)))
                       (store username cities data)
          end
      end
  end.

(** [DELETE /:cityName/restaurants/:restaurant]. *)
Definition deleteRestaurant (cfg : Config) (username : option string)
    (cityName restaurant : string) (data : Database) : Outcome :=
  match JS.truthy username with
  | None => respond NotAuthenticated
  | Some username =>
      let cities := or_empty (data !! username) in
      let named := λ c, JS.strict_eq (name c) cityName in
      match JS.find named cities with
      | None => respond CityNotFound
      | Some city =>
          let list := JS.filter (λ r, negb (JS.strict_eq r restaurant))
                                (or_empty (restaurants city)) in
          let cities := mutate_found named (set_restaurants list) cities in
          commit (ok (BodyCity (set_restaurants list city)))
                 (store username cities data)
      end
  end.

(** The router of [city.js]: one request per route. *)
Inductive Request :=
| GetCities
| PostCity (city : option City)
| DeleteCity (cityName : string)
| PostAttraction (cityName : string) (attraction : option string)
| DeleteAttraction (cityName attraction : string)
| PostRestaurant (cityName : string) (restaurant : option string)
| DeleteRestaurant (cityName restaurant : string).

Definition handle (cfg : Config) (username : option string) (req : Request)
    (data : Database) : Outcome :=
  match req with
  | GetCities => listCities cfg username data
  | PostCity city => addOrUpdateCity cfg username city data
  | DeleteCity cityName => deleteCity cfg username cityName data
  | PostAttraction cityName a => addAttraction cfg username cityName a data
  | DeleteAttraction cityName a => deleteAttraction cfg username cityName a data
  | PostRestaurant cityName r => addRestaurant cfg username cityName r data
  | DeleteRestaurant cityName r => deleteRestaurant cfg username cityName r data
  end.

(** The routes that write. *)
Definition mutating (req : Request) : bool :=
  match req with GetCities => false | _ => true end.

(** ** Regular expressions (the fragment [isValidEmail] needs)

    Characters are UTF-16 code units below 256, one per [ascii]. *)

Module Regex.

Inductive t :=
| Void
| Eps
| Class (p : ascii → bool)
| Seq (r1 r2 : t)
| Alt (r1 r2 : t)
| Star (r : t).

(** [r+]. *)
Definition Plus (r : t) : t := Seq r (Star r).

Fixpoint nullable (r : t) : bool :=
  match r with
  | Void => false
  | Eps => true
  | Class _ => false
  | Seq r1 r2 => nullable r1 && nullable r2
  | Alt r1 r2 => nullable r1 || nullable r2
  | Star _ => true
  end.

(** The residual of [r] after reading [c]. *)
Fixpoint deriv (c : ascii) (r : t) : t :=
  match r with
  | Void => Void
  | Eps => Void
  | Class p => if p c then Eps else Void
  | Seq r1 r2 =>
      if nullable r1 then Alt (Seq (deriv c r1) r2) (deriv c r2)
      else Seq (deriv c r1) r2
  | Alt r1 r2 => Alt (deriv c r1) (deriv c r2)
  | Star r1 => Seq (deriv c r1) (Star r1)
  end.

(** [/^r$/.test(s)]: the whole of [s] is in the language of [r]. *)
Fixpoint test (r : t) (s : string) : bool :=
  match s with
  | EmptyString => nullable r
  | String c s' => test (deriv c r) s'
  end.

(** A literal character. *)
Definition Chr (c : ascii) : t := Class (λ x, bool_decide (x = c)).

(** [\s] on code units below 256: tab, line feed, vertical tab, form
    feed, carriage return, space and no-break space. *)
Definition is_space (c : ascii) : bool :=
  let n := nat_of_ascii c in
  bool_decide (n ∈ [9; 10; 11; 12; 13; 32; 160]%nat).

End Regex.

(** ** UserStore ([user.js]) *)

Record User := { username : string; password : string }.

(** [[^@\s]]. *)
Definition not_at_or_space (c : ascii) : bool :=
  negb (bool_decide (c = "@"%char)) && negb (Regex.is_space c).

(** [/^[^@\s]+@[^@\s]+\.[^@\s]+$/]. *)
Definition email_pattern : Regex.t :=
  Regex.Seq (Regex.Plus (Regex.Class not_at_or_space))
    (Regex.Seq (Regex.Chr "@")
       (Regex.Seq (Regex.Plus (Regex.Class not_at_or_space))
          (Regex.Seq (Regex.Chr ".")
             (Regex.Plus (Regex.Class not_at_or_space))))).

(** [isValidEmail(email)]; [RegExp.prototype.test] converts its argument to
    a string first. *)
Definition isValidEmail (email : option string) : bool :=
  Regex.test email_pattern (JS.to_string email).

Definition FieldsRequired : Response := fail 400 "Username and password required".
Definition InvalidEmail : Response := fail 400 "A valid email is required".
Definition UsernameTaken : Response := fail 409 "User already exists".
Definition InvalidCredentials : Response := fail 401 "Invalid credentials".

(** What a user route does: the response, the array passed to [writeUsers]
    when that call is reached, and the value assigned to [req.session.user]
    when the route signs the caller in. *)
Record UserOutcome := {
  user_response : Response;
  users_written : option (list User);
  session_user : option string
}.

Definition user_respond (r : Response) : UserOutcome :=
  {| user_response := r; users_written := None; session_user := None |}.

(** [POST /register], as a function of [users = readUsers()]. *)
Definition register (username password : option string)
    (users : list User) : UserOutcome :=
  match JS.truthy username, JS.truthy password with
  | Some u, Some p =>
      if negb (isValidEmail (Some u)) then user_respond InvalidEmail else
      match JS.find (λ '{| username := u'; password := _ |}, JS.strict_eq u' u)
                    users with
      | Some _ => user_respond UsernameTaken
      | None =>
          {| user_response := ok (BodyUser u);
             users_written := Some (JS.push users {| username := u; password := p |});
             session_user := Some u |}
      end
  | _, _ => user_respond FieldsRequired
  end.

(** [POST /login], as a function of [users = readUsers()]. *)
Definition login (username password : option string)
    (users : list User) : UserOutcome :=
  if negb (isValidEmail username) then user_respond InvalidEmail else
  match JS.find (λ '{| username := u; password := p |},
                   bool_decide (Some u = username) && bool_decide (Some p = password))
                users with
  | None => user_respond InvalidCredentials
  | Some _ =>
      {| user_response := ok (BodyUser (JS.to_string username));
         users_written := None;
         session_user := Some (JS.to_string username) |}
  end.

(** ** JSON text

    [JSON.stringify(value, null, 2)] and [JSON.parse] of the runtime, for
    the two shapes the backend stores: the data object and the users array.
    Strings are quoted as QuoteJSONString does, nesting is indented by two
    spaces per level, and the parser accepts any JSON white space and any
    order of members. *)

Module JSON.

Definition dquote : ascii := "034".
Definition newline : ascii := "010".

(** JSON white space: tab, line feed, carriage return, space. *)
Definition is_ws (c : ascii) : bool :=
  bool_decide (nat_of_ascii c ∈ [9; 10; 13; 32]%nat).

Fixpoint skip_ws (s : string) : string :=
  match s with
  | String c rest => if is_ws c then skip_ws rest else s
  | EmptyString => s
  end.

Definition hex_digit (n : nat) : ascii :=
  nth n ["0"; "1"; "2"; "3"; "4"; "5"; "6"; "7"; "8"; "9";
         "a"; "b"; "c"; "d"; "e"; "f"]%char "0"%char.

Definition hex_value (c : ascii) : option nat :=
  let n := nat_of_ascii c in
  if bool_decide (48 ≤ n ≤ 57)%nat then Some (n - 48)%nat
  else if bool_decide (97 ≤ n ≤ 102)%nat then Some (n - 87)%nat
  else if bool_decide (65 ≤ n ≤ 70)%nat then Some (n - 55)%nat
  else None.

(** QuoteJSONString, one code unit at a time. *)
Definition escape_char (c : ascii) : string :=
  let n := nat_of_ascii c in
  if bool_decide (n = 34%nat) then String "\" (String dquote "")
  else if bool_decide (n = 92%nat) then "\\"
  else if bool_decide (n = 8%nat) then "\b"
  else if bool_decide (n = 12%nat) then "\f"
  else if bool_decide (n = 10%nat) then "\n"
  else if bool_decide (n = 13%nat) then "\r"
  else if bool_decide (n = 9%nat) then "\t"
  else if bool_decide (n < 32)%nat then
    "\u00" +:+ String (hex_digit (n / 16)) (String (hex_digit (n mod 16)) "")
  else String c "".

Fixpoint escape (s : string) : string :=
  match s with
  | EmptyString => ""
  | String c rest => escape_char c +:+ escape rest
  end.

(** A string literal. *)
Definition print_string (s : string) : string :=
  String dquote (escape s +:+ String dquote "").

Fixpoint spaces (n : nat) : string :=
  match n with O => "" | S n => String " " (spaces n) end.

(** A line break followed by the indentation of nesting depth [depth]. *)
Definition indent (depth : nat) : string := String newline (spaces (2 * depth)).

(** The items, separated by commas. *)
Fixpoint join (items : list string) : string :=
  match items with
  | [] => ""
  | [x] => x
  | x :: rest => x +:+ "," +:+ join rest
  end.

(** An array or object whose printed elements are [items]. *)
Definition print_block (depth : nat) (open close : ascii) (items : list string) : string :=
  match items with
  | [] => String open (String close "")
  | _ => String open (join ((λ i, indent (S depth) +:+ i) <$> items))
         +:+ indent depth +:+ String close ""
  end.

(** A member [key: value] of an object. *)
Definition print_member (key value : string) : string :=
  print_string key +:+ ": " +:+ value.

Definition print_strings (depth : nat) (l : list string) : string :=
  print_block depth "[" "]" (print_string <$> l).

(** The values a city object holds. *)
Inductive Field := FString (s : string) | FStrings (l : list string) | FNull.

(** The own properties of a city object; an absent array is not one. *)
Definition city_members (c : City) : list (string * Field) :=
  [("name", FString (name c))]
  ++ from_option (λ l, [("attractions", FStrings l)]) [] (attractions c)
  ++ from_option (λ l, [("restaurants", FStrings l)]) [] (restaurants c).

Definition print_field (depth : nat) (m : string * Field) : string :=
  print_member m.1
    match m.2 with
    | FString s => print_string s
    | FStrings l => print_strings depth l
    | FNull => "null"
    end.

Definition print_city (depth : nat) (c : City) : string :=
  print_block depth "{" "}" (print_field (S depth) <$> city_members c).

Definition print_cities (depth : nat) (l : list City) : string :=
  print_block depth "[" "]" (print_city (S depth) <$> l).

Definition print_entry (m : string * option (list City)) : string :=
  print_member m.1
    match m.2 with
    | Some l => print_cities 1 l
    | None => "null"
    end.

(** The own properties of the data object. *)
Definition entries (data : Database) : list (string * option (list City)) :=
  (λ m, (m.1, Some m.2)) <$> map_to_list data.

(** [JSON.stringify(data, null, 2)]. *)
Definition stringify (data : Database) : string :=
  print_block 0 "{" "}" (print_entry <$> entries data).

(** The character a two-character escape [\e] stands for. *)
Definition unescape (e : ascii) : option ascii :=
  let n := nat_of_ascii e in
  if bool_decide (n = 34%nat) then Some dquote
  else if bool_decide (n = 92%nat) then Some "\"%char
  else if bool_decide (n = 47%nat) then Some "/"%char
  else if bool_decide (n = 98%nat) then Some "008"%char
  else if bool_decide (n = 102%nat) then Some "012"%char
  else if bool_decide (n = 110%nat) then Some "010"%char
  else if bool_decide (n = 114%nat) then Some "013"%char
  else if bool_decide (n = 116%nat) then Some "009"%char
  else None.

(** The code unit of [\uXXXX], when it is below 256. *)
Definition hex4 (h1 h2 h3 h4 : ascii) : option ascii :=
  a ← hex_value h1; b ← hex_value h2; c ← hex_value h3; d ← hex_value h4;
  let n := (((a * 16 + b) * 16 + c) * 16 + d)%nat in
  if bool_decide (n < 256)%nat then Some (ascii_of_nat n) else None.

Definition cons_char (c : ascii) (r : option (string * string)) : option (string * string) :=
  '(s, rest) ← r; Some (String c s, rest).

(** The characters of a string literal after its opening quote, up to the
    closing quote; a raw control character is an error. *)
Fixpoint lex_chars (s : string) : option (string * string) :=
  match s with
  | EmptyString => None
  | String c rest =>
      if bool_decide (c = dquote) then Some (""%string, rest)
      else if bool_decide (nat_of_ascii c < 32)%nat then None
      else if bool_decide (c = "\"%char) then
        match rest with
        | String e rest' =>
            match unescape e with
            | Some c' => cons_char c' (lex_chars rest')
            | None =>
                if bool_decide (e = "u"%char) then
                  match rest' with
                  | String h1 (String h2 (String h3 (String h4 rest''))) =>
                      c' ← hex4 h1 h2 h3 h4; cons_char c' (lex_chars rest'')
                  | _ => None
                  end
                else None
            end
        | EmptyString => None
        end
      else cons_char c (lex_chars rest)
  end.

(** Skip white space, then read the character [c]. *)
Definition expect (c : ascii) (s : string) : option string :=
  match skip_ws s with
  | String c' rest => if bool_decide (c' = c) then Some rest else None
  | EmptyString => None
  end.

Definition parse_string (s : string) : option (string * string) :=
  rest ← expect dquote s; lex_chars rest.

(** What follows the first element of an array or object: [, item]* and
    the closing bracket. *)
Fixpoint parse_tail {A} (item : string → option (A * string)) (close : ascii)
    (fuel : nat) (s : string) : option (list A * string) :=
  match fuel with
  | O => None
  | S fuel =>
      match skip_ws s with
      | String c rest =>
          if bool_decide (c = close) then Some ([], rest)
          else if bool_decide (c = ","%char) then
            '(x, rest') ← item rest;
            '(xs, rest'') ← parse_tail item close fuel rest';
            Some (x :: xs, rest'')
          else None
      | EmptyString => None
      end
  end.

(** An array or object: the opening bracket, the elements, the closing
    bracket. *)
Definition parse_block {A} (item : string → option (A * string)) (open close : ascii)
    (s : string) : option (list A * string) :=
  rest ← expect open s;
  match expect close rest with
  | Some rest' => Some ([], rest')
  | None =>
      '(x, rest') ← item rest;
      '(xs, rest'') ← parse_tail item close (String.length rest') rest';
      Some (x :: xs, rest'')
  end.

Definition parse_member {A} (value : string → option (A * string)) (s : string)
    : option ((string * A) * string) :=
  '(k, rest) ← parse_string s;
  rest ← expect ":" rest;
  '(v, rest) ← value rest;
  Some ((k, v), rest).

Definition parse_null (s : string) : option string :=
  match skip_ws s with
  | String "n" (String "u" (String "l" (String "l" rest))) => Some rest
  | _ => None
  end.

Definition parse_field (s : string) : option (Field * string) :=
  match parse_string s with
  | Some (v, rest) => Some (FString v, rest)
  | None =>
      match parse_block parse_string "[" "]" s with
      | Some (l, rest) => Some (FStrings l, rest)
      | None => rest ← parse_null s; Some (FNull, rest)
      end
  end.

(** The last member of that name, as in a JavaScript object. *)
Fixpoint field {A} (key : string) (members : list (string * A)) : option A :=
  match members with
  | [] => None
  | (k, v) :: rest =>
      match field key rest with
      | Some v' => Some v'
      | None => if bool_decide (k = key) then Some v else None
      end
  end.

(** Every member of the object has one of the names [keys]. *)
Definition only_members {A} (keys : list string) (members : list (string * A)) : bool :=
  forallb (λ m, bool_decide (m.1 ∈ keys)) members.

(** An array of strings that may be missing: [Some None] when the object
    has no such member, [None] when it has one that is no array of
    strings. *)
Definition optional_strings (v : option Field) : option (option (list string)) :=
  match v with
  | None => Some None
  | Some (FStrings l) => Some (Some l)
  | Some (FString _) | Some FNull => None
  end.

(** The city a parsed object is: a string [name], arrays of strings
    [attractions] and [restaurants] where the object has them, and no
    other member.  An object of another shape is not read as a city
    ([None]): the routes keep its members as they are, and what they do
    with them is outside this model. *)
Definition city_of (members : list (string * Field)) : option City :=
  if only_members ["name"; "attractions"; "restaurants"] members then
    match field "name" members with
    | Some (FString n) =>
        a ← optional_strings (field "attractions" members);
        r ← optional_strings (field "restaurants" members);
        Some {| name := n; attractions := a; restaurants := r |}
    | _ => None
    end
  else None.

Definition parse_city (s : string) : option (City * string) :=
  '(members, rest) ← parse_block (parse_member parse_field) "{" "}" s;
  c ← city_of members;
  Some (c, rest).

Definition parse_cities (s : string) : option (option (list City) * string) :=
  match parse_block parse_city "[" "]" s with
  | Some (l, rest) => Some (Some l, rest)
  | None => rest ← parse_null s; Some (None, rest)
  end.

(** The object built from its members, a later one replacing an earlier
    one of the same name; a [null] member reads as an absent one. *)
Definition database_of (members : list (string * option (list City))) : Database :=
  foldl (λ data '(k, v), match v with
                         | Some l => <[k := l]> data
                         | None => delete k data
                         end) ∅ members.

(** [JSON.parse(text)] for the data file, when its value is a data object:
    an object whose members are arrays of cities (or [null]).  [None] is a
    [SyntaxError], or a document of another shape. *)
Definition parse (s : string) : option Database :=
  '(members, rest) ← parse_block (parse_member parse_cities) "{" "}" s;
  match skip_ws rest with
  | EmptyString => Some (database_of members)
  | _ => None
  end.

(** The own properties of a user record. *)
Definition user_members (u : User) : list (string * Field) :=
  [("username", FString (username u)); ("password", FString (password u))].

Definition print_user (depth : nat) (u : User) : string :=
  print_block depth "{" "}" (print_field (S depth) <$> user_members u).

(** [JSON.stringify(users, null, 2)]. *)
Definition stringify_users (users : list User) : string :=
  print_block 0 "[" "]" (print_user 1 <$> users).

(** The user record a parsed object is: strings [username] and
    [password], and no other member; an object of another shape is not
    read as a record ([None]). *)
Definition user_of (members : list (string * Field)) : option User :=
  if only_members ["username"; "password"] members then
    match field "username" members, field "password" members with
    | Some (FString u), Some (FString p) => Some {| username := u; password := p |}
    | _, _ => None
    end
  else None.

Definition parse_user (s : string) : option (User * string) :=
  '(members, rest) ← parse_block (parse_member parse_field) "{" "}" s;
  u ← user_of members;
  Some (u, rest).

(** [JSON.parse(text)] for the users file, when its value is an array of
    user records; [None] is a [SyntaxError], or a document of another
    shape. *)
Definition parse_users (s : string) : option (list User) :=
  '(users, rest) ← parse_block parse_user "[" "]" s;
  match skip_ws rest with
  | EmptyString => Some users
  | _ => None
  end.

End JSON.

(** ** Persistence: the handlers on top of the JSON files *)

(** The two files of the backend; [None] is a file that does not exist. *)
Record FileSystem := { dataFile : option string; usersFile : option string }.

(** [readData()]: the default object [{ cities: [], latest: null }] when
    the file is missing, the data object the file holds otherwise.  [None]
    when [JSON.parse] throws, and when the file holds a value that is no
    data object (what the routes do with such a value is outside this
    model). *)
Definition readData (fs : FileSystem) : option Database :=
  match dataFile fs with
  | None => Some {[ "cities" := [] ]}
  | Some text => JSON.parse text
  end.

(** [writeData(data)]. *)
Definition writeData (data : Database) (fs : FileSystem) : FileSystem :=
  {| dataFile := Some (JSON.stringify data); usersFile := usersFile fs |}.

(** [readUsers()]: an empty array when the file is missing, the array of
    records the file holds otherwise; [None] when [JSON.parse] throws, and
    when the file holds a value that is no array of user records. *)
Definition readUsers (fs : FileSystem) : option (list User) :=
  match usersFile fs with
  | None => Some []
  | Some text => JSON.parse_users text
  end.

(** [writeUsers(users)]. *)
Definition writeUsers (users : list User) (fs : FileSystem) : FileSystem :=
  {| dataFile := dataFile fs; usersFile := Some (JSON.stringify_users users) |}.

(** Whether the route gets as far as its [readData()] call: the checks of
    the session and of the request body come first. *)
Definition reads_data (username : option string) (req : Request) : bool :=
  match req with
  | GetCities => true
  | PostCity city =>
      bool_decide (is_Some (JS.truthy username))
      && from_option (λ c, negb (bool_decide (name c = ""))) false city
  | PostAttraction _ item | PostRestaurant _ item =>
      bool_decide (is_Some (JS.truthy username))
      && bool_decide (is_Some (JS.truthy item))
  | DeleteCity _ | DeleteAttraction _ _ | DeleteRestaurant _ _ =>
      bool_decide (is_Some (JS.truthy username))
  end.

(** A city route served from the file: read, run the handler, write back
    what it hands to [writeData].  [None] is a request that reaches
    [readData()] on a file that holds no data object: it dies of the
    exception [JSON.parse] throws, or it goes on with a value outside this
    model. *)
Definition serve (cfg : Config) (username : option string) (req : Request)
    (fs : FileSystem) : option (Response * FileSystem) :=
  if reads_data username req then
    data ← readData fs;
    let o := handle cfg username req data in
    Some (response o,
          match written o with
          | Some data' => writeData data' fs
          | None => fs
          end)
  else Some (response (handle cfg username req ∅), fs).

(** A restart of the server process: the files stay, nothing of the city
    store lives in memory. *)
Definition restart (fs : FileSystem) : FileSystem := fs.

(** Requests served one after the other; the status codes they get. *)
Fixpoint serve_all (cfg : Config) (trace : list (option string * Request))
    (fs : FileSystem) : option (list Z * FileSystem) :=
  match trace with
  | [] => Some ([], fs)
  | (who, req) :: rest =>
      '(r, fs') ← serve cfg who req fs;
      '(codes, fs'') ← serve_all cfg rest fs';
      Some (status r :: codes, fs'')
  end.

(** ** Vocabulary of the specification *)

(** The last [n] entries of a list, in their original order. *)
Definition last_n {A} (n : nat) (l : list A) : list A :=
  drop (length l - n) l.

(** The first [n] entries of a list. *)
Definition first_n {A} (n : nat) (l : list A) : list A := take n l.

(** A city as a reader sees it: both arrays cut to their last five. *)
Definition displayed (c : City) : City :=
  {| name := name c;
     attractions := Some (last_n 5 (or_empty (attractions c)));
     restaurants := Some (last_n 5 (or_empty (restaurants c))) |}.

(** A city as a writer leaves it: both arrays cut to their first five. *)
Definition capped (c : City) : City :=
  {| name := name c;
     attractions := Some (first_n 5 (or_empty (attractions c)));
     restaurants := Some (first_n 5 (or_empty (restaurants c))) |}.

(** What a route is seen to do, told from the response it sends and from
    the object it hands to [writeData].  [replies o code b]: the response
    has the status [code] and the body [b].  [refuses o code msg]: the
    response is the error [msg] with the status [code], and nothing is
    written.  [writes o u cities data]: an object is written; it holds
    [cities] under [u] and under [latest], and what [data] held under every
    other key. *)
Definition replies (o : Outcome) (code : Z) (b : Body) : Prop :=
  status (response o) = code ∧ body (response o) = b.

Definition refuses (o : Outcome) (code : Z) (msg : string) : Prop :=
  replies o code (BodyError msg) ∧ written o = None.

Definition writes (o : Outcome) (u : string) (cities : list City) (data : Database) : Prop :=
  ∃ data', written o = Some data' ∧
    data' !! u = Some cities ∧ data' !! "latest" = Some cities ∧
    ∀ k, k ≠ u → k ≠ "latest" → data' !! k = data !! k.



(** The property names every JavaScript object inherits from
    [Object.prototype]. *)
Definition object_prototype_members : list string :=
  ["constructor"; "__defineGetter__"; "__defineSetter__"; "hasOwnProperty";
   "__lookupGetter__"; "__lookupSetter__"; "isPrototypeOf";
   "propertyIsEnumerable"; "toString"; "valueOf"; "__proto__"; "toLocaleString"].

(** The 400 answers of the two routes are the validation errors. *)
Definition ValidationError (r : Response) : Prop :=
  r = FieldsRequired ∨ r = InvalidEmail.

(** A stored city holds at most five attractions and five restaurants. *)
Definition city_ok (c : City) : Prop :=
  (length (or_empty (attractions c)) ≤ 5)%nat ∧
  (length (or_empty (restaurants c)) ≤ 5)%nat.

(** A stored list holds at most ten cities, each within its limits. *)
Definition list_ok (cities : list City) : Prop :=
  (length cities ≤ 10)%nat ∧ Forall city_ok cities.

(** The invariant of the data file: every key maps to such a list. *)
Definition at_rest (data : Database) : Prop :=
  ∀ k cities, data !! k = Some cities → list_ok cities.

#[global] Instance city_ok_dec (c : City) : Decision (city_ok c).
Proof. unfold city_ok. apply _. Defined.

#[global] Instance list_ok_dec (cities : list City) : Decision (list_ok cities).
Proof. unfold list_ok. apply _. Defined.

#[global] Instance at_rest_dec (data : Database) : Decision (at_rest data).
Proof. exact (map_Forall_dec (λ _ cities, list_ok cities) data). Defined.

(** The stored object after a handler has run. *)
Definition after (o : Outcome) (data : Database) : Database :=
  default data (written o).

(** A session is a sequence of requests, each with the username of its
    caller's session; the handlers run one after the other on the file. *)
Fixpoint run (cfg : Config) (trace : list (option string * Request))
    (data : Database) : Database :=
  match trace with
  | [] => data
  | (who, req) :: rest => run cfg rest (after (handle cfg who req data) data)
  end.

(** The caller of the last request of a trace that wrote the file. *)
Fixpoint last_writer (cfg : Config) (trace : list (option string * Request))
    (data : Database) : option string :=
  match trace with
  | [] => None
  | (who, req) :: rest =>
      let o := handle cfg who req data in
      match last_writer cfg rest (after o data) with
      | Some u => Some u
      | None =>
          match written o with
          | Some _ => JS.truthy who
          | None => None
          end
      end
  end.

(** The text after the first element of a printed array or object whose
    remaining elements are [l]. *)
Fixpoint tail_text {A} (pr : A → string) (close : ascii) (d : nat) (l : list A)
    : string :=
  match l with
  | [] => JSON.indent d +:+ String close ""
  | x :: l' => String "," (JSON.indent (S d) +:+ pr x +:+ tail_text pr close d l')
  end.

(** ** Fixtures, after the test suite *)

(** The names [prefix0 .. prefix(n-1)]. *)
Definition numbered (prefix : string) (n : nat) : list string :=
  (λ i : nat, prefix +:+ pretty i) <$> seq 0 n.

(** A city without attractions or restaurants. *)
Definition bare_city (n : string) : City :=
  {| name := n; attractions := Some []; restaurants := Some [] |}.

(** A user of the test suite with fifteen cities [City0 .. City14], each
    holding [A0 .. A6] and [R0 .. R6]. *)
Definition fifteen_cities : list City :=
  (λ n, {| name := n;
           attractions := Some (numbered "A" 7);
           restaurants := Some (numbered "R" 7) |}) <$> numbered "City" 15.

Definition hank_data : Database :=
  {[ "hank" := fifteen_cities; "latest" := fifteen_cities ]}.

(** An incoming city with seven attractions and seven restaurants. *)
Definition seven_attractions : City :=
  {| name := "TestCity";
     attractions := Some (numbered "A" 7);
     restaurants := Some (numbered "R" 7) |}.

(** A user of the test suite who already has ten cities. *)
Definition ten_cities : list City := bare_city <$> numbered "City" 10.
Definition eve_data : Database := {[ "eve" := ten_cities; "latest" := ten_cities ]}.

(** A city of the test suite that already holds five attractions. *)
Definition rome_full : City :=
  {| name := "Rome"; attractions := Some (numbered "Attraction" 5);
     restaurants := Some [] |}.
Definition frank_data : Database :=
  {[ "frank" := [rome_full]; "latest" := [rome_full] ]}.

(** A user with a single city. *)
Definition bob_data : Database :=
  {[ "bob" := [bare_city "London"]; "latest" := [bare_city "London"] ]}.

(** ** Further vocabulary: the routes the limits do not concern *)

(** The contract shared by [deleteAttraction] and [deleteRestaurant]:
    [items] is the array concerned and [others] the other one; [i] is the
    position of the first city named [cityName]. *)
Definition del_item_spec
    (del : Config → option string → string → string → Database → Outcome)
    (items others : City → option (list string)) : Prop :=
  ∀ (cfg : Config) (u cityName item : string) (data : Database),
    u ≠ "" →
    let cities := or_empty (data !! u) in
    let o := del cfg (Some u) cityName item data in
    ((∀ c, c ∈ cities → name c ≠ cityName) → refuses o 404 "City not found") ∧
    (∀ (i : nat) city,
       cities !! i = Some city → name city = cityName →
       (∀ j c, (j < i)%nat → cities !! j = Some c → name c ≠ cityName) →
       ∃ city',
         replies o 200 (BodyCity city') ∧
         writes o u (<[i := city']> cities) data ∧
         name city' = name city ∧
         others city' = others city ∧
         items city' = Some (base.filter (λ x, x ≠ item) (or_empty (items city))) ∧
         (item ∉ or_empty (items city')) ∧
         ((item ∉ or_empty (items city)) → items city' = Some (or_empty (items city)))).

(** The same contract as an equation on the outcome, [set_items] being the
    assignment to the array. *)
Definition del_item_outcome
    (del : Config → option string → string → string → Database → Outcome)
    (items : City → option (list string))
    (set_items : list string → City → City) : Prop :=
  ∀ (cfg : Config) (u cityName item : string) (data : Database),
    u ≠ "" →
    let cities := or_empty (data !! u) in
    let o := del cfg (Some u) cityName item data in
    ((∀ c, c ∈ cities → name c ≠ cityName) → o = respond CityNotFound) ∧
    (∀ (i : nat) city,
       cities !! i = Some city → name city = cityName →
       (∀ j c, (j < i)%nat → cities !! j = Some c → name c ≠ cityName) →
       let remaining := base.filter (λ x, x ≠ item) (or_empty (items city)) in
       o = commit (ok (BodyCity (set_items remaining city)))
             (store u (<[i := set_items remaining city]> cities) data)).

(** The city names of every stored list are pairwise distinct. *)
Definition names_unique (data : Database) : Prop :=
  ∀ k cities, data !! k = Some cities → NoDup (name <$> cities).

(** A city with its missing arrays read as empty ones. *)
Definition filled (c : City) : City :=
  {| name := name c;
     attractions := Some (or_empty (attractions c));
     restaurants := Some (or_empty (restaurants c)) |}.

(** The list [getUserCities] starts from: the caller's, else [latest]. *)
Definition selected (data : Database) (username : option string) : list City :=
  match JS.truthy username ≫= (λ u, data !! u) with
  | Some l => l
  | None => or_empty (data !! "latest")
  end.

(** A city as [getUserCities] shows it under the limits [cfg]. *)
Definition shown (cfg : Config) (c : City) : City :=
  {| name := name c;
     attractions := Some (last_n (Z.to_nat (getMaxAttractionsPerCity cfg))
                            (or_empty (attractions c)));
     restaurants := Some (last_n (Z.to_nat (getMaxRestaurantsPerCity cfg))
                            (or_empty (restaurants c))) |}.

(** Adding an item to a city and deleting it again: [add] and [del] are the
    two routes of one of the arrays, [items] the array, [others] the other
    one and [limit] its limit.  The city comes back with its array as it
    was, a missing array having become an empty one. *)
Definition add_del_spec
    (add : Config → option string → string → option string → Database → Outcome)
    (del : Config → option string → string → string → Database → Outcome)
    (items others : City → option (list string)) (limit : Config → Z) : Prop :=
  ∀ (cfg : Config) (u cityName item : string) (data : Database) (i : nat)
    (city : City),
    u ≠ "" → item ≠ "" →
    or_empty (data !! u) !! i = Some city → name city = cityName →
    (∀ j c, (j < i)%nat → or_empty (data !! u) !! j = Some c → name c ≠ cityName) →
    Z.of_nat (length (or_empty (items city))) < limit cfg →
    item ∉ or_empty (items city) →
    ∃ data1 city',
      written (add cfg (Some u) cityName (Some item) data) = Some data1 ∧
      replies (del cfg (Some u) cityName item data1) 200 (BodyCity city') ∧
      writes (del cfg (Some u) cityName item data1) u
        (<[i := city']> (or_empty (data !! u))) data ∧
      name city' = name city ∧
      items city' = Some (or_empty (items city)) ∧
      others city' = others city ∧
      (is_Some (items city) →
         city' = city ∧ <[i := city']> (or_empty (data !! u)) = or_empty (data !! u)).

(** The same as an equation on the outcome of the delete, [set_items]
    being the assignment to the array. *)
Definition add_del_outcome
    (add : Config → option string → string → option string → Database → Outcome)
    (del : Config → option string → string → string → Database → Outcome)
    (items : City → option (list string)) (set_items : list string → City → City)
    (limit : Config → Z) : Prop :=
  ∀ (cfg : Config) (u cityName item : string) (data : Database) (i : nat)
    (city : City),
    u ≠ "" → item ≠ "" →
    or_empty (data !! u) !! i = Some city → name city = cityName →
    (∀ j c, (j < i)%nat → or_empty (data !! u) !! j = Some c → name c ≠ cityName) →
    Z.of_nat (length (or_empty (items city))) < limit cfg →
    item ∉ or_empty (items city) →
    ∃ data1,
      written (add cfg (Some u) cityName (Some item) data) = Some data1 ∧
      del cfg (Some u) cityName item data1
      = commit (ok (BodyCity (set_items (or_empty (items city)) city)))
          (store u (<[i := set_items (or_empty (items city)) city]> (or_empty (data !! u)))
             data).

(** ** The language of a pattern

    What [Regex.test] decides, stated without derivatives: [in_language r s]
    holds when the whole of [s] is a word of [r]. *)
Inductive in_language : Regex.t → string → Prop :=
| lang_eps : in_language Regex.Eps ""
| lang_class p c : p c = true → in_language (Regex.Class p) (String c "")
| lang_seq r1 r2 s1 s2 :
    in_language r1 s1 → in_language r2 s2 → in_language (Regex.Seq r1 r2) (s1 +:+ s2)
| lang_alt_l r1 r2 s : in_language r1 s → in_language (Regex.Alt r1 r2) s
| lang_alt_r r1 r2 s : in_language r2 s → in_language (Regex.Alt r1 r2) s
| lang_star_nil r : in_language (Regex.Star r) ""
| lang_star_cons r s1 s2 :
    in_language r s1 → in_language (Regex.Star r) s2 →
    in_language (Regex.Star r) (s1 +:+ s2).

(** Every character of [s] satisfies [p]. *)
Fixpoint every (p : ascii → bool) (s : string) : bool :=
  match s with
  | EmptyString => true
  | String c s' => p c && every p s'
  end.

(** A word of [[^@\s]+]: not empty, and free of [@] and of white space. *)
Definition plain (s : string) : Prop := s ≠ "" ∧ every not_at_or_space s = true.

(** ** Accounts

    The requests of [user.js] that read the users file, and what a sequence
    of them leaves in it. *)
Inductive UserRequest :=
| Register (email pass : option string)
| Login (email pass : option string).

Definition handle_user (req : UserRequest) (users : list User) : UserOutcome :=
  match req with
  | Register email pass => register email pass users
  | Login email pass => login email pass users
  end.

(** The users array after a route has run. *)
Definition users_after (o : UserOutcome) (users : list User) : list User :=
  default users (users_written o).

Fixpoint run_users (reqs : list UserRequest) (users : list User) : list User :=
  match reqs with
  | [] => users
  | req :: rest => run_users rest (users_after (handle_user req users) users)
  end.

(** One record per username, every username an email address, no empty
    password. *)
Definition users_ok (users : list User) : Prop :=
  NoDup (username <$> users) ∧
  Forall (λ x, isValidEmail (Some (username x)) = true ∧ password x ≠ "") users.

(** The answer of a route that signs [u] in. *)
Definition signed_in (u : string) : UserOutcome :=
  {| user_response := ok (BodyUser u); users_written := None; session_user := Some u |}.

(** The status codes a sequence of requests gets from the handlers, run one
    after the other on the data object. *)
Fixpoint answers (cfg : Config) (trace : list (option string * Request))
    (data : Database) : list Z :=
  match trace with
  | [] => []
  | (who, req) :: rest =>
      status (response (handle cfg who req data))
      :: answers cfg rest (after (handle cfg who req data) data)
  end.

(** ** The server: both stores and the sessions

    Whether a user route gets as far as its [readUsers()] call. *)
Definition reads_users (req : UserRequest) : bool :=
  match req with
  | Register email pass =>
      bool_decide (is_Some (JS.truthy email)) && bool_decide (is_Some (JS.truthy pass))
      && isValidEmail email
  | Login email _ => isValidEmail email
  end.

(** A user route served from the file; [None] is a request that reaches
    [readUsers()] on a file that holds no array of user records: it dies of
    the exception [JSON.parse] throws, or it goes on with a value outside
    this model. *)
Definition serve_user (req : UserRequest) (fs : FileSystem)
    : option (UserOutcome * FileSystem) :=
  if reads_users req then
    users ← readUsers fs;
    let o := handle_user req users in
    Some (o, match users_written o with
             | Some users' => writeUsers users' fs
             | None => fs
             end)
  else Some (handle_user req [], fs).

Definition NotLoggedIn : Response := fail 401 "Not logged in".

(** [GET /me], as a function of [req.session.user]. *)
Definition me (session : option string) : Response :=
  match session with
  | Some u => ok (BodyUser u)
  | None => NotLoggedIn
  end.

(** [POST /logout]: the answer once the session is destroyed. *)
Definition logout : Response := ok (BodyMessage "Logged out").

(** The files and, for every client that holds a session with a user in
    it, the username of [req.session.user]. *)
Record Server := { files : FileSystem; sessions : gmap nat string }.

Inductive Call :=
| UserCall (req : UserRequest)
| LogoutCall
| MeCall
| CityCall (req : Request).

(** One request of [client]. *)
Definition step (cfg : Config) (client : nat) (call : Call) (srv : Server)
    : option (Response * Server) :=
  match call with
  | UserCall req =>
      '(o, fs') ← serve_user req (files srv);
      Some (user_response o,
            {| files := fs';
               sessions := match session_user o with
                           | Some u => <[client := u]> (sessions srv)
                           | None => sessions srv
                           end |})
  | LogoutCall =>
      Some (logout, {| files := files srv; sessions := delete client (sessions srv) |})
  | MeCall => Some (me (sessions srv !! client), srv)
  | CityCall req =>
      '(r, fs') ← serve cfg (sessions srv !! client) req (files srv);
      Some (r, {| files := fs'; sessions := sessions srv |})
  end.

Fixpoint serve_calls (cfg : Config) (calls : list (nat * Call)) (srv : Server)
    : option (list Z * Server) :=
  match calls with
  | [] => Some ([], srv)
  | (client, call) :: rest =>
      '(r, srv') ← step cfg client call srv;
      '(codes, srv'') ← serve_calls cfg rest srv';
      Some (status r :: codes, srv'')
  end.

(** The usernames that have an account. *)
Definition accounts (users : list User) : list string := username <$> users.

(** A server in order: the users file is missing or holds an array of user
    records, the data file is missing or holds a data object, the accounts
    are in order, every session is the session of an account, and every
    list of the data object is an account's, [latest] or the [cities] of
    the default object. *)
Definition server_ok (srv : Server) : Prop :=
  ∃ users data,
    readUsers (files srv) = Some users ∧ readData (files srv) = Some data ∧
    users_ok users ∧
    (∀ client u, sessions srv !! client = Some u → u ∈ accounts users) ∧
    (∀ k, is_Some (data !! k) → k = "latest" ∨ k = "cities" ∨ k ∈ accounts users).

(** A server started without files and without sessions. *)
Definition new_server : Server :=
  {| files := {| dataFile := None; usersFile := None |}; sessions := ∅ |}.

(** ** The buttons of the user interface

    [CityList] renders its "Add City" button under
    [loggedIn && safeCities.length < 10]; [AttractionList] and
    [RestaurantList] render their input under
    [loggedIn && attractions.length < 5]. *)
Definition showsAddCity (loggedIn : bool) (cities : list City) : bool :=
  loggedIn && (Z.of_nat (length cities) <? 10).

Definition showsAddItem (loggedIn : bool) (items : list string) : bool :=
  loggedIn && (Z.of_nat (length items) <? 5).

(** ** The configuration object ([config.js])

    [this.config] is what [JSON.parse] made of [database.json], or the
    default object: a JSON value.  Numbers are the integers ([deepMerge]
    never looks inside a number); an object is a finite map of its own
    properties. *)
#[warnings="-register-all"]
Inductive Value :=
| VNull
| VBool (b : bool)
| VNum (n : Z)
| VStr (s : string)
| VArr (l : list Value)
| VObj (o : gmap string Value).

(** The own enumerable properties of an array or of a string: its
    elements under their indexes. *)
Definition indexed {A} (l : list A) : gmap string A :=
  list_to_map (imap (λ (i : nat) x, (pretty i, x)) l).

(** [{ ...v }]. *)
Definition spread (v : Value) : gmap string Value :=
  match v with
  | VObj o => o
  | VArr l => indexed l
  | VStr s => indexed ((λ c, VStr (String c "")) <$> list_ascii_of_string s)
  | VNull | VBool _ | VNum _ => ∅
  end.

(** Truthiness of a JSON value. *)
Definition truthy_value (v : Value) : bool :=
  match v with
  | VNull => false
  | VBool b => b
  | VNum n => negb (n =? 0)
  | VStr s => negb (bool_decide (s = ""))
  | VArr _ | VObj _ => true
  end.

(** [v || {}], for [v = result[key]] ([None] is [undefined]). *)
Definition or_object (v : option Value) : Value :=
  match v with
  | Some v => if truthy_value v then v else VObj ∅
  | None => VObj ∅
  end.

(** [deepMerge(target, source)] for a [source] that is an object: the loop
    over the keys of [source], started from the copy [{ ...target }].  A
    value of [source] is merged recursively when it is an object
    ([source[key] && typeof source[key] === 'object' && !Array.isArray(...)])
    and assigned otherwise. *)
Fixpoint deepMerge_rec (target source : Value) {struct source} : gmap string Value :=
  match source with
  | VObj s =>
      map_fold (λ key v result,
        match v with
        | VObj _ => <[key := VObj (deepMerge_rec (or_object (result !! key)) v)]> result
        | _ => <[key := v]> result
        end) (spread target) s
  | _ => spread target
  end.

Definition deepMerge (target : Value) (source : gmap string Value) : gmap string Value :=
  deepMerge_rec target (VObj source).

(** [v[key]] for an own property; [None] is [undefined]. *)
Definition member (key : string) (v : Value) : option Value := spread v !! key.

(** [v.k1.k2...]; [None] when a step finds nothing. *)
Fixpoint at_path (path : list string) (v : Value) : option Value :=
  match path with
  | [] => Some v
  | key :: rest => member key v ≫= at_path rest
  end.

(** The three getters, on the configuration object. *)
Definition getMaxCitiesPerUser_of (config : Value) : option Value :=
  at_path ["defaults"; "maxCitiesPerUser"] config.
Definition getMaxAttractionsPerCity_of (config : Value) : option Value :=
  at_path ["defaults"; "maxAttractionsPerCity"] config.
Definition getMaxRestaurantsPerCity_of (config : Value) : option Value :=
  at_path ["defaults"; "maxRestaurantsPerCity"] config.

(** The limits a configuration object gives the routes, when all three are
    numbers. *)
Definition limits (config : Value) : option Config :=
  match getMaxCitiesPerUser_of config, getMaxAttractionsPerCity_of config,
        getMaxRestaurantsPerCity_of config with
  | Some (VNum c), Some (VNum a), Some (VNum r) =>
      Some {| maxCitiesPerUser := c; maxAttractionsPerCity := a;
              maxRestaurantsPerCity := r |}
  | _, _, _ => None
  end.

(** The object [loadConfig] returns when [database.json] cannot be read. *)
Definition default_config_object : Value :=
  VObj {[ "files" := VObj {[ "cities" := VStr "data.json"; "users" := VStr "users.json" ]};
          "paths" := VObj {[ "root" := VStr "./"; "data" := VStr "./data.json";
                             "users" := VStr "./users.json" ]};
          "defaults" := VObj {[ "maxCitiesPerUser" := VNum 10;
                                "maxAttractionsPerCity" := VNum 5;
                                "maxRestaurantsPerCity" := VNum 5 ]} ]}.

(** No object of [source], at any depth the merge descends to, has a key
    [__proto__]: an assignment to that key sets the prototype of the
    result and adds no property. *)
Inductive no_proto : gmap string Value → Prop :=
| no_proto_intro o :
    o !! "__proto__" = None →
    (∀ k o', o !! k = Some (VObj o') → no_proto o') →
    no_proto o.

(** The depth of nested objects. *)
Fixpoint nesting (v : Value) : nat :=
  match v with
  | VObj o => S (map_fold (λ _ v' n, Nat.max (nesting v') n) 0%nat o)
  | _ => 0%nat
  end.

(** What [deepMerge] leaves under a key of [source]. *)
Definition merged_value (target : Value) (key : string) (v : Value) : Value :=
  match v with
  | VObj o => VObj (deepMerge (or_object (spread target !! key)) o)
  | _ => v
  end.

(** A path that leaves [source]: at some step it asks an object of
    [source] for a key the object does not have. *)
Fixpoint leaves (path : list string) (source : Value) : Prop :=
  match path, source with
  | key :: rest, VObj o =>
      match o !! key with
      | None => True
      | Some v => leaves rest v
      end
  | _, _ => False
  end.

(** ** The city store with the limits written in

    The variant of [city.js] that does not read the configuration: it
    differs from the one above in [getUserCities] and in the three [POST]
    routes, which carry the numbers 10 and 5 and the messages with these
    numbers; the three [DELETE] routes are the same text. *)
Module Earlier.

Definition getUserCities (data : Database) (username : option string) : list City :=
  let cities :=
    match JS.truthy username ≫= (λ u, data !! u) with
    | Some l => l
    | None =>
        match data !! "latest" with
        | Some l => l
        | None => []
        end
    end in
  (λ city,
     {| name := name city;
        attractions := Some (JS.slice (or_empty (attractions city)) (-5) None);
        restaurants := Some (JS.slice (or_empty (restaurants city)) (-5) None) |})
  <$> JS.slice cities (-10) None.

Definition listCities (username : option string) (data : Database) : Outcome :=
  respond (ok (BodyCities (getUserCities data username))).

Definition addOrUpdateCity (username : option string) (city : option City)
    (data : Database) : Outcome :=
  match JS.truthy username with
  | None => respond (fail 401 "Login required")
  | Some username =>
      match city with
      | None => respond (fail 400 "City name required")
      | Some city =>
          if bool_decide (name city = "") then respond (fail 400 "City name required") else
          let cities := or_empty (data !! username) in
          let idx := JS.findIndex (λ c, JS.strict_eq (name c) (name city)) cities in
          if (idx =? -1) && (Z.of_nat (length cities) >=? 10)
          then respond (fail 400 "City limit (10) reached")
          else
            let city :=
              {| name := name city;
                 attractions := Some (JS.slice (or_empty (attractions city)) 0 (Some 5));
                 restaurants := Some (JS.slice (or_empty (restaurants city)) 0 (Some 5)) |} in
            let cities :=
              if idx >=? 0 then JS.set_index cities idx city
              else JS.push cities city in
            commit (ok (BodyCity city)) (store username cities data)
      end
  end.

Definition addAttraction (username : option string) (cityName : string)
    (attraction : option string) (data : Database) : Outcome :=
  match JS.truthy username with
  | None => respond (fail 401 "Login required")
  | Some username =>
      match JS.truthy attraction with
      | None => respond (fail 400 "Attraction required")
      | Some attraction =>
          let cities := or_empty (data !! username) in
          let named := λ c, JS.strict_eq (name c) cityName in
          match JS.find named cities with
          | None => respond (fail 404 "City not found")
          | Some city =>
              let list := or_empty (attractions city) in
              if Z.of_nat (length list) >=? 5
              then respond (fail 400 "Attraction limit (5) reached")
              else
                let idx := JS.findIndex (λ a, JS.strict_eq a attraction) list in
                let list := if idx =? -1 then JS.push list attraction else list in
                let cities := mutate_found named (set_attractions list) cities in
                commit (ok (BodyCity (set_attractions list city)))
                       (store username cities data)
          end
      end
  end.

Definition addRestaurant (username : option string) (cityName : string)
    (restaurant : option string) (data : Database) : Outcome :=
  match JS.truthy username with
  | None => respond (fail 401 "Login required")
  | Some username =>
      match JS.truthy restaurant with
      | None => respond (fail 400 "Restaurant required")
      | Some restaurant =>
          let cities := or_empty (data !! username) in
          let named := λ c, JS.strict_eq (name c) cityName in
          match JS.find named cities with
          | None => respond (fail 404 "City not found")
          | Some city =>
              let list := or_empty (restaurants city) in
              if Z.of_nat (length list) >=? 5
              then respond (fail 400 "Restaurant limit (5) reached")
              else
                let idx := JS.findIndex (λ r, JS.strict_eq r restaurant) list in
                let list := if idx =? -1 then JS.push list restaurant else list in
                let cities := mutate_found named (set_restaurants list) cities in
                commit (ok (BodyCity (set_restaurants list city)))
                       (store username cities data)
          end
      end
  end.

(** The routes of the variant; a [DELETE] route has no limit to read. *)
Definition handle (username : option string) (req : Request) (data : Database) : Outcome :=
  match req with
  | GetCities => listCities username data
  | PostCity city => addOrUpdateCity username city data
  | DeleteCity cityName => deleteCity default_config username cityName data
  | PostAttraction cityName a => addAttraction username cityName a data
  | DeleteAttraction cityName a => deleteAttraction default_config username cityName a data
  | PostRestaurant cityName r => addRestaurant username cityName r data
  | DeleteRestaurant cityName r => deleteRestaurant default_config username cityName r data
  end.

End Earlier.

(** [handleUpdateCity(city)] of [App.jsx]: the request the "Edit" button
    sends when the prompt returns [answer] ([None] is a cancelled prompt),
    with the body [{ city: { ...city, name } }]; no request on an empty
    answer. *)
Definition handleUpdateCity (city : City) (answer : option string) : option Request :=
  match JS.truthy answer with
  | None => None
  | Some n =>
      Some (PostCity (Some {| name := n; attractions := attractions city;
                              restaurants := restaurants city |}))
  end.

(** ** The limits of a configuration, at rest

    The invariant of the data file under the limits [cfg]: no list longer
    than [maxCitiesPerUser], no city with more attractions or restaurants
    than [maxAttractionsPerCity] and [maxRestaurantsPerCity]. *)
Definition city_within (cfg : Config) (c : City) : Prop :=
  Z.of_nat (length (or_empty (attractions c))) ≤ getMaxAttractionsPerCity cfg ∧
  Z.of_nat (length (or_empty (restaurants c))) ≤ getMaxRestaurantsPerCity cfg.

Definition list_within (cfg : Config) (cities : list City) : Prop :=
  Z.of_nat (length cities) ≤ getMaxCitiesPerUser cfg ∧ Forall (city_within cfg) cities.

Definition within (cfg : Config) (data : Database) : Prop :=
  ∀ k cities, data !! k = Some cities → list_within cfg cities.

(** ** Facts about the JavaScript primitives *)

Section JSFacts.
Context {A : Type}.
Implicit Types (l : list A) (p : A → bool).

Lemma slice_last l (n : Z) :
  0 < n → JS.slice l (- n) None = last_n (Z.to_nat n) l.
Proof.
  intros Hn. unfold JS.slice, JS.rel_index, last_n. cbn [from_option].
  destruct (Z.ltb_spec (- n) 0) as [_|?]; [|lia].
  assert (Z.to_nat (Z.max (Z.of_nat (length l) + - n) 0)
          = (length l - Z.to_nat n)%nat) as -> by lia.
  apply take_ge. rewrite length_drop. lia.
Qed.

Lemma slice_first l (n : Z) :
  0 ≤ n → JS.slice l 0 (Some n) = first_n (Z.to_nat n) l.
Proof.
  intros Hn. unfold JS.slice, JS.rel_index, first_n. cbn [from_option].
  destruct (Z.ltb_spec 0 0) as [?|_]; [lia|].
  destruct (Z.ltb_spec n 0) as [?|_]; [lia|].
  assert (Z.to_nat (Z.min 0 (Z.of_nat (length l))) = 0%nat) as -> by lia.
  rewrite drop_0.
  destruct (Z.le_ge_cases n (Z.of_nat (length l))) as [Hle|Hge].
  - f_equal. lia.
  - rewrite !take_ge; [done|lia..].
Qed.

Lemma length_last_n (n : nat) l : length (last_n n l) = (length l `min` n)%nat.
Proof. unfold last_n. rewrite length_drop. lia. Qed.

Lemma length_first_n (n : nat) l : length (first_n n l) = (n `min` length l)%nat.
Proof. unfold first_n. apply length_take. Qed.

Lemma filter_spec p l : JS.filter p l = base.filter (λ x, p x = true) l.
Proof.
  induction l as [|x l IH]; [done|]. cbn [JS.filter].
  rewrite filter_cons, <- IH.
  destruct (p x) eqn:Hp; case_decide; congruence.
Qed.

Lemma length_filter_le p l : (length (JS.filter p l) ≤ length l)%nat.
Proof. rewrite filter_spec. apply length_filter. Qed.

Lemma elem_of_filter p l x : x ∈ JS.filter p l ↔ p x = true ∧ x ∈ l.
Proof. rewrite filter_spec, list_elem_of_filter. done. Qed.

Lemma filter_id p l : (∀ x, x ∈ l → p x = true) → JS.filter p l = l.
Proof.
  induction l as [|x l IH]; [done|]. intros H. cbn [JS.filter].
  rewrite (H x) by left. f_equal. apply IH. intros y Hy. apply H. by right.
Qed.

Lemma findIndex_ge p l : -1 ≤ JS.findIndex p l < Z.of_nat (length l).
Proof.
  induction l as [|x l IH]; cbn [JS.findIndex length]; [lia|].
  destruct (p x); [lia|].
  destruct (Z.eqb_spec (JS.findIndex p l) (-1)); lia.
Qed.

(** [findIndex] gives -1 exactly when no element passes. *)
Lemma findIndex_none p l :
  JS.findIndex p l = -1 ↔ ∀ x, x ∈ l → p x = false.
Proof.
  induction l as [|x l IH]; cbn [JS.findIndex].
  - split; [|done]. intros _ x Hx. by apply elem_of_nil in Hx.
  - destruct (p x) eqn:Hp.
    + split; [lia|]. intros H. specialize (H x (list_elem_of_here _ _)). congruence.
    + pose proof (findIndex_ge p l) as Hge.
      destruct (Z.eqb_spec (JS.findIndex p l) (-1)) as [He|Hne].
      * split; [|done]. intros _ y Hy. apply elem_of_cons in Hy as [->|Hy]; [done|].
        by apply IH.
      * split; [lia|]. intros H. exfalso. apply Hne, IH.
        intros y Hy. apply H. by right.
Qed.

(** Otherwise it is the position of the first element that passes. *)
Lemma findIndex_some p l (i : nat) x :
  l !! i = Some x → p x = true →
  (∀ j y, (j < i)%nat → l !! j = Some y → p y = false) →
  JS.findIndex p l = Z.of_nat i.
Proof.
  revert i. induction l as [|y l IH]; intros i Hi Hp Hbefore; [done|].
  cbn [JS.findIndex]. destruct i as [|i].
  - cbn in Hi. injection Hi as ->. by rewrite Hp.
  - rewrite (Hbefore 0%nat y) by (done || lia).
    rewrite (IH i); [|done..|].
    + destruct (Z.eqb_spec (Z.of_nat i) (-1)); lia.
    + intros j z Hj Hz. apply (Hbefore (S j) z); [lia|done].
Qed.

Lemma findIndex_found p l :
  JS.findIndex p l ≠ -1 →
  ∃ (i : nat) x, JS.findIndex p l = Z.of_nat i ∧ l !! i = Some x ∧ p x = true ∧
    ∀ j y, (j < i)%nat → l !! j = Some y → p y = false.
Proof.
  induction l as [|y l IH]; cbn [JS.findIndex]; [done|].
  destruct (p y) eqn:Hp.
  - intros _. exists 0%nat, y. repeat split; [done..|]. intros; lia.
  - destruct (Z.eqb_spec (JS.findIndex p l) (-1)) as [|Hne]; [done|].
    intros _. destruct (IH Hne) as (i & x & Hi & Hx & Hpx & Hb).
    exists (S i), x. repeat split; [lia|done..|].
    intros [|j] z Hj Hz; cbn in Hz; [congruence|]. apply (Hb j); [lia|done].
Qed.

Lemma find_findIndex_none p l : JS.find p l = None ↔ JS.findIndex p l = -1.
Proof.
  induction l as [|x l IH]; cbn [JS.find JS.findIndex]; [done|].
  destruct (p x); [split; [done|lia]|].
  pose proof (findIndex_ge p l).
  destruct (Z.eqb_spec (JS.findIndex p l) (-1)) as [He|Hne].
  - by rewrite IH.
  - rewrite IH. split; [done|lia].
Qed.

(** [find] returns the element at the position [findIndex] returns. *)
Lemma find_some p l x :
  JS.find p l = Some x →
  ∃ i : nat, JS.findIndex p l = Z.of_nat i ∧ l !! i = Some x ∧ p x = true ∧
    ∀ j y, (j < i)%nat → l !! j = Some y → p y = false.
Proof.
  induction l as [|z l IH]; cbn [JS.find JS.findIndex]; [done|].
  destruct (p z) eqn:Hpz.
  - intros [= ->]. exists 0%nat. repeat split; [done..|]. intros; lia.
  - intros Hf. destruct (IH Hf) as (i & Hi & Hx & Hpx & Hb).
    exists (S i). rewrite Hi.
    destruct (Z.eqb_spec (Z.of_nat i) (-1)); [lia|].
    repeat split; [lia|done..|].
    intros [|j] y Hj Hy; cbn in Hy; [congruence|]. apply (Hb j); [lia|done].
Qed.

(** [find] on a list whose first passing element is known. *)
Lemma find_first p l (i : nat) x :
  l !! i = Some x → p x = true →
  (∀ j y, (j < i)%nat → l !! j = Some y → p y = false) →
  JS.find p l = Some x.
Proof.
  revert i. induction l as [|y l IH]; intros i Hi Hp Hbefore; [done|].
  cbn [JS.find]. destruct i as [|i].
  - cbn in Hi. injection Hi as ->. by rewrite Hp.
  - rewrite (Hbefore 0%nat y) by (done || lia). apply (IH i); [done..|].
    intros j z Hj Hz. apply (Hbefore (S j) z); [lia|done].
Qed.

Lemma find_none p l : (∀ x, x ∈ l → p x = false) → JS.find p l = None.
Proof. intros H. by apply find_findIndex_none, findIndex_none. Qed.

(** Mutating the found object is an update at its position. *)
Lemma mutate_found_first p (f : A → A) l (i : nat) x :
  l !! i = Some x → p x = true →
  (∀ j y, (j < i)%nat → l !! j = Some y → p y = false) →
  mutate_found p f l = <[i := f x]> l.
Proof.
  revert i. induction l as [|y l IH]; intros i Hi Hp Hbefore; [done|].
  cbn [mutate_found]. destruct i as [|i].
  - cbn in Hi. injection Hi as ->. by rewrite Hp.
  - rewrite (Hbefore 0%nat y) by (done || lia). cbn. f_equal. apply (IH i); [done..|].
    intros j z Hj Hz. apply (Hbefore (S j) z); [lia|done].
Qed.

Lemma length_mutate_found p (f : A → A) l : length (mutate_found p f l) = length l.
Proof.
  induction l as [|y l IH]; [done|]. cbn [mutate_found].
  destruct (p y); cbn; by rewrite ?IH.
Qed.

(** Every element of the mutated list is an old element or [f] of one. *)
Lemma elem_of_mutate_found p (f : A → A) l y :
  y ∈ mutate_found p f l → y ∈ l ∨ ∃ x, x ∈ l ∧ JS.find p l = Some x ∧ y = f x.
Proof.
  induction l as [|z l IH]; [by intros ?%elem_of_nil|]. cbn [mutate_found JS.find].
  destruct (p z) eqn:Hp.
  - intros [->|Hy]%elem_of_cons.
    + right. exists z. split; [left|done].
    + left. by right.
  - intros [->|Hy]%elem_of_cons.
    + left. left.
    + destruct (IH Hy) as [?|(x & ? & ? & ?)].
      * left. by right.
      * right. exists x. split; [by right|done].
Qed.

End JSFacts.

(** ** Reading: [listCities] *)

Lemma truthy_nonempty (u : string) : u ≠ "" → JS.truthy (Some u) = Some u.
Proof. intros Hu. unfold JS.truthy. by rewrite bool_decide_eq_false_2. Qed.

Lemma truthy_inv (v : option string) (u : string) :
  JS.truthy v = Some u → v = Some u ∧ u ≠ "".
Proof.
  destruct v as [s|]; [|done]. unfold JS.truthy. case_bool_decide; [done|].
  by intros [= ->].
Qed.

(** Under the default limits the view is "last ten cities, last five
    entries of each array" of the list the fallback rule selects. *)
Lemma getUserCities_default (data : Database) (username : option string) :
  getUserCities default_config data username =
  displayed <$> last_n 10
    match JS.truthy username ≫= (λ u, data !! u) with
    | Some l => l
    | None => or_empty (data !! "latest")
    end.
Proof.
  unfold getUserCities, default_config, getMaxCitiesPerUser,
    getMaxAttractionsPerCity, getMaxRestaurantsPerCity. cbn [maxCitiesPerUser
    maxAttractionsPerCity maxRestaurantsPerCity].
  rewrite slice_last by lia.
  replace (match data !! "latest" with Some l => l | None => [] end)
    with (or_empty (data !! "latest")) by done.
  apply list_fmap_ext. intros _ c _. unfold displayed.
  by rewrite !slice_last by lia.
Qed.

(** C1. For every stored database, [listCities] answers, for a user that has
    an entry, that user's list cut to its last ten entries in insertion
    order, and for a guest the [latest] snapshot cut the same way; every
    returned city shows the last five of its stored attractions and of its
    stored restaurants, however many are stored. *)
Theorem listCities_last_entries (data : Database) :
  (∀ u cities, u ≠ "" → data !! u = Some cities →
     response (listCities default_config (Some u) data)
     = ok (BodyCities (displayed <$> last_n 10 cities))) ∧
  response (listCities default_config None data)
  = ok (BodyCities (displayed <$> last_n 10 (or_empty (data !! "latest")))) ∧
  (∀ username c, c ∈ getUserCities default_config data username →
     ∃ stored, c = displayed stored ∧
       attractions c = Some (last_n 5 (or_empty (attractions stored))) ∧
       restaurants c = Some (last_n 5 (or_empty (restaurants stored)))).
Proof.
  split; [|split].
  - intros u cities Hu Hl. unfold listCities, respond. cbn [response].
    rewrite getUserCities_default, (truthy_nonempty u Hu). cbn [mbind option_bind].
    by rewrite Hl.
  - unfold listCities, respond. cbn [response].
    by rewrite getUserCities_default.
  - intros username c. rewrite getUserCities_default.
    intros (stored & -> & _)%list_elem_of_fmap. by exists stored.
Qed.

(** The two examples of the specification: [City0 .. City14] is listed as
    [City5 .. City14], and [A0 .. A6] as [A2 .. A6]. *)
Lemma listCities_last_entries_witness :
  response (listCities default_config (Some "hank") hank_data)
  = ok (BodyCities
      ((λ n, {| name := n;
                attractions := Some ["A2"; "A3"; "A4"; "A5"; "A6"];
                restaurants := Some ["R2"; "R3"; "R4"; "R5"; "R6"] |})
       <$> ["City5"; "City6"; "City7"; "City8"; "City9";
            "City10"; "City11"; "City12"; "City13"; "City14"])).
Proof.
  rewrite (proj1 (listCities_last_entries hank_data) "hank" fifteen_cities);
    [reflexivity|done|reflexivity].
Defined.

(** C10 as stated fails on a fresh data file: the signed-in user without an
    entry gets the empty list. *)
Lemma listCities_fallback_may_be_empty :
  ¬ ((∅ : Database) !! "alice@example.com" = None →
     getUserCities default_config ∅ (Some "alice@example.com") ≠ []).
Proof. intros H. by apply H. Qed.

(** C10, amended. A signed-in user without an entry is served exactly what a
    guest is served, the [latest] snapshot under the read limits; the answer
    is non-empty whenever that snapshot is. *)
Theorem listCities_fallback (data : Database) (u : string) :
  u ≠ "" → data !! u = None →
  getUserCities default_config data (Some u) = getUserCities default_config data None ∧
  getUserCities default_config data (Some u)
  = displayed <$> last_n 10 (or_empty (data !! "latest")) ∧
  (∀ cities, data !! "latest" = Some cities → cities ≠ [] →
     getUserCities default_config data (Some u) ≠ []).
Proof.
  intros Hu Hnone.
  assert (getUserCities default_config data (Some u)
          = displayed <$> last_n 10 (or_empty (data !! "latest"))) as Heq.
  { rewrite getUserCities_default, (truthy_nonempty u Hu). cbn [mbind option_bind].
    by rewrite Hnone. }
  split; [|split; [done|]].
  - by rewrite Heq, getUserCities_default.
  - intros cities Hl Hne. rewrite Heq, Hl. cbn [or_empty default].
    intros Hnil%fmap_nil_inv. apply (f_equal length) in Hnil.
    rewrite length_last_n in Hnil. destruct cities; [done|]. cbn in Hnil. lia.
Qed.

Lemma listCities_fallback_witness :
  getUserCities default_config hank_data (Some "ivy@example.com")
  = getUserCities default_config hank_data None.
Proof.
  apply (listCities_fallback hank_data "ivy@example.com"); [done|reflexivity].
Defined.

(** ** Writing: [addOrUpdateCity] *)

Lemma cap_city_default (city : City) : cap_city default_config city = capped city.
Proof.
  unfold cap_city, capped, default_config, getMaxAttractionsPerCity,
    getMaxRestaurantsPerCity. cbn [maxAttractionsPerCity maxRestaurantsPerCity].
  by rewrite !slice_first by lia.
Qed.

Lemma lookup_store_user (u : string) (cities : list City) (data : Database) :
  store u cities data !! u = Some cities.
Proof.
  unfold store. destruct (decide (u = "latest")) as [->|Hne].
  - by rewrite lookup_insert_eq.
  - by rewrite lookup_insert_ne, lookup_insert_eq.
Qed.

Lemma lookup_store_latest (u : string) (cities : list City) (data : Database) :
  store u cities data !! "latest" = Some cities.
Proof. unfold store. by rewrite lookup_insert_eq. Qed.

Lemma lookup_store_other (u k : string) (cities : list City) (data : Database) :
  k ≠ u → k ≠ "latest" → store u cities data !! k = data !! k.
Proof. intros Hu Hl. unfold store. by rewrite !lookup_insert_ne. Qed.

(** The body of [POST /] for a signed-in caller and a named city. *)
Lemma addOrUpdateCity_named (u : string) (city : City) (data : Database) :
  u ≠ "" → name city ≠ "" →
  addOrUpdateCity default_config (Some u) (Some city) data =
  let cities := or_empty (data !! u) in
  let idx := JS.findIndex (λ c, JS.strict_eq (name c) (name city)) cities in
  if (idx =? -1) && (Z.of_nat (length cities) >=? 10)
  then respond (CityLimitReached default_config)
  else commit (ok (BodyCity (capped city)))
         (store u (if idx >=? 0 then JS.set_index cities idx (capped city)
                   else JS.push cities (capped city)) data).
Proof.
  intros Hu Hn. unfold addOrUpdateCity.
  rewrite (truthy_nonempty u Hu), bool_decide_eq_false_2 by done.
  by rewrite cap_city_default.
Qed.

(** The ways [POST /] can fail. *)
Lemma addOrUpdateCity_ok_inv (username : option string) (city : option City)
    (data : Database) :
  status (response (addOrUpdateCity default_config username city data)) = 200 →
  ∃ u incoming, username = Some u ∧ u ≠ "" ∧ city = Some incoming ∧ name incoming ≠ "".
Proof.
  unfold addOrUpdateCity. destruct (JS.truthy username) as [u|] eqn:Hu; [|done].
  apply truthy_inv in Hu as [-> Hu]. destruct city as [incoming|]; [|done].
  case_bool_decide; [done|]. intros _. by exists u, incoming.
Qed.

(** C2. Whenever [addOrUpdateCity] succeeds, the city it stores (and sends
    back) carries the first five incoming attractions and the first five
    incoming restaurants; the stored list is also the new [latest]. *)
Theorem addOrUpdateCity_front_truncation (username : option string)
    (city : option City) (data : Database) :
  status (response (addOrUpdateCity default_config username city data)) = 200 →
  ∃ u incoming stored data' cities' (i : nat),
    username = Some u ∧ city = Some incoming ∧
    response (addOrUpdateCity default_config username city data)
      = ok (BodyCity stored) ∧
    written (addOrUpdateCity default_config username city data) = Some data' ∧
    data' !! u = Some cities' ∧ cities' !! i = Some stored ∧
    name stored = name incoming ∧
    attractions stored = Some (first_n 5 (or_empty (attractions incoming))) ∧
    restaurants stored = Some (first_n 5 (or_empty (restaurants incoming))).
Proof.
  intros Hok.
  destruct (addOrUpdateCity_ok_inv _ _ _ Hok) as (u & incoming & -> & Hu & -> & Hn).
  revert Hok. rewrite addOrUpdateCity_named by done. cbv zeta.
  set (cities := or_empty (data !! u)).
  set (p := λ c, JS.strict_eq (name c) (name incoming)).
  destruct ((JS.findIndex p cities =? -1)
            && (Z.of_nat (length cities) >=? 10)) eqn:Hlim; [done|].
  intros _. exists u, incoming, (capped incoming).
  destruct (Z.eqb_spec (JS.findIndex p cities) (-1)) as [He|Hne].
  - rewrite He. cbn [Z.geb Z.compare].
    eexists _, _, (length cities). repeat split; try done.
    + apply lookup_store_user.
    + unfold JS.push. by rewrite lookup_app_r, Nat.sub_diag.
  - destruct (findIndex_found p cities Hne) as (i & old & Hi & Hold & _ & _).
    rewrite Hi. destruct (Z.geb_spec (Z.of_nat i) 0) as [_|?]; [|lia].
    eexists _, _, i. repeat split; try done.
    + apply lookup_store_user.
    + unfold JS.set_index. rewrite Nat2Z.id.
      apply list_lookup_insert_eq. by eapply lookup_lt_Some.
Qed.

(** Seven incoming attractions [A0 .. A6] are stored as [A0 .. A4]; the
    same seven, once stored, are listed as [A2 .. A6]. *)
Lemma addOrUpdateCity_front_truncation_witness :
  ∃ stored,
    response (addOrUpdateCity default_config (Some "ivy") (Some seven_attractions) ∅)
      = ok (BodyCity stored) ∧
    attractions stored = Some ["A0"; "A1"; "A2"; "A3"; "A4"] ∧
    restaurants stored = Some ["R0"; "R1"; "R2"; "R3"; "R4"].
Proof.
  destruct (addOrUpdateCity_front_truncation (Some "ivy") (Some seven_attractions) ∅)
    as (u & incoming & stored & data' & cities' & i & _ & Hc & Hr & _ & _ & _ & _ & Ha & Hb);
    [reflexivity|].
  injection Hc as <-. exists stored. by rewrite Hr, Ha, Hb.
Defined.

(** C3 as stated fails at N = 10: the user has N ≤ 10 cities and the new
    name is not in use, yet the call does not succeed and nothing is added. *)
Lemma addOrUpdateCity_rejects_eleventh :
  ¬ ((length ten_cities ≤ 10)%nat →
     Forall (λ c, name c ≠ "City10") ten_cities →
     status (response (addOrUpdateCity default_config (Some "eve")
                         (Some (bare_city "City10")) eve_data)) = 200).
Proof.
  intros H.
  assert (status (response (addOrUpdateCity default_config (Some "eve")
                         (Some (bare_city "City10")) eve_data)) = 400) as H400
    by reflexivity.
  rewrite H in H400; [done|by vm_compute|].
  apply (bool_decide_unpack _). by vm_compute.
Qed.

(** The outcome of [addOrUpdateCity], case by case. *)
Lemma addOrUpdateCity_outcome (u : string) (city : City) (data : Database) :
  u ≠ "" →
  let cities := or_empty (data !! u) in
  let o := addOrUpdateCity default_config (Some u) (Some city) data in
  (name city = "" → o = respond MissingName) ∧
  (name city ≠ "" →
     (∀ (i : nat) old,
        cities !! i = Some old → name old = name city →
        (∀ j c, (j < i)%nat → cities !! j = Some c → name c ≠ name city) →
        o = commit (ok (BodyCity (capped city)))
              (store u (<[i := capped city]> cities) data)) ∧
     ((∀ c, c ∈ cities → name c ≠ name city) →
        ((10 ≤ length cities)%nat → o = respond (CityLimitReached default_config)) ∧
        ((length cities < 10)%nat →
           o = commit (ok (BodyCity (capped city)))
                 (store u (cities ++ [capped city]) data)))).
Proof.
  intros Hu cities o. split.
  - intros Hn. subst o. unfold addOrUpdateCity.
    by rewrite (truthy_nonempty u Hu), Hn.
  - intros Hn. subst o. rewrite addOrUpdateCity_named by done. cbv zeta.
    fold cities. set (p := λ c, JS.strict_eq (name c) (name city)). split.
    + intros i old Hi Hname Hfirst.
      rewrite (findIndex_some p cities i old Hi).
      * destruct (Z.eqb_spec (Z.of_nat i) (-1)); [lia|].
        destruct (Z.geb_spec (Z.of_nat i) 0); [|lia].
        cbn [andb]. unfold JS.set_index. by rewrite Nat2Z.id.
      * unfold p, JS.strict_eq. by apply bool_decide_eq_true_2.
      * intros j c Hj Hc. unfold p, JS.strict_eq.
        apply bool_decide_eq_false_2. by eapply Hfirst.
    + intros Hfresh.
      assert (JS.findIndex p cities = -1) as ->.
      { apply findIndex_none. intros c Hc. unfold p, JS.strict_eq.
        apply bool_decide_eq_false_2. by apply Hfresh. }
      cbn [Z.eqb Z.geb Z.compare andb]. split.
      * intros Hfull. destruct (Z.geb_spec (Z.of_nat (length cities)) 10); [done|lia].
      * intros Hroom.
        destruct (Z.geb_spec (Z.of_nat (length cities)) 10); [lia|done].
Qed.

(** What is seen of an outcome that commits, and of one that refuses. *)
Lemma commit_writes (r : Response) (u : string) (cities : list City) (data : Database) :
  writes (commit r (store u cities data)) u cities data.
Proof.
  exists (store u cities data). split; [done|].
  split; [apply lookup_store_user|]. split; [apply lookup_store_latest|].
  intros k Hu Hl. by apply lookup_store_other.
Qed.

Lemma commit_replies (b : Body) (data' : Database) : replies (commit (ok b) data') 200 b.
Proof. done. Qed.

Lemma respond_refuses (code : Z) (msg : string) : refuses (respond (fail code msg)) code msg.
Proof. done. Qed.

(** C3, amended. [addOrUpdateCity] wants a non-empty [city.name]: without
    one it answers 400 and writes nothing.  A city of that name already in
    the user's list is replaced where it stands, whatever the length of the
    list: the list that is written has the incoming city (capped) at that
    position, every other position as before, and the same length.
    Otherwise the call is refused with "City limit (10) reached" when the
    list has ten entries (or more), and with fewer the list that is written
    is the old one followed by the incoming city: with N < 10 cities it has
    N + 1.  The written list is stored under the user's name and under
    [latest]; no other key changes. *)
Theorem addOrUpdateCity_spec (u : string) (city : City) (data : Database) :
  u ≠ "" →
  let cities := or_empty (data !! u) in
  let o := addOrUpdateCity default_config (Some u) (Some city) data in
  (name city = "" → refuses o 400 "City name required") ∧
  (name city ≠ "" →
     (∀ (i : nat) old,
        cities !! i = Some old → name old = name city →
        (∀ j c, (j < i)%nat → cities !! j = Some c → name c ≠ name city) →
        replies o 200 (BodyCity (capped city)) ∧
        ∃ cities',
          writes o u cities' data ∧
          length cities' = length cities ∧
          cities' !! i = Some (capped city) ∧
          (∀ j, j ≠ i → cities' !! j = cities !! j)) ∧
     ((∀ c, c ∈ cities → name c ≠ name city) →
        ((10 ≤ length cities)%nat →
           refuses o 400 "City limit (10) reached") ∧
        ((length cities < 10)%nat →
           replies o 200 (BodyCity (capped city)) ∧
           ∃ cities',
             writes o u cities' data ∧
             cities' = cities ++ [capped city] ∧
             length cities' = S (length cities)))).
Proof.
  intros Hu cities o.
  destruct (addOrUpdateCity_outcome u city data Hu) as [Hempty Hnamed].
  fold cities in Hempty, Hnamed. fold o in Hempty, Hnamed. split.
  - intros Hn. rewrite (Hempty Hn). apply respond_refuses.
  - intros Hn. destruct (Hnamed Hn) as [Hold Hnew]. split.
    + intros i old Hi Hname Hfirst. rewrite (Hold i old Hi Hname Hfirst).
      split; [apply commit_replies|].
      exists (<[i := capped city]> cities). split; [apply commit_writes|].
      split; [apply length_insert|]. split.
      * apply list_lookup_insert_eq. by eapply lookup_lt_Some.
      * intros j Hj. by apply list_lookup_insert_ne.
    + intros Hfresh. destruct (Hnew Hfresh) as [Hfull Hroom]. split.
      * intros Hlen. rewrite (Hfull Hlen). apply respond_refuses.
      * intros Hlen. rewrite (Hroom Hlen). split; [apply commit_replies|].
        exists (cities ++ [capped city]). split; [apply commit_writes|].
        split; [done|]. rewrite length_app. cbn. lia.
Qed.

(** Nine cities become ten; the tenth is in last position. *)
Lemma addOrUpdateCity_spec_witness :
  replies (addOrUpdateCity default_config (Some "eve") (Some (bare_city "City9"))
             {[ "eve" := bare_city <$> numbered "City" 9 ]}) 200
    (BodyCity (bare_city "City9")) ∧
  ∃ cities',
    writes (addOrUpdateCity default_config (Some "eve") (Some (bare_city "City9"))
              {[ "eve" := bare_city <$> numbered "City" 9 ]})
      "eve" cities' {[ "eve" := bare_city <$> numbered "City" 9 ]} ∧
    cities' = (bare_city <$> numbered "City" 9) ++ [bare_city "City9"] ∧
    length cities' = 10%nat.
Proof.
  refine (proj2 (proj2 (proj2 (addOrUpdateCity_spec "eve" (bare_city "City9")
            {[ "eve" := bare_city <$> numbered "City" 9 ]} _) _) _) _).
  - done.
  - done.
  - apply Forall_forall, (bool_decide_unpack _). by vm_compute.
  - vm_compute. lia.
Defined.

(** Updating an existing city leaves it in its place, also in a full list. *)
Example addOrUpdateCity_in_place :
  ∃ data',
    written (addOrUpdateCity default_config (Some "eve")
               (Some {| name := "City3"; attractions := Some ["Museum"];
                        restaurants := None |}) eve_data) = Some data' ∧
    name <$> default [] (data' !! "eve") = numbered "City" 10 ∧
    default [] (data' !! "eve") !! 3%nat
    = Some {| name := "City3"; attractions := Some ["Museum"];
              restaurants := Some [] |}.
Proof. eexists. split; [reflexivity|]. split; reflexivity. Qed.

(** ** Attractions and restaurants *)

Lemma findIndex_absent (a : string) (l : list string) :
  JS.findIndex (λ x, JS.strict_eq x a) l = -1 ↔ a ∉ l.
Proof.
  rewrite findIndex_none. unfold JS.strict_eq. split.
  - intros H Ha. specialize (H a Ha). by rewrite bool_decide_eq_true_2 in H.
  - intros Ha x Hx. apply bool_decide_eq_false_2. by intros ->.
Qed.









(** The comparison with the stored strings is exact: a different case is a
    different attraction, the same string is not added twice. *)
Example addAttraction_case_sensitive :
  let paris l := {| name := "Paris"; attractions := Some l; restaurants := Some [] |} in
  response (addAttraction default_config (Some "ann") "Paris" (Some "louvre")
              {[ "ann" := [paris ["Louvre"]] ]})
  = ok (BodyCity (paris ["Louvre"; "louvre"])) ∧
  response (addAttraction default_config (Some "ann") "Paris" (Some "Louvre")
              {[ "ann" := [paris ["Louvre"]] ]})
  = ok (BodyCity (paris ["Louvre"])).
Proof. split; reflexivity. Qed.

(** ** Deleting: [deleteCity] *)





(** Every entry of that name goes, the others keep their order. *)
Example deleteCity_all_matches :
  ∃ data',
    written (deleteCity default_config (Some "bob") "London"
               {[ "bob" := [bare_city "London"; bare_city "Paris";
                            bare_city "London"; bare_city "Oslo"] ]}) = Some data' ∧
    data' !! "bob" = Some [bare_city "Paris"; bare_city "Oslo"] ∧
    data' !! "latest" = Some [bare_city "Paris"; bare_city "Oslo"].
Proof. eexists. split; [reflexivity|]. split; reflexivity. Qed.

(** A user who never stored a city has nothing to delete from. *)
Example deleteCity_no_list :
  deleteCity default_config (Some "zoe") "London" bob_data = respond NoCitiesForUser.
Proof. reflexivity. Qed.

(** ** Users: [register] and [login] *)

Lemma find_app_is_Some {A} (p : A → bool) (l : list A) (x : A) :
  p x = true → is_Some (JS.find p (l ++ [x])).
Proof.
  intros Hp. induction l as [|y l IH]; cbn [app JS.find].
  - rewrite Hp. by eexists.
  - destruct (p y); [by eexists|done].
Qed.

Lemma ValidationError_status (r : Response) : ValidationError r → status r = 400.
Proof. by intros [->| ->]. Qed.

(** A successful registration: what was checked and what was written. *)
Lemma register_written_inv (username password : option string)
    (users users' : list User) :
  users_written (register username password users) = Some users' →
  ∃ u p, username = Some u ∧ password = Some p ∧ u ≠ "" ∧ p ≠ "" ∧
         isValidEmail (Some u) = true ∧
         users' = users ++ [{| username := u; password := p |}].
Proof.
  unfold register.
  destruct (JS.truthy username) as [u|] eqn:Hu; [|done].
  destruct (JS.truthy password) as [p|] eqn:Hp; [|done].
  apply truthy_inv in Hu as [-> Hu]. apply truthy_inv in Hp as [-> Hp].
  destruct (isValidEmail (Some u)) eqn:Hv; [|done]. cbn [negb].
  destruct (JS.find _ users); [done|]. cbn [users_written].
  intros [= <-]. by exists u, p.
Qed.

(** C6. A username that fails the email pattern makes [register] and [login]
    fail with a validation error (status 400) whatever the password, with
    nothing written and nobody signed in; and once a registration has
    succeeded, registering the same username again, with the same or any
    other password, fails with [UsernameTaken] (409) and writes nothing. *)
Theorem register_login_spec :
  (∀ username password users,
     isValidEmail username = false →
     ValidationError (user_response (register username password users)) ∧
     status (user_response (register username password users)) = 400 ∧
     users_written (register username password users) = None ∧
     login username password users = user_respond InvalidEmail ∧
     status (user_response (login username password users)) = 400) ∧
  (∀ username password users users',
     users_written (register username password users) = Some users' →
     register username password users' = user_respond UsernameTaken ∧
     (∀ p2, p2 ≠ "" → register username (Some p2) users' = user_respond UsernameTaken) ∧
     status UsernameTaken = 409 ∧
     users_written (register username password users') = None).
Proof.
  split.
  - intros username password users Hbad.
    assert (ValidationError (user_response (register username password users)) ∧
            users_written (register username password users) = None) as [Hv Hw].
    { unfold register.
      destruct (JS.truthy username) as [u|] eqn:Hu; [|split; [by left|done]].
      apply truthy_inv in Hu as [-> Hu].
      destruct (JS.truthy password) as [p|]; [|split; [by left|done]].
      rewrite Hbad. split; [by right|done]. }
    split; [done|]. split; [by apply ValidationError_status|]. split; [done|].
    unfold login. by rewrite Hbad.
  - intros username password users users' Hw.
    destruct (register_written_inv _ _ _ _ Hw) as (u & p & -> & -> & Hu & Hp & Hv & ->).
    assert (∀ p2, p2 ≠ "" →
              register (Some u) (Some p2)
                (users ++ [{| username := u; password := p |}])
              = user_respond UsernameTaken) as Hagain.
    { intros p2 Hp2. unfold register.
      rewrite (truthy_nonempty u Hu), (truthy_nonempty p2 Hp2), Hv. cbn [negb].
      destruct (find_app_is_Some
                  (λ '{| username := u'; password := _ |}, JS.strict_eq u' u)
                  users {| username := u; password := p |}) as [x ->]; [|done].
      unfold JS.strict_eq. by apply bool_decide_eq_true_2. }
    split; [by apply Hagain|]. split; [done|]. split; [done|]. by rewrite Hagain.
Qed.

(** Registering alice twice gives 409 the second time; signing in as
    "alice", which is no email address, gives 400. *)
Lemma register_login_spec_witness :
  register (Some "alice@example.com") (Some "pw")
    [{| username := "alice@example.com"; password := "pw" |}]
  = user_respond UsernameTaken ∧
  login (Some "alice") (Some "pw")
    [{| username := "alice@example.com"; password := "pw" |}]
  = user_respond InvalidEmail.
Proof.
  split.
  - refine (proj1 (proj2 register_login_spec
                     (Some "alice@example.com") (Some "pw") [] _ _)).
    reflexivity.
  - refine (proj1 (proj2 (proj2 (proj2 (proj1 register_login_spec
                     (Some "alice") (Some "pw") _ _))))).
    reflexivity.
Defined.

(** The two routes sign in nobody but the holder of an email address. *)
Lemma session_user_is_email (username password : option string) (users : list User)
    (u : string) :
  session_user (register username password users) = Some u ∨
  session_user (login username password users) = Some u →
  isValidEmail (Some u) = true.
Proof.
  intros [H|H]; revert H.
  - unfold register.
    destruct (JS.truthy username) as [u'|] eqn:Hu; [|done].
    destruct (JS.truthy password) as [p|]; [|done].
    destruct (isValidEmail (Some u')) eqn:Hv; [|done]. cbn [negb].
    destruct (JS.find _ users); [done|]. cbn [session_user]. by intros [= <-].
  - unfold login. destruct (isValidEmail username) eqn:Hv; [|done]. cbn [negb].
    destruct (JS.find _ users); [|done]. cbn [session_user]. intros [= <-].
    by destruct username.
Qed.

(** Hence a session username is a key of the data object like any other:
    it is no inherited property name, nor [latest], nor [cities]. *)
Lemma email_is_plain_key (u : string) :
  isValidEmail (Some u) = true →
  (u ∉ object_prototype_members) ∧ u ≠ "latest" ∧ u ≠ "cities" ∧ u ≠ "".
Proof.
  intros Hv.
  assert (Forall (λ k, isValidEmail (Some k) = false)
            ("latest" :: "cities" :: "" :: object_prototype_members)) as Hall
    by (apply (bool_decide_unpack _); by vm_compute).
  rewrite Forall_forall in Hall.
  assert (∀ k, k ∈ "latest" :: "cities" :: "" :: object_prototype_members → u ≠ k)
    as Hne by (intros k Hk ->; specialize (Hall _ Hk); congruence).
  split; [|split; [|split]].
  - intros Hin. apply (Hne u); [|done]. by do 3 right.
  - apply Hne. left.
  - apply Hne. right. left.
  - apply Hne. do 2 right. left.
Qed.

(** Usernames the pattern accepts and rejects. *)
Example isValidEmail_examples :
  isValidEmail (Some "alice@example.com") = true ∧
  isValidEmail (Some "alice") = false ∧
  isValidEmail (Some "alice@example") = false ∧
  isValidEmail (Some "al ice@example.com") = false ∧
  isValidEmail (Some "a@b@example.com") = false ∧
  isValidEmail (Some "@example.com") = false ∧
  isValidEmail None = false.
Proof. repeat split; reflexivity. Qed.

(** ** What the writing routes hand to [writeData] *)

Lemma list_ok_nil : list_ok [].
Proof. split; [cbn; lia|constructor]. Qed.

Lemma at_rest_lookup (data : Database) (u : string) :
  at_rest data → list_ok (or_empty (data !! u)).
Proof.
  intros H. destruct (data !! u) as [cities|] eqn:Hl; [by eapply H|apply list_ok_nil].
Qed.

Lemma at_rest_store (u : string) (cities : list City) (data : Database) :
  at_rest data → list_ok cities → at_rest (store u cities data).
Proof.
  intros Hdata Hc k l. unfold store.
  rewrite !lookup_insert. repeat case_decide; try (by intros [= <-]).
  apply Hdata.
Qed.

Lemma city_ok_capped (city : City) : city_ok (capped city).
Proof. split; cbn; rewrite length_first_n; lia. Qed.

Lemma city_ok_set_attractions (l : list string) (city : City) :
  (length l ≤ 5)%nat → city_ok city → city_ok (set_attractions l city).
Proof. intros Hl [_ Hr]. by split. Qed.

Lemma city_ok_set_restaurants (l : list string) (city : City) :
  (length l ≤ 5)%nat → city_ok city → city_ok (set_restaurants l city).
Proof. intros Hl [Ha _]. by split. Qed.

Lemma list_ok_filter (p : City → bool) (cities : list City) :
  list_ok cities → list_ok (JS.filter p cities).
Proof.
  intros [Hlen Hall]. split.
  - pose proof (length_filter_le p cities). lia.
  - rewrite Forall_forall in Hall. apply Forall_forall.
    intros y [_ Hy]%elem_of_filter. by apply Hall.
Qed.

Lemma list_ok_mutate_found (p : City → bool) (f : City → City) (cities : list City) :
  list_ok cities → (∀ x, x ∈ cities → city_ok x → city_ok (f x)) →
  list_ok (mutate_found p f cities).
Proof.
  intros [Hlen Hall] Hf. split; [by rewrite length_mutate_found|].
  rewrite Forall_forall in Hall. apply Forall_forall. intros y Hy.
  apply elem_of_mutate_found in Hy as [Hy|(x & Hx & _ & ->)]; [by apply Hall|].
  apply Hf; [done|by apply Hall].
Qed.

Lemma list_ok_set_index (cities : list City) (i : Z) (city : City) :
  list_ok cities → city_ok city → list_ok (JS.set_index cities i city).
Proof.
  intros [Hlen Hall] Hc. unfold JS.set_index. split; [by rewrite length_insert|].
  by apply Forall_insert.
Qed.

Lemma list_ok_push (cities : list City) (city : City) :
  (length cities < 10)%nat → Forall city_ok cities → city_ok city →
  list_ok (JS.push cities city).
Proof.
  intros Hlen Hall Hc. unfold JS.push. split.
  - rewrite length_app. cbn. lia.
  - apply Forall_app. split; [done|]. by constructor.
Qed.

Lemma length_push_or_keep (l : list string) (x : string) (b : bool) :
  (length l < 5)%nat → (length (if b then JS.push l x else l) ≤ 5)%nat.
Proof. intros Hl. destruct b; unfold JS.push; rewrite ?length_app; cbn; lia. Qed.

(** What a writing route hands to [writeData]: the old object with the
    caller's new list under the caller's name and under [latest]. *)
Lemma handle_written (username : option string) (req : Request)
    (data data' : Database) :
  written (handle default_config username req data) = Some data' →
  ∃ u cities', username = Some u ∧ u ≠ "" ∧ data' = store u cities' data ∧
    (list_ok (or_empty (data !! u)) → list_ok cities').
Proof.
  destruct req as [|city|cityName|cityName a|cityName a|cityName r|cityName r];
    cbn [handle]; [done|..].
  - intros Hw.
    assert (status (response (addOrUpdateCity default_config username city data)) = 200)
      as Hok.
    { revert Hw. unfold addOrUpdateCity.
      repeat (case_match; try done). }
    destruct (addOrUpdateCity_ok_inv _ _ _ Hok) as (u & incoming & -> & Hu & -> & Hn).
    revert Hw. rewrite addOrUpdateCity_named by done. cbv zeta.
    set (cities := or_empty (data !! u)).
    set (idx := JS.findIndex _ cities).
    destruct (Z.eqb_spec idx (-1)) as [He|Hne]; cbn [andb].
    + destruct (Z.geb_spec (Z.of_nat (length cities)) 10) as [|Hlt]; [done|].
      rewrite He. cbn [Z.geb Z.compare written commit]. intros [= <-].
      eexists u, _. split; [done|]. split; [done|]. split; [reflexivity|]. intros [_ Hall].
      apply list_ok_push; [lia|done|apply city_ok_capped].
    + pose proof (findIndex_ge (λ c, JS.strict_eq (name c) (name incoming)) cities).
      fold idx in H. destruct (Z.geb_spec idx 0); [|lia].
      cbn [written commit]. intros [= <-].
      eexists u, _. split; [done|]. split; [done|]. split; [reflexivity|]. intros Hl.
      apply list_ok_set_index; [done|apply city_ok_capped].
  - unfold deleteCity. destruct (JS.truthy username) as [u|] eqn:Hu; [|done].
    apply truthy_inv in Hu as [-> Hu].
    destruct (data !! u) as [cities|] eqn:Hd; [|done]. cbn [written commit].
    intros [= <-]. eexists u, _. split; [done|]. split; [done|]. split; [reflexivity|].
    rewrite ?Hd. apply list_ok_filter.
  - unfold addAttraction. destruct (JS.truthy username) as [u|] eqn:Hu; [|done].
    apply truthy_inv in Hu as [-> Hu].
    destruct (JS.truthy a) as [item|]; [|done].
    set (cities := or_empty (data !! u)).
    destruct (JS.find _ cities) as [city|] eqn:Hf; [|done].
    unfold default_config, getMaxAttractionsPerCity. cbn [maxAttractionsPerCity].
    destruct (Z.geb_spec (Z.of_nat (length (or_empty (attractions city)))) 5)
      as [|Hlt]; [done|].
    cbn [written commit]. intros [= <-]. eexists u, _. split; [done|]. split; [done|]. split; [reflexivity|].
    intros Hl. apply list_ok_mutate_found; [done|]. intros x _.
    apply city_ok_set_attractions, length_push_or_keep. lia.
  - unfold deleteAttraction. destruct (JS.truthy username) as [u|] eqn:Hu; [|done].
    apply truthy_inv in Hu as [-> Hu].
    set (cities := or_empty (data !! u)).
    destruct (JS.find _ cities) as [city|] eqn:Hf; [|done].
    cbn [written commit]. intros [= <-]. eexists u, _. split; [done|]. split; [done|]. split; [reflexivity|].
    intros Hl. apply list_ok_mutate_found; [done|]. intros x _.
    apply city_ok_set_attractions.
    apply find_some in Hf as (i & _ & Hi & _ & _).
    destruct Hl as [_ Hall]. rewrite Forall_forall in Hall.
    destruct (Hall city) as [Ha _]; [by eapply list_elem_of_lookup_2|].
    pose proof (length_filter_le (λ x, negb (JS.strict_eq x a))
                  (or_empty (attractions city))). lia.
  - unfold addRestaurant. destruct (JS.truthy username) as [u|] eqn:Hu; [|done].
    apply truthy_inv in Hu as [-> Hu].
    destruct (JS.truthy r) as [item|]; [|done].
    set (cities := or_empty (data !! u)).
    destruct (JS.find _ cities) as [city|] eqn:Hf; [|done].
    unfold default_config, getMaxRestaurantsPerCity. cbn [maxRestaurantsPerCity].
    destruct (Z.geb_spec (Z.of_nat (length (or_empty (restaurants city)))) 5)
      as [|Hlt]; [done|].
    cbn [written commit]. intros [= <-]. eexists u, _. split; [done|]. split; [done|]. split; [reflexivity|].
    intros Hl. apply list_ok_mutate_found; [done|]. intros x _.
    apply city_ok_set_restaurants, length_push_or_keep. lia.
  - unfold deleteRestaurant. destruct (JS.truthy username) as [u|] eqn:Hu; [|done].
    apply truthy_inv in Hu as [-> Hu].
    set (cities := or_empty (data !! u)).
    destruct (JS.find _ cities) as [city|] eqn:Hf; [|done].
    cbn [written commit]. intros [= <-]. eexists u, _. split; [done|]. split; [done|]. split; [reflexivity|].
    intros Hl. apply list_ok_mutate_found; [done|]. intros x _.
    apply city_ok_set_restaurants.
    apply find_some in Hf as (i & _ & Hi & _ & _).
    destruct Hl as [_ Hall]. rewrite Forall_forall in Hall.
    destruct (Hall city) as [_ Hr]; [by eapply list_elem_of_lookup_2|].
    pose proof (length_filter_le (λ x, negb (JS.strict_eq x r))
                  (or_empty (restaurants city))). lia.
Qed.

(** A writing route that answers 200 has written. *)
Lemma handle_ok_written (username : option string) (req : Request) (data : Database) :
  mutating req = true →
  status (response (handle default_config username req data)) = 200 →
  is_Some (written (handle default_config username req data)).
Proof.
  destruct req; [done|..]; intros _; cbn [handle];
    unfold addOrUpdateCity, deleteCity, addAttraction, deleteAttraction,
      addRestaurant, deleteRestaurant;
    repeat (case_match; try done); by eexists.
Qed.

Lemma run_no_writer (trace : list (option string * Request)) (data : Database) :
  last_writer default_config trace data = None → run default_config trace data = data.
Proof.
  revert data. induction trace as [|[who req] rest IH]; intros data; [done|].
  cbn [last_writer run].
  destruct (last_writer default_config rest _) eqn:Hrest; [done|].
  rewrite (IH _ Hrest). unfold after.
  destruct (written (handle default_config who req data)) as [data'|] eqn:Hw; [|done].
  destruct (handle_written _ _ _ _ Hw) as (u & ? & -> & Hu & _).
  by rewrite (truthy_nonempty u Hu).
Qed.

(** ** JSON text: reading back what was written *)

Lemma string_app_cons (x : ascii) (a b : string) :
  String x a +:+ b = String x (a +:+ b).
Proof. reflexivity. Qed.

Lemma string_app_nil (b : string) : "" +:+ b = b.
Proof. reflexivity. Qed.

Lemma string_app_nil_r (s : string) : s +:+ "" = s.
Proof. induction s as [|c s IH]; [done|]. rewrite string_app_cons. by f_equal. Qed.

Lemma string_app_assoc (a b c : string) : (a +:+ b) +:+ c = a +:+ b +:+ c.
Proof. induction a as [|x a IH]; [done|]. rewrite !string_app_cons. by f_equal. Qed.

Lemma string_length_app (a b : string) :
  String.length (a +:+ b) = (String.length a + String.length b)%nat.
Proof.
  induction a as [|x a IH]; [done|]. rewrite string_app_cons.
  cbn [String.length Nat.add]. by f_equal.
Qed.

Lemma skip_ws_spaces (n : nat) (s : string) :
  JSON.skip_ws (JSON.spaces n +:+ s) = JSON.skip_ws s.
Proof. induction n as [|n IH]; [done|]. exact IH. Qed.

Lemma skip_ws_indent (d : nat) (s : string) :
  JSON.skip_ws (JSON.indent d +:+ s) = JSON.skip_ws s.
Proof. unfold JSON.indent. rewrite string_app_cons. apply skip_ws_spaces. Qed.

Lemma skip_ws_idemp (s : string) : JSON.skip_ws (JSON.skip_ws s) = JSON.skip_ws s.
Proof.
  induction s as [|c s IH]; [done|]. cbn [JSON.skip_ws].
  destruct (JSON.is_ws c) eqn:Hc; [done|]. cbn [JSON.skip_ws]. by rewrite Hc.
Qed.

Lemma skip_ws_token (c : ascii) (s : string) :
  JSON.is_ws c = false → JSON.skip_ws (String c s) = String c s.
Proof. intros Hc. cbn [JSON.skip_ws]. by rewrite Hc. Qed.

Lemma expect_skip_ws (c : ascii) (s : string) :
  JSON.expect c (JSON.skip_ws s) = JSON.expect c s.
Proof. unfold JSON.expect. by rewrite skip_ws_idemp. Qed.

Lemma expect_token (c : ascii) (s : string) :
  JSON.is_ws c = false → JSON.expect c (String c s) = Some s.
Proof.
  intros Hc. unfold JSON.expect. rewrite skip_ws_token by done.
  by rewrite bool_decide_eq_true_2.
Qed.

Lemma expect_other (c c' : ascii) (s : string) :
  JSON.is_ws c' = false → c' ≠ c → JSON.expect c (String c' s) = None.
Proof.
  intros Hc Hne. unfold JSON.expect. rewrite skip_ws_token by done.
  by rewrite bool_decide_eq_false_2.
Qed.

(** Reading back one escaped character. *)
Lemma lex_escape_char (c : ascii) (t : string) :
  JSON.lex_chars (JSON.escape_char c +:+ t) = JSON.cons_char c (JSON.lex_chars t).
Proof.
  destruct c as [[] [] [] [] [] [] [] []]; reflexivity.
Qed.

Lemma lex_escape (s rest : string) :
  JSON.lex_chars (JSON.escape s +:+ String JSON.dquote rest) = Some (s, rest).
Proof.
  induction s as [|c s IH]; [done|]. cbn [JSON.escape].
  by rewrite string_app_assoc, lex_escape_char, IH.
Qed.

Lemma parse_string_print (s rest : string) :
  JSON.parse_string (JSON.print_string s +:+ rest) = Some (s, rest).
Proof.
  unfold JSON.parse_string, JSON.print_string. rewrite string_app_cons.
  rewrite expect_token by done. cbn [mbind option_bind].
  rewrite string_app_assoc. apply lex_escape.
Qed.

Section Blocks.
Context {A : Type}.
Variable item : string → option (A * string).
Variable pr : A → string.
Variables open close : ascii.

Lemma join_tail (d : nat) (x : A) (l : list A) :
  JSON.join ((λ i, JSON.indent (S d) +:+ i) <$> (pr <$> (x :: l)))
    +:+ JSON.indent d +:+ String close ""
  = JSON.indent (S d) +:+ pr x +:+ tail_text pr close d l.
Proof.
  revert x. induction l as [|y l IH]; intros x.
  - cbn [fmap list_fmap JSON.join tail_text]. by rewrite string_app_assoc.
  - change (JSON.join ((λ i, JSON.indent (S d) +:+ i) <$> (pr <$> (x :: y :: l))))
      with ((JSON.indent (S d) +:+ pr x) +:+ "," +:+
            JSON.join ((λ i, JSON.indent (S d) +:+ i) <$> (pr <$> (y :: l)))).
    rewrite !string_app_assoc, IH. cbn [tail_text].
    by rewrite !string_app_cons, string_app_nil.
Qed.

Lemma print_block_cons (d : nat) (x : A) (l : list A) :
  JSON.print_block d open close (pr <$> (x :: l))
  = String open (JSON.indent (S d) +:+ pr x +:+ tail_text pr close d l).
Proof.
  unfold JSON.print_block. cbn [fmap list_fmap].
  rewrite string_app_cons. f_equal. apply (join_tail d x l).
Qed.

Lemma length_tail_text (d : nat) (l : list A) (rest : string) :
  (length l < String.length (tail_text pr close d l +:+ rest))%nat.
Proof.
  induction l as [|x l IH]; cbn [tail_text length].
  - unfold JSON.indent. rewrite !string_app_cons. cbn [String.length]. lia.
  - rewrite string_app_cons. cbn [String.length].
    rewrite !string_app_assoc, string_length_app, string_length_app. lia.
Qed.

(** The parser of an element reads what the printer writes, wherever the
    text goes on, and does not mind white space in front. *)
Hypothesis item_skip_ws : ∀ s, item (JSON.skip_ws s) = item s.
Hypothesis item_print : ∀ x rest, item (pr x +:+ rest) = Some (x, rest).
Hypothesis pr_token : ∀ x, ∃ c t, pr x = String c t ∧ JSON.is_ws c = false ∧ c ≠ close.
Hypothesis open_token : JSON.is_ws open = false.
Hypothesis close_token : JSON.is_ws close = false.
Hypothesis close_not_comma : close ≠ ","%char.

Lemma item_indented (d : nat) (x : A) (rest : string) :
  item (JSON.indent d +:+ pr x +:+ rest) = Some (x, rest).
Proof.
  rewrite <- item_skip_ws, skip_ws_indent, item_skip_ws. apply item_print.
Qed.

Lemma parse_tail_print (d : nat) (l : list A) (rest : string) (fuel : nat) :
  (length l < fuel)%nat →
  JSON.parse_tail item close fuel (tail_text pr close d l +:+ rest) = Some (l, rest).
Proof.
  revert fuel. induction l as [|x l IH]; intros [|fuel] Hfuel; cbn [length] in Hfuel;
    try lia; cbn [JSON.parse_tail tail_text].
  - rewrite string_app_assoc, skip_ws_indent, string_app_cons, string_app_nil.
    rewrite skip_ws_token by done. by rewrite bool_decide_eq_true_2.
  - rewrite string_app_cons, skip_ws_token by done.
    rewrite bool_decide_eq_false_2 by (intros E; by apply close_not_comma).
    rewrite bool_decide_eq_true_2 by done.
    rewrite !string_app_assoc, item_indented. cbn [mbind option_bind].
    rewrite IH by lia. done.
Qed.

Lemma parse_block_print (d : nat) (l : list A) (rest : string) :
  JSON.parse_block item open close (JSON.print_block d open close (pr <$> l) +:+ rest)
  = Some (l, rest).
Proof.
  unfold JSON.parse_block. destruct l as [|x l].
  - cbn [fmap list_fmap JSON.print_block]. rewrite !string_app_cons, string_app_nil.
    rewrite expect_token by done. cbn [mbind option_bind].
    by rewrite expect_token.
  - rewrite print_block_cons, string_app_cons, expect_token by done.
    cbn [mbind option_bind]. rewrite !string_app_assoc.
    destruct (pr_token x) as (c & t & Hpr & Hc & Hne).
    assert (JSON.expect close (JSON.indent (S d) +:+ pr x +:+ tail_text pr close d l +:+ rest)
            = None) as ->.
    { rewrite <- expect_skip_ws, skip_ws_indent, expect_skip_ws.
      rewrite Hpr, string_app_cons. by apply expect_other. }
    rewrite item_indented. cbn [mbind option_bind].
    by rewrite parse_tail_print by apply length_tail_text.
Qed.

End Blocks.

Lemma parse_string_skip_ws (s : string) :
  JSON.parse_string (JSON.skip_ws s) = JSON.parse_string s.
Proof. unfold JSON.parse_string. by rewrite expect_skip_ws. Qed.

Lemma parse_block_skip_ws {A} (item : string → option (A * string))
    (open close : ascii) (s : string) :
  JSON.parse_block item open close (JSON.skip_ws s) = JSON.parse_block item open close s.
Proof. unfold JSON.parse_block. by rewrite expect_skip_ws. Qed.

Lemma parse_null_skip_ws (s : string) :
  JSON.parse_null (JSON.skip_ws s) = JSON.parse_null s.
Proof. unfold JSON.parse_null. by rewrite skip_ws_idemp. Qed.

Lemma print_string_token (s : string) :
  ∃ t, JSON.print_string s = String JSON.dquote t.
Proof. by eexists. Qed.

Lemma print_block_token (d : nat) (open close : ascii) (items : list string) :
  ∃ t, JSON.print_block d open close items = String open t.
Proof. unfold JSON.print_block. destruct items; by eexists. Qed.

Lemma parse_strings_print (d : nat) (l : list string) (rest : string) :
  JSON.parse_block JSON.parse_string "[" "]" (JSON.print_strings d l +:+ rest)
  = Some (l, rest).
Proof.
  unfold JSON.print_strings. apply parse_block_print; try done.
  - apply parse_string_skip_ws.
  - apply parse_string_print.
  - intros s. destruct (print_string_token s) as [t ->]. by eexists _, _.
Qed.

(** A member [key: value], given that the value parser reads [text] as [v]. *)
Lemma parse_member_print {A} (value : string → option (A * string))
    (key text : string) (v : A) (rest : string) :
  (∀ s, value (JSON.skip_ws s) = value s) →
  value (text +:+ rest) = Some (v, rest) →
  JSON.parse_member value (JSON.print_member key text +:+ rest) = Some ((key, v), rest).
Proof.
  intros Hws Hv. unfold JSON.parse_member, JSON.print_member.
  rewrite string_app_assoc, parse_string_print. cbn [mbind option_bind].
  rewrite !string_app_cons, string_app_nil, expect_token by done.
  cbn [mbind option_bind].
  rewrite <- Hws.
  change (JSON.skip_ws (String " " (text +:+ rest))) with (JSON.skip_ws (text +:+ rest)).
  by rewrite Hws, Hv.
Qed.

Lemma parse_member_skip_ws {A} (value : string → option (A * string)) (s : string) :
  JSON.parse_member value (JSON.skip_ws s) = JSON.parse_member value s.
Proof. unfold JSON.parse_member. by rewrite parse_string_skip_ws. Qed.

Lemma print_member_token (key text : string) :
  ∃ t, JSON.print_member key text = String JSON.dquote t.
Proof. unfold JSON.print_member, JSON.print_string. by eexists. Qed.

Lemma parse_field_skip_ws (s : string) :
  JSON.parse_field (JSON.skip_ws s) = JSON.parse_field s.
Proof.
  unfold JSON.parse_field.
  by rewrite parse_string_skip_ws, parse_block_skip_ws, parse_null_skip_ws.
Qed.

Lemma parse_string_other (c : ascii) (t : string) :
  JSON.is_ws c = false → c ≠ JSON.dquote → JSON.parse_string (String c t) = None.
Proof. intros Hc Hne. unfold JSON.parse_string. by rewrite expect_other. Qed.

Lemma parse_field_print (d : nat) (m : string * JSON.Field) (rest : string) :
  JSON.parse_member JSON.parse_field (JSON.print_field d m +:+ rest) = Some (m, rest).
Proof.
  destruct m as [k v]. unfold JSON.print_field. cbn [fst snd].
  apply parse_member_print; [apply parse_field_skip_ws|].
  unfold JSON.parse_field. destruct v as [s|l|].
  - by rewrite parse_string_print.
  - assert (JSON.parse_string (JSON.print_strings d l +:+ rest) = None) as ->.
    { destruct (print_block_token d "[" "]" (JSON.print_string <$> l)) as [t Ht].
      unfold JSON.print_strings. rewrite Ht, string_app_cons.
      by apply parse_string_other. }
    by rewrite parse_strings_print.
  - reflexivity.
Qed.

Lemma city_of_members (c : City) : JSON.city_of (JSON.city_members c) = Some c.
Proof. destruct c as [n [a|] [r|]]; reflexivity. Qed.

Lemma parse_city_skip_ws (s : string) :
  JSON.parse_city (JSON.skip_ws s) = JSON.parse_city s.
Proof. unfold JSON.parse_city. by rewrite parse_block_skip_ws. Qed.

Lemma parse_city_print (d : nat) (c : City) (rest : string) :
  JSON.parse_city (JSON.print_city d c +:+ rest) = Some (c, rest).
Proof.
  unfold JSON.parse_city, JSON.print_city.
  rewrite (parse_block_print (JSON.parse_member JSON.parse_field)
             (JSON.print_field (S d)) "{" "}"); try done.
  - cbn [mbind option_bind]. by rewrite city_of_members.
  - apply parse_member_skip_ws.
  - apply parse_field_print.
  - intros m. destruct (print_member_token m.1
      match m.2 with
      | JSON.FString s => JSON.print_string s
      | JSON.FStrings l => JSON.print_strings (S d) l
      | JSON.FNull => "null"
      end) as [t Ht].
    unfold JSON.print_field. rewrite Ht. by eexists _, _.
Qed.

Lemma parse_cities_skip_ws (s : string) :
  JSON.parse_cities (JSON.skip_ws s) = JSON.parse_cities s.
Proof.
  unfold JSON.parse_cities. by rewrite parse_block_skip_ws, parse_null_skip_ws.
Qed.

Lemma parse_cities_print (d : nat) (l : list City) (rest : string) :
  JSON.parse_cities (JSON.print_cities d l +:+ rest) = Some (Some l, rest).
Proof.
  unfold JSON.parse_cities, JSON.print_cities.
  rewrite (parse_block_print JSON.parse_city (JSON.print_city (S d)) "[" "]");
    try done.
  - apply parse_city_skip_ws.
  - apply parse_city_print.
  - intros c. destruct (print_block_token (S d) "{" "}"
      (JSON.print_field (S (S d)) <$> JSON.city_members c)) as [t Ht].
    unfold JSON.print_city. rewrite Ht. by eexists _, _.
Qed.

Lemma parse_entry_print (m : string * option (list City)) (rest : string) :
  JSON.parse_member JSON.parse_cities (JSON.print_entry m +:+ rest) = Some (m, rest).
Proof.
  destruct m as [k v]. unfold JSON.print_entry. cbn [fst snd].
  apply parse_member_print; [apply parse_cities_skip_ws|].
  destruct v as [l|]; [apply parse_cities_print|reflexivity].
Qed.

(** Assigning the entries of a map, in any order without repetition, to
    the empty object gives the map back. *)
Lemma database_of_entries_aux (l : list (string * list City)) (data : Database) :
  NoDup l.*1 →
  foldl (λ data '(k, v), match v with
                         | Some l => <[k := l]> data
                         | None => delete k data
                         end) data ((λ m, (m.1, Some m.2)) <$> l)
  = list_to_map l ∪ data.
Proof.
  revert data. induction l as [|[k v] l IH]; intros data Hnd.
  - cbn. by rewrite (left_id_L ∅ (∪)).
  - cbn [fmap list_fmap foldl fst snd]. apply NoDup_cons in Hnd as [Hk Hnd].
    rewrite (IH _ Hnd). cbn [list_to_map foldr fst snd].
    rewrite <- insert_union_l. symmetry. apply insert_union_r.
    by apply not_elem_of_list_to_map_1.
Qed.

Lemma database_of_entries (data : Database) :
  JSON.database_of (JSON.entries data) = data.
Proof.
  unfold JSON.database_of, JSON.entries.
  rewrite database_of_entries_aux by apply NoDup_fst_map_to_list.
  by rewrite list_to_map_to_list, (right_id_L ∅ (∪)).
Qed.

Lemma JSON_parse_stringify (data : Database) :
  JSON.parse (JSON.stringify data) = Some data.
Proof.
  unfold JSON.parse, JSON.stringify.
  rewrite <- (string_app_nil_r (JSON.print_block 0 "{" "}" _)).
  rewrite (parse_block_print (JSON.parse_member JSON.parse_cities) JSON.print_entry
             "{" "}"); try done.
  - cbn [mbind option_bind JSON.skip_ws]. by rewrite database_of_entries.
  - apply parse_member_skip_ws.
  - apply parse_entry_print.
  - intros m. destruct (print_member_token m.1
      match m.2 with
      | Some l => JSON.print_cities 1 l
      | None => "null"
      end) as [t Ht].
    unfold JSON.print_entry. rewrite Ht. by eexists _, _.
Qed.

Lemma parse_user_print (d : nat) (u : User) (rest : string) :
  JSON.parse_user (JSON.print_user d u +:+ rest) = Some (u, rest).
Proof.
  unfold JSON.parse_user, JSON.print_user.
  rewrite (parse_block_print (JSON.parse_member JSON.parse_field)
             (JSON.print_field (S d)) "{" "}"); try done.
  - cbn [mbind option_bind]. by destruct u.
  - apply parse_member_skip_ws.
  - apply parse_field_print.
  - intros m. destruct (print_member_token m.1
      match m.2 with
      | JSON.FString s => JSON.print_string s
      | JSON.FStrings l => JSON.print_strings (S d) l
      | JSON.FNull => "null"
      end) as [t Ht].
    unfold JSON.print_field. rewrite Ht. by eexists _, _.
Qed.

Lemma JSON_parse_stringify_users (users : list User) :
  JSON.parse_users (JSON.stringify_users users) = Some users.
Proof.
  unfold JSON.parse_users, JSON.stringify_users.
  rewrite <- (string_app_nil_r (JSON.print_block 0 "[" "]" _)).
  rewrite (parse_block_print JSON.parse_user (JSON.print_user 1) "[" "]"); try done.
  - unfold JSON.parse_user. intros s. by rewrite parse_block_skip_ws.
  - apply parse_user_print.
  - intros u. destruct (print_block_token 1 "{" "}"
      (JSON.print_field 2 <$> JSON.user_members u)) as [t Ht].
    unfold JSON.print_user. rewrite Ht. by eexists _, _.
Qed.

(** ** Persistence: invariants of the data file and the round trip *)

Lemma readData_writeData (data : Database) (fs : FileSystem) :
  readData (writeData data fs) = Some data.
Proof. unfold readData, writeData. cbn [dataFile]. apply JSON_parse_stringify. Qed.

Lemma readUsers_writeUsers (users : list User) (fs : FileSystem) :
  readUsers (writeUsers users fs) = Some users.
Proof.
  unfold readUsers, writeUsers. cbn [usersFile]. apply JSON_parse_stringify_users.
Qed.

(** A route that stops before [readData()] answers without the file. *)
Lemma handle_without_data (cfg : Config) (username : option string) (req : Request)
    (data : Database) :
  reads_data username req = false →
  handle cfg username req data = handle cfg username req ∅ ∧
  written (handle cfg username req data) = None.
Proof.
  destruct req as [|city|cityName|cityName a|cityName a|cityName r|cityName r];
    cbn [reads_data handle]; [done|..];
    unfold addOrUpdateCity, deleteCity, addAttraction, deleteAttraction,
      addRestaurant, deleteRestaurant;
    destruct (JS.truthy username) as [u|]; try done;
    rewrite bool_decide_eq_true_2 by (by eexists); cbn [andb]; try done.
  - destruct city as [c|]; [|done]. cbn [from_option]. by case_bool_decide.
  - destruct (JS.truthy a); [|done]. by rewrite bool_decide_eq_true_2 by (by eexists).
  - destruct (JS.truthy r); [|done]. by rewrite bool_decide_eq_true_2 by (by eexists).
Qed.

(** A served request answers as the handler does on the parsed file, and
    leaves a file that parses to what the handler left. *)
Lemma serve_spec (cfg : Config) (username : option string) (req : Request)
    (fs : FileSystem) (data : Database) :
  readData fs = Some data →
  ∃ fs', serve cfg username req fs = Some (response (handle cfg username req data), fs') ∧
         readData fs' = Some (after (handle cfg username req data) data).
Proof.
  intros Hread. unfold serve, after. destruct (reads_data username req) eqn:Hr.
  - rewrite Hread. cbn [mbind option_bind].
    destruct (written (handle cfg username req data)) as [data'|];
      eexists; (split; [done|]); [apply readData_writeData|done].
  - destruct (handle_without_data cfg username req data Hr) as [<- ->].
    by exists fs.
Qed.

(** C7. Every operation of the city store keeps the at-rest invariant: if
    every key of the stored object maps to at most ten cities, each with at
    most five attractions and five restaurants, the same holds of what the
    operation leaves, in the object it works on and in the data file. *)
Theorem handle_preserves_at_rest (username : option string) (req : Request) :
  (∀ data,
     at_rest data → at_rest (after (handle default_config username req data) data)) ∧
  (∀ fs data r fs',
     readData fs = Some data → at_rest data →
     serve default_config username req fs = Some (r, fs') →
     ∃ data', readData fs' = Some data' ∧ at_rest data').
Proof.
  assert (∀ data, at_rest data →
            at_rest (after (handle default_config username req data) data)) as Hpure.
  { intros data Hdata. unfold after.
    destruct (written (handle default_config username req data)) as [data'|] eqn:Hw;
      [|done].
    destruct (handle_written _ _ _ _ Hw) as (u & cities' & _ & _ & -> & Hok).
    apply at_rest_store; [done|]. by apply Hok, at_rest_lookup. }
  split; [done|].
  intros fs data r fs' Hread Hdata Hserve.
  destruct (serve_spec default_config username req fs data Hread) as (fs1 & Hs & Hr).
  rewrite Hs in Hserve. injection Hserve as _ <-.
  eexists. split; [done|]. by apply Hpure.
Qed.

(** Eve, who has ten cities, replaces one of them by a version with seven
    attractions and seven restaurants. *)
Lemma handle_preserves_at_rest_witness :
  at_rest (after (handle default_config (Some "eve")
                    (PostCity (Some {| name := "City3";
                                       attractions := Some (numbered "A" 7);
                                       restaurants := Some (numbered "R" 7) |}))
                    eve_data) eve_data).
Proof.
  apply (proj1 (handle_preserves_at_rest _ _)).
  apply (bool_decide_unpack _). by vm_compute.
Defined.

(** C8. After a writing operation of user [u] has succeeded, the [latest]
    snapshot handed to [writeData], and read back from the file, is [u]'s
    full stored list; hence, along any sequence of requests, [latest] is the
    stored list of the user whose request wrote last. *)
Theorem latest_is_last_writers_list :
  (∀ username req data,
     mutating req = true →
     status (response (handle default_config username req data)) = 200 →
     ∃ u data' cities,
       username = Some u ∧
       written (handle default_config username req data) = Some data' ∧
       data' !! u = Some cities ∧ data' !! "latest" = Some cities) ∧
  (∀ username req fs r fs',
     mutating req = true →
     serve default_config username req fs = Some (r, fs') → status r = 200 →
     ∃ u data' cities,
       username = Some u ∧ readData fs' = Some data' ∧
       data' !! u = Some cities ∧ data' !! "latest" = Some cities) ∧
  (∀ trace data u,
     last_writer default_config trace data = Some u →
     ∃ cities,
       run default_config trace data !! u = Some cities ∧
       run default_config trace data !! "latest" = Some cities).
Proof.
  assert (∀ username req data,
     mutating req = true →
     status (response (handle default_config username req data)) = 200 →
     ∃ u data' cities,
       username = Some u ∧
       written (handle default_config username req data) = Some data' ∧
       data' !! u = Some cities ∧ data' !! "latest" = Some cities) as Hpure.
  { intros username req data Hmut Hok.
    destruct (handle_ok_written _ _ _ Hmut Hok) as [data' Hw].
    destruct (handle_written _ _ _ _ Hw) as (u & cities' & -> & _ & -> & _).
    exists u, (store u cities' data), cities'.
    split; [done|]. split; [done|].
    split; [apply lookup_store_user|apply lookup_store_latest]. }
  split; [done|]. split.
  - intros username req fs r fs' Hmut Hserve Hok. unfold serve in Hserve.
    destruct (reads_data username req) eqn:Hreads.
    + destruct (readData fs) as [data|] eqn:Hread; [|done].
      cbn [mbind option_bind] in Hserve. injection Hserve as <- <-.
      destruct (Hpure username req data Hmut Hok) as (u & data' & cities & -> & Hw & ?).
      rewrite Hw. exists u, data', cities. split; [done|].
      split; [apply readData_writeData|done].
    + injection Hserve as <- <-.
      destruct (handle_ok_written _ _ _ Hmut Hok) as [data' Hw].
      destruct (handle_without_data default_config username req ∅ Hreads) as [_ Hnone].
      congruence.
  - intros trace. induction trace as [|[who req] rest IH]; intros data u; [done|].
    cbn [last_writer run].
    destruct (last_writer default_config rest _) as [u'|] eqn:Hrest.
    + intros [= ->]. by apply IH.
    + rewrite (run_no_writer _ _ Hrest). unfold after.
      destruct (written (handle default_config who req data)) as [data'|] eqn:Hw;
        [|done].
      destruct (handle_written _ _ _ _ Hw) as (u0 & cities' & -> & Hu0 & -> & _).
      rewrite (truthy_nonempty u0 Hu0). intros [= <-]. exists cities'.
      split; [apply lookup_store_user|apply lookup_store_latest].
Qed.

(** Carol adds Rome, then the Colosseum to it: [latest] is her list, after
    the second request and after the whole sequence. *)
Lemma latest_is_last_writers_list_witness :
  (∃ u data' cities,
     Some "carol" = Some u ∧
     written (handle default_config (Some "carol")
                (PostAttraction "Rome" (Some "Colosseum"))
                {[ "carol" := [bare_city "Rome"] ]}) = Some data' ∧
     data' !! u = Some cities ∧ data' !! "latest" = Some cities) ∧
  (∃ cities,
     run default_config
       [(Some "carol", PostCity (Some (bare_city "Rome")));
        (None, GetCities);
        (Some "carol", PostAttraction "Rome" (Some "Colosseum"))] ∅ !! "carol"
     = Some cities ∧
     run default_config
       [(Some "carol", PostCity (Some (bare_city "Rome")));
        (None, GetCities);
        (Some "carol", PostAttraction "Rome" (Some "Colosseum"))] ∅ !! "latest"
     = Some cities).
Proof.
  split.
  - apply (proj1 latest_is_last_writers_list); reflexivity.
  - apply (proj2 (proj2 latest_is_last_writers_list)). reflexivity.
Defined.

(** C9. Round trip through the data file: after any database has been
    written, the file read again, before or after a restart of the server,
    is that database, and [GET /] answers from it, for every username, what
    [getUserCities] gives on the database itself. *)
Theorem persistence_round_trip (cfg : Config) (data : Database) (fs : FileSystem)
    (username : option string) :
  readData (restart (writeData data fs)) = Some data ∧
  serve cfg username GetCities (restart (writeData data fs))
  = Some (ok (BodyCities (getUserCities cfg data username)),
          restart (writeData data fs)) ∧
  serve cfg username GetCities (restart (writeData data fs))
  = serve cfg username GetCities (writeData data fs).
Proof.
  split; [apply readData_writeData|]. split; [|done].
  unfold serve. cbn [reads_data]. unfold restart.
  by rewrite readData_writeData.
Qed.

(** Bob's list, written and read back. *)
Example persistence_round_trip_bob :
  serve default_config (Some "bob") GetCities
    (restart (writeData bob_data {| dataFile := None; usersFile := None |}))
  = Some (ok (BodyCities [bare_city "London"]),
          writeData bob_data {| dataFile := None; usersFile := None |}).
Proof. vm_compute. reflexivity. Qed.

(** A missing file reads as the default object, an empty object as empty. *)
Example readData_examples :
  readData {| dataFile := None; usersFile := None |} = Some {[ "cities" := [] ]} ∧
  readData {| dataFile := Some "{}"; usersFile := None |} = Some ∅ ∧
  readData {| dataFile := Some "{ not json"; usersFile := None |} = None.
Proof. repeat split; vm_compute; reflexivity. Qed.

(** An object with a member of another type, or without a member the
    record needs, is neither a city nor a user record. *)
Example members_of_another_shape :
  JSON.city_of [("name", JSON.FString "Rome"); ("attractions", JSON.FString "abc")] = None ∧
  JSON.city_of [("name", JSON.FString "Rome"); ("country", JSON.FString "Italy")] = None ∧
  JSON.city_of [("attractions", JSON.FStrings [])] = None ∧
  JSON.city_of [("name", JSON.FString "Rome")]
  = Some {| name := "Rome"; attractions := None; restaurants := None |} ∧
  JSON.user_of [("username", JSON.FString "a@b.c")] = None ∧
  JSON.user_of [("username", JSON.FString "a@b.c"); ("password", JSON.FNull)] = None.
Proof. repeat split; reflexivity. Qed.

(** ** The scenarios of [city.test.js], replayed on the file

    Each test starts from a data file that holds [{}]. *)

Definition fresh : FileSystem := {| dataFile := Some "{}"; usersFile := None |}.

(** "returns empty for guest". *)
Example test_guest_empty :
  serve default_config None GetCities fresh = Some (ok (BodyCities []), fresh).
Proof. vm_compute. reflexivity. Qed.

(** "adds a city for a user". *)
Example test_adds_city :
  (λ served, (served.1, readData served.2 ≫= (.!! "alice")))
    <$> serve default_config (Some "alice") (PostCity (Some (bare_city "Paris"))) fresh
  = Some (ok (BodyCity (bare_city "Paris")), Some [bare_city "Paris"]).
Proof. vm_compute. reflexivity. Qed.

(** "enforces city limit (10 per user)": ten times 200, then 400. *)
Example test_city_limit :
  fst <$> serve_all default_config
            ((λ n, (Some "eve", PostCity (Some (bare_city n)))) <$> numbered "City" 11)
            fresh
  = Some [200; 200; 200; 200; 200; 200; 200; 200; 200; 200; 400].
Proof. vm_compute. reflexivity. Qed.

(** "enforces attraction limit (5 per city)": five times 200, then 400. *)
Example test_attraction_limit :
  fst <$> serve_all default_config
            ((λ a, (Some "frank", PostAttraction "Rome" (Some a)))
               <$> numbered "Attraction" 6)
            (writeData {[ "frank" := [bare_city "Rome"];
                          "latest" := [bare_city "Rome"] ]} fresh)
  = Some [200; 200; 200; 200; 200; 400].
Proof. vm_compute. reflexivity. Qed.

(** "enforces restaurant limit (5 per city)". *)
Example test_restaurant_limit :
  fst <$> serve_all default_config
            ((λ r, (Some "gina", PostRestaurant "Berlin" (Some r)))
               <$> numbered "Restaurant" 6)
            (writeData {[ "gina" := [bare_city "Berlin"];
                          "latest" := [bare_city "Berlin"] ]} fresh)
  = Some [200; 200; 200; 200; 200; 400].
Proof. vm_compute. reflexivity. Qed.

(** "GET returns the last 10 cities, not the first 10". *)
Example test_last_ten :
  (λ r, match body r.1 with BodyCities l => name <$> l | _ => [] end)
    <$> serve default_config (Some "hank") GetCities (writeData hank_data fresh)
  = Some ["City5"; "City6"; "City7"; "City8"; "City9";
          "City10"; "City11"; "City12"; "City13"; "City14"].
Proof. vm_compute. reflexivity. Qed.

(** * Further properties of the routes *)

(** ** What every writing route does *)

(** For any limits: a route that writes stores the caller's new list under
    the caller's name and under [latest], and touches nothing else. *)
Lemma handle_written_store (cfg : Config) (username : option string) (req : Request)
    (data data' : Database) :
  written (handle cfg username req data) = Some data' →
  status (response (handle cfg username req data)) = 200 ∧
  ∃ u cities', username = Some u ∧ u ≠ "" ∧ data' = store u cities' data.
Proof.
  destruct req as [|city|cityName|cityName a|cityName a|cityName r|cityName r];
    cbn [handle]; [done|..];
    unfold addOrUpdateCity, deleteCity, addAttraction, deleteAttraction,
      addRestaurant, deleteRestaurant;
    (destruct (JS.truthy username) as [u|] eqn:Hu; [|done]);
    apply truthy_inv in Hu as [-> Hu];
    repeat (case_match; try done); cbn [written commit response ok status];
    intros [= <-]; (split; [done|]); by eexists u, _.
Qed.

(** The other way round: a writing route that answers 200 has written. *)
Lemma handle_ok_writes (cfg : Config) (username : option string) (req : Request)
    (data : Database) :
  mutating req = true →
  status (response (handle cfg username req data)) = 200 →
  is_Some (written (handle cfg username req data)).
Proof.
  destruct req; [done|..]; intros _; cbn [handle];
    unfold addOrUpdateCity, deleteCity, addAttraction, deleteAttraction,
      addRestaurant, deleteRestaurant;
    repeat (case_match; try done); by eexists.
Qed.

(** ** Deleting attractions and restaurants *)

Lemma filter_other_items (item : string) (l : list string) :
  JS.filter (λ x, negb (JS.strict_eq x item)) l = base.filter (λ x, x ≠ item) l.
Proof.
  rewrite filter_spec. apply list_filter_iff. intros x. unfold JS.strict_eq.
  rewrite negb_true_iff. apply bool_decide_eq_false.
Qed.

Lemma filter_absent_item (item : string) (l : list string) :
  item ∉ l → base.filter (λ x, x ≠ item) l = l.
Proof.
  intros Hout. induction l as [|x l IH]; [done|].
  rewrite filter_cons, decide_True.
  - f_equal. apply IH. intros Hin. apply Hout. by right.
  - intros ->. apply Hout. left.
Qed.

(** The proof is the same for both arrays, up to the names. *)
Ltac del_item_proof del :=
  unfold del_item_outcome; intros cfg u cityName item data Hu;
  set (cities := or_empty (data !! u));
  set (named := λ c : City, JS.strict_eq (name c) cityName);
  assert (∀ c, name c = cityName → named c = true) as Hyes
    by (intros c Hc; unfold named, JS.strict_eq; by apply bool_decide_eq_true_2);
  assert (∀ c, name c ≠ cityName → named c = false) as Hno
    by (intros c Hc; unfold named, JS.strict_eq; by apply bool_decide_eq_false_2);
  unfold del; rewrite (truthy_nonempty u Hu); fold cities; fold named; split;
  [ intros Hnone; rewrite (find_none named cities); [done|];
    intros c Hc; by apply Hno, Hnone
  | intros i city Hi Hname Hfirst;
    assert (∀ j c, (j < i)%nat → cities !! j = Some c → named c = false) as Hb
      by (intros j c Hj Hc; by eapply Hno, Hfirst);
    rewrite (find_first named cities i city Hi (Hyes _ Hname) Hb);
    rewrite (mutate_found_first named _ cities i city Hi (Hyes _ Hname) Hb);
    by rewrite filter_other_items ].

Lemma deleteAttraction_deleteRestaurant_outcome :
  del_item_outcome deleteAttraction attractions set_attractions ∧
  del_item_outcome deleteRestaurant restaurants set_restaurants.
Proof.
  split.
  - del_item_proof deleteAttraction.
  - del_item_proof deleteRestaurant.
Qed.

(** From the equation on the outcome to what is seen of it. *)
Ltac del_item_seen Houtcome :=
  unfold del_item_spec; intros cfg u cityName item data Hu;
  destruct (Houtcome cfg u cityName item data Hu) as [Hnone Hcity];
  split;
  [ intros Hn; rewrite (Hnone Hn); apply respond_refuses
  | intros i city Hi Hname Hfirst; rewrite (Hcity i city Hi Hname Hfirst);
    eexists; split; [apply commit_replies|];
    split; [apply commit_writes|];
    split; [done|]; split; [done|]; split; [done|]; split;
    [ cbn; intros Hin; apply list_elem_of_filter in Hin as [Hne _]; by apply Hne
    | intros Hout; cbn; f_equal; by apply filter_absent_item ] ].

(** X1. [deleteAttraction] and [deleteRestaurant]: without a city of that
    name in the caller's list the answer is 404 "City not found" and
    nothing is written.  Otherwise the answer is 200 with the changed city,
    and a list is written that has this city at the position of the first
    city of that name and is as before elsewhere; the changed city has the
    old name and the old other array, and its array is the old one without
    any occurrence of the item, the other items in their order (so the
    item is not in it, and an item that was not there leaves the array as
    it was).  No limit is consulted; the written list is stored under the
    caller's name and under [latest], and no other key changes. *)
Theorem deleteAttraction_deleteRestaurant_spec :
  del_item_spec deleteAttraction attractions restaurants ∧
  del_item_spec deleteRestaurant restaurants attractions.
Proof.
  split.
  - del_item_seen (proj1 deleteAttraction_deleteRestaurant_outcome).
  - del_item_seen (proj2 deleteAttraction_deleteRestaurant_outcome).
Qed.

(** Frank removes one of the five attractions of Rome. *)
Lemma deleteAttraction_deleteRestaurant_spec_witness :
  ∃ city',
    replies (deleteAttraction default_config (Some "frank") "Rome" "Attraction2"
               frank_data) 200 (BodyCity city') ∧
    writes (deleteAttraction default_config (Some "frank") "Rome" "Attraction2"
              frank_data) "frank" [city'] frank_data ∧
    name city' = "Rome" ∧
    restaurants city' = Some [] ∧
    attractions city'
    = Some ["Attraction0"; "Attraction1"; "Attraction3"; "Attraction4"] ∧
    ("Attraction2" ∉ or_empty (attractions city')) ∧
    (("Attraction2" ∉ or_empty (attractions rome_full)) →
       attractions city' = Some (or_empty (attractions rome_full))).
Proof.
  refine (proj2 (proj1 deleteAttraction_deleteRestaurant_spec
            default_config "frank" "Rome" "Attraction2" frank_data _)
            0%nat rome_full _ _ _).
  - done.
  - reflexivity.
  - reflexivity.
  - intros j c Hj. lia.
Defined.

(** ** Who may write, and when *)

(** X2. Without a signed-in caller (no session, or an empty username in
    it) each of the six writing routes answers 401 "Login required",
    whatever the request and the stored data, hands nothing to [writeData]
    and leaves the data file as it is, without reading it.  [GET /] asks
    for no login: from a data file that holds a data object it answers 200
    with the guest's listing, the one of [latest], and leaves the file as
    it is. *)
Theorem login_required (cfg : Config) (username : option string) (req : Request) :
  JS.truthy username = None →
  (mutating req = true →
     (∀ data, handle cfg username req data = respond NotAuthenticated) ∧
     (∀ data, refuses (handle cfg username req data) 401 "Login required") ∧
     (∀ fs, serve cfg username req fs = Some (NotAuthenticated, fs))) ∧
  (∀ fs data,
     readData fs = Some data →
     serve cfg username GetCities fs
     = Some ({| status := 200; body := BodyCities (getUserCities cfg data None) |}, fs)).
Proof.
  intros Hu. split.
  - intros Hmut.
    assert (∀ data, handle cfg username req data = respond NotAuthenticated) as Hpure.
    { intros data. destruct req; [done|..]; cbn [handle];
        unfold addOrUpdateCity, deleteCity, addAttraction, deleteAttraction,
          addRestaurant, deleteRestaurant; by rewrite Hu. }
    split; [done|]. split; [intros data; rewrite Hpure; apply respond_refuses|].
    intros fs. unfold serve.
    assert (reads_data username req = false) as ->.
    { destruct req; [done|..]; cbn [reads_data]; rewrite Hu;
        by rewrite bool_decide_eq_false_2 by (by intros [? ?]). }
    by rewrite Hpure.
  - intros fs data Hread. unfold serve. cbn [reads_data]. rewrite Hread.
    cbn [mbind option_bind handle listCities respond response written ok].
    do 3 f_equal. unfold getUserCities. by rewrite Hu.
Qed.

(** A guest's delete is refused without the file being read; a guest's
    listing of Bob's data is Bob's list, which is [latest]. *)
Lemma login_required_witness :
  serve default_config None (DeleteCity "London")
    {| dataFile := Some "no JSON at all"; usersFile := None |}
  = Some (NotAuthenticated, {| dataFile := Some "no JSON at all"; usersFile := None |}) ∧
  serve default_config None GetCities
    (writeData bob_data {| dataFile := None; usersFile := None |})
  = Some ({| status := 200; body := BodyCities [bare_city "London"] |},
          writeData bob_data {| dataFile := None; usersFile := None |}).
Proof.
  split.
  - exact (proj2 (proj2 (proj1 (login_required default_config None (DeleteCity "London")
                                  eq_refl) eq_refl)) _).
  - refine (proj2 (login_required default_config None GetCities eq_refl) _ bob_data _).
    apply readData_writeData.
Defined.

(** X3. A route writes the data file exactly when it answers 200: every
    refused request (400, 401, 404) leaves the file as it was, and every
    accepted request of a writing route rewrites it. *)
Theorem writes_iff_ok (cfg : Config) (username : option string) (req : Request) :
  (∀ data,
     is_Some (written (handle cfg username req data)) ↔
     mutating req = true ∧ status (response (handle cfg username req data)) = 200) ∧
  (∀ fs r fs',
     serve cfg username req fs = Some (r, fs') → status r ≠ 200 → fs' = fs).
Proof.
  assert (∀ data,
     is_Some (written (handle cfg username req data)) ↔
     mutating req = true ∧ status (response (handle cfg username req data)) = 200)
    as Hpure.
  { intros data. split.
    - intros [data' Hw]. split; [by destruct req|].
      by destruct (handle_written_store _ _ _ _ _ Hw) as [? _].
    - intros [Hmut Hok]. by apply handle_ok_writes. }
  split; [done|]. intros fs r fs' Hserve Hbad. unfold serve in Hserve.
  destruct (reads_data username req).
  - destruct (readData fs) as [data|]; [|done]. cbn [mbind option_bind] in Hserve.
    injection Hserve as <- <-.
    destruct (written (handle cfg username req data)) as [data'|] eqn:Hw; [|done].
    destruct (handle_written_store _ _ _ _ _ Hw) as [Hok _]. done.
  - by injection Hserve as <- <-.
Qed.

(** Bob deletes his only city: the route writes, since it answers 200. *)
Lemma writes_iff_ok_witness :
  is_Some (written (handle default_config (Some "bob") (DeleteCity "London") bob_data)).
Proof.
  apply (proj1 (writes_iff_ok default_config (Some "bob") (DeleteCity "London"))).
  split; reflexivity.
Defined.

(** ** One user's requests and the other users' lists *)

(** X4. A request of user [u] changes no stored entry but [u]'s own and
    [latest]: every other key of the data object keeps its list, and
    another user who has a list is shown the same cities as before. *)
Theorem other_users_untouched (cfg : Config) (username : option string)
    (req : Request) (data data' : Database) :
  written (handle cfg username req data) = Some data' →
  ∀ k, Some k ≠ username → k ≠ "latest" →
    data' !! k = data !! k ∧
    (k ≠ "" → is_Some (data !! k) →
       ∀ cfg', getUserCities cfg' data' (Some k) = getUserCities cfg' data (Some k)).
Proof.
  intros Hw k Hk Hl.
  destruct (handle_written_store _ _ _ _ _ Hw) as (_ & u & cities' & -> & Hu & ->).
  assert (store u cities' data !! k = data !! k) as Hsame
    by (apply lookup_store_other; [congruence|done]).
  split; [done|]. intros Hne [l Hl'] cfg'. unfold getUserCities.
  rewrite (truthy_nonempty k Hne). cbn [mbind option_bind].
  by rewrite Hsame, Hl'.
Qed.

(** Eve's request leaves Bob's list alone. *)
Lemma other_users_untouched_witness :
  store "eve" [bare_city "Oslo"] bob_data !! "bob" = bob_data !! "bob".
Proof.
  refine (proj1 (other_users_untouched default_config (Some "eve")
                   (PostCity (Some (bare_city "Oslo"))) bob_data _ _ "bob" _ _));
    [reflexivity|done|done].
Defined.

(** ** The listing under other limits *)

Lemma slice_all {A} (l : list A) : JS.slice l 0 None = l.
Proof.
  unfold JS.slice, JS.rel_index. cbn [from_option].
  destruct (Z.ltb_spec 0 0) as [?|_]; [lia|].
  assert (Z.to_nat (Z.min 0 (Z.of_nat (length l))) = 0%nat) as -> by lia.
  rewrite drop_0. apply take_ge. lia.
Qed.

Lemma last_n_all {A} (n : nat) (l : list A) : (length l ≤ n)%nat → last_n n l = l.
Proof.
  intros Hlen. unfold last_n. by replace (length l - n)%nat with 0%nat by lia.
Qed.

Lemma getUserCities_selected (cfg : Config) (data : Database) (username : option string) :
  getUserCities cfg data username =
  (λ city,
     {| name := name city;
        attractions := Some (JS.slice (or_empty (attractions city))
                               (- getMaxAttractionsPerCity cfg) None);
        restaurants := Some (JS.slice (or_empty (restaurants city))
                               (- getMaxRestaurantsPerCity cfg) None) |})
  <$> JS.slice (selected data username) (- getMaxCitiesPerUser cfg) None.
Proof.
  unfold getUserCities, selected.
  by destruct (JS.truthy username ≫= (λ u, data !! u)), (data !! "latest").
Qed.

(** X5. Under any configuration with positive limits (the only ones
    [update-config.js] writes) the listing is the last [maxCitiesPerUser]
    cities of the caller's list, or of [latest], each with the last
    [maxAttractionsPerCity] attractions and [maxRestaurantsPerCity]
    restaurants; so it never exceeds any of the three limits. *)
Theorem listing_within_limits (cfg : Config) (data : Database)
    (username : option string) :
  0 < getMaxCitiesPerUser cfg → 0 < getMaxAttractionsPerCity cfg →
  0 < getMaxRestaurantsPerCity cfg →
  getUserCities cfg data username
  = shown cfg <$> last_n (Z.to_nat (getMaxCitiesPerUser cfg)) (selected data username) ∧
  Z.of_nat (length (getUserCities cfg data username)) ≤ getMaxCitiesPerUser cfg ∧
  (∀ c, c ∈ getUserCities cfg data username →
     Z.of_nat (length (or_empty (attractions c))) ≤ getMaxAttractionsPerCity cfg ∧
     Z.of_nat (length (or_empty (restaurants c))) ≤ getMaxRestaurantsPerCity cfg).
Proof.
  intros Hc Ha Hr.
  assert (getUserCities cfg data username
          = shown cfg <$> last_n (Z.to_nat (getMaxCitiesPerUser cfg))
                            (selected data username)) as Heq.
  { rewrite getUserCities_selected, slice_last by done.
    apply list_fmap_ext. intros _ c _. unfold shown. by rewrite !slice_last. }
  split; [done|]. rewrite Heq. split.
  - rewrite length_fmap, length_last_n. lia.
  - intros c (c0 & -> & _)%list_elem_of_fmap. unfold shown. cbn.
    rewrite !length_last_n. lia.
Qed.

(** Fifteen stored cities under a limit of twelve. *)
Lemma listing_within_limits_witness :
  Z.of_nat (length (getUserCities
                      {| maxCitiesPerUser := 12; maxAttractionsPerCity := 3;
                         maxRestaurantsPerCity := 3 |} hank_data (Some "hank"))) ≤ 12.
Proof.
  refine (proj1 (proj2 (listing_within_limits
            {| maxCitiesPerUser := 12; maxAttractionsPerCity := 3;
               maxRestaurantsPerCity := 3 |} hank_data (Some "hank") _ _ _)));
    reflexivity.
Defined.

(** X6. A limit of 0 in the configuration is no limit for the listing:
    [slice(-0)] is [slice(0)], so [getUserCities] then shows every stored
    city with all its attractions and restaurants; [addOrUpdateCity], which
    compares lengths, refuses every new city under the same limit. *)
Theorem zero_limit_lists_everything (cfg : Config) (data : Database) :
  getMaxCitiesPerUser cfg = 0 → getMaxAttractionsPerCity cfg = 0 →
  getMaxRestaurantsPerCity cfg = 0 →
  (∀ username, getUserCities cfg data username = filled <$> selected data username) ∧
  (∀ u city, u ≠ "" → name city ≠ "" →
     (∀ c, c ∈ or_empty (data !! u) → name c ≠ name city) →
     addOrUpdateCity cfg (Some u) (Some city) data = respond (CityLimitReached cfg)).
Proof.
  intros Hc Ha Hr. split.
  - intros username. rewrite getUserCities_selected, Hc, Ha, Hr. cbn [Z.opp].
    rewrite slice_all. apply list_fmap_ext. intros _ c _. unfold filled.
    by rewrite !slice_all.
  - intros u city Hu Hn Hfresh. unfold addOrUpdateCity.
    rewrite (truthy_nonempty u Hu), bool_decide_eq_false_2 by done.
    assert (JS.findIndex (λ c, JS.strict_eq (name c) (name city))
              (or_empty (data !! u)) = -1) as ->.
    { apply findIndex_none. intros c Hin. unfold JS.strict_eq.
      apply bool_decide_eq_false_2. by apply Hfresh. }
    rewrite Hc. cbn [Z.eqb andb].
    by destruct (Z.geb_spec (Z.of_nat (length (or_empty (data !! u)))) 0); [|lia].
Qed.

(** All fifteen of hank's cities, each with its seven attractions. *)
Lemma zero_limit_lists_everything_witness :
  getUserCities {| maxCitiesPerUser := 0; maxAttractionsPerCity := 0;
                   maxRestaurantsPerCity := 0 |} hank_data (Some "hank")
  = filled <$> selected hank_data (Some "hank").
Proof.
  refine (proj1 (zero_limit_lists_everything
            {| maxCitiesPerUser := 0; maxAttractionsPerCity := 0;
               maxRestaurantsPerCity := 0 |} hank_data _ _ _) (Some "hank"));
    reflexivity.
Defined.

(** ** Data that respects the limits *)

Lemma list_ok_selected (data : Database) (username : option string) :
  at_rest data → list_ok (selected data username).
Proof.
  intros Hdata. unfold selected.
  destruct (JS.truthy username) as [u|]; cbn [mbind option_bind].
  - destruct (data !! u) as [l|] eqn:Hl; [by eapply Hdata|by apply at_rest_lookup].
  - by apply at_rest_lookup.
Qed.

(** X7. On data that respects the limits the read-time truncation cuts
    nothing: [getUserCities] returns the stored list (the caller's, else
    [latest]) city for city, with every stored attraction and restaurant,
    a missing array shown as an empty one. *)
Theorem listing_of_data_at_rest (data : Database) (username : option string) :
  at_rest data →
  getUserCities default_config data username = filled <$> selected data username.
Proof.
  intros Hdata. destruct (list_ok_selected data username Hdata) as [Hlen Hall].
  rewrite getUserCities_default.
  replace (match JS.truthy username ≫= (λ u, data !! u) with
           | Some l => l
           | None => or_empty (data !! "latest")
           end) with (selected data username) by done.
  rewrite last_n_all by done.
  apply list_fmap_ext. intros i c Hc. rewrite Forall_forall in Hall.
  destruct (Hall c) as [Ha Hr]; [by eapply list_elem_of_lookup_2|].
  unfold displayed, filled. by rewrite !last_n_all.
Qed.

Lemma listing_of_data_at_rest_witness :
  getUserCities default_config frank_data (Some "frank") = [rome_full].
Proof.
  rewrite (listing_of_data_at_rest frank_data (Some "frank")); [reflexivity|].
  apply (bool_decide_unpack _). by vm_compute.
Defined.

Lemma after_keeps_at_rest (username : option string) (req : Request) (data : Database) :
  at_rest data → at_rest (after (handle default_config username req data) data).
Proof.
  intros Hdata. unfold after.
  destruct (written (handle default_config username req data)) as [data'|] eqn:Hw;
    [|done].
  destruct (handle_written _ _ _ _ Hw) as (u & cities' & _ & _ & -> & Hok).
  apply at_rest_store; [done|]. by apply Hok, at_rest_lookup.
Qed.

(** X8. Whatever requests are served one after the other, by whichever
    callers, data that respects the limits keeps respecting them; in
    particular every state reached from an empty or a missing data file
    does, and its listings show the stored lists in full. *)
Theorem requests_keep_limits (trace : list (option string * Request)) :
  (∀ data, at_rest data → at_rest (run default_config trace data)) ∧
  at_rest (run default_config trace ∅) ∧
  at_rest (run default_config trace {[ "cities" := [] ]}) ∧
  (∀ username,
     getUserCities default_config (run default_config trace ∅) username
     = filled <$> selected (run default_config trace ∅) username).
Proof.
  assert (∀ data, at_rest data → at_rest (run default_config trace data)) as Hrun.
  { induction trace as [|[who req] rest IH]; intros data Hdata; [done|].
    cbn [run]. by apply IH, after_keeps_at_rest. }
  assert (at_rest (∅ : Database)) as Hempty
    by (intros k cities Hk; by rewrite lookup_empty in Hk).
  split; [done|]. split; [by apply Hrun|]. split.
  - apply Hrun. intros k cities Hk. apply lookup_singleton_Some in Hk as [_ <-].
    apply list_ok_nil.
  - intros username. by apply listing_of_data_at_rest, Hrun.
Qed.

(** Eve, who has ten cities, asks for eleven more. *)
Lemma requests_keep_limits_witness :
  at_rest (run default_config
             ((λ n, (Some "eve", PostCity (Some (bare_city n)))) <$> numbered "City" 11)
             eve_data).
Proof.
  apply (proj1 (requests_keep_limits _)).
  apply (bool_decide_unpack _). by vm_compute.
Defined.

(** ** City names are keys *)

Lemma names_filter (p : City → bool) (cities : list City) :
  NoDup (name <$> cities) → NoDup (name <$> JS.filter p cities).
Proof.
  induction cities as [|x l IH]; [done|]. rewrite fmap_cons.
  intros [Hx Hl]%NoDup_cons. cbn [JS.filter]. destruct (p x); [|by apply IH].
  rewrite fmap_cons. apply NoDup_cons. split; [|by apply IH].
  intros (y & Hy & [_ Hin]%elem_of_filter)%list_elem_of_fmap.
  apply Hx. apply list_elem_of_fmap. by exists y.
Qed.

Lemma names_mutate_found (p : City → bool) (f : City → City) (cities : list City) :
  (∀ x, name (f x) = name x) →
  name <$> mutate_found p f cities = name <$> cities.
Proof.
  intros Hf. induction cities as [|x l IH]; [done|]. cbn [mutate_found].
  destruct (p x); rewrite !fmap_cons; [by rewrite Hf|by rewrite IH].
Qed.

Lemma names_set_index (cities : list City) (i : nat) (old new : City) :
  cities !! i = Some old → name new = name old →
  name <$> JS.set_index cities (Z.of_nat i) new = name <$> cities.
Proof.
  intros Hi Hn. unfold JS.set_index. rewrite Nat2Z.id, list_fmap_insert, Hn.
  apply list_insert_id. by rewrite list_lookup_fmap, Hi.
Qed.

(** What a writing route stores has the names it had, but for a city
    added under a new name or cities deleted. *)
Lemma handle_written_names (cfg : Config) (username : option string) (req : Request)
    (data data' : Database) :
  written (handle cfg username req data) = Some data' →
  ∃ u cities', username = Some u ∧ data' = store u cities' data ∧
    (NoDup (name <$> or_empty (data !! u)) → NoDup (name <$> cities')).
Proof.
  destruct req as [|city|cityName|cityName a|cityName a|cityName r|cityName r];
    cbn [handle]; [done|..].
  - unfold addOrUpdateCity. destruct (JS.truthy username) as [u|] eqn:Hu; [|done].
    apply truthy_inv in Hu as [-> Hu]. destruct city as [city|]; [|done].
    case_bool_decide; [done|].
    set (cities := or_empty (data !! u)).
    set (p := λ c, JS.strict_eq (name c) (name city)).
    destruct (Z.eqb_spec (JS.findIndex p cities) (-1)) as [He|Hne]; cbn [andb].
    + destruct (Z.of_nat (length cities) >=? getMaxCitiesPerUser cfg); [done|].
      rewrite He. cbn [Z.geb Z.compare written commit]. intros [= <-].
      eexists u, _. split; [done|]. split; [done|]. intros Hnd.
      unfold JS.push. rewrite fmap_app. apply NoDup_app. split; [done|].
      split; [|apply NoDup_singleton].
      intros n (c & -> & Hc)%list_elem_of_fmap [= Hn]%list_elem_of_singleton.
      pose proof (proj1 (findIndex_none p cities) He c Hc) as Hc'.
      unfold p, JS.strict_eq in Hc'. by rewrite bool_decide_eq_true_2 in Hc'.
    + destruct (findIndex_found p cities Hne) as (i & old & Hi & Hold & Hp & _).
      rewrite Hi. destruct (Z.geb_spec (Z.of_nat i) 0); [|lia].
      cbn [written commit]. intros [= <-].
      eexists u, _. split; [done|]. split; [done|]. intros Hnd.
      rewrite (names_set_index cities i old); [done..|].
      unfold p, JS.strict_eq in Hp. by apply bool_decide_eq_true_1 in Hp.
  - unfold deleteCity. destruct (JS.truthy username) as [u|] eqn:Hu; [|done].
    apply truthy_inv in Hu as [-> Hu].
    destruct (data !! u) as [cities|] eqn:Hd; [|done]. cbn [written commit].
    intros [= <-]. eexists u, _. split; [done|]. split; [done|].
    rewrite Hd. apply names_filter.
  - unfold addAttraction. destruct (JS.truthy username) as [u|] eqn:Hu; [|done].
    apply truthy_inv in Hu as [-> Hu]. destruct (JS.truthy a); [|done].
    destruct (JS.find _ _); [|done]. case_match; [done|].
    cbn [written commit]. intros [= <-]. eexists u, _. split; [done|].
    split; [done|]. by rewrite names_mutate_found.
  - unfold deleteAttraction. destruct (JS.truthy username) as [u|] eqn:Hu; [|done].
    apply truthy_inv in Hu as [-> Hu]. destruct (JS.find _ _); [|done].
    cbn [written commit]. intros [= <-]. eexists u, _. split; [done|].
    split; [done|]. by rewrite names_mutate_found.
  - unfold addRestaurant. destruct (JS.truthy username) as [u|] eqn:Hu; [|done].
    apply truthy_inv in Hu as [-> Hu]. destruct (JS.truthy r); [|done].
    destruct (JS.find _ _); [|done]. case_match; [done|].
    cbn [written commit]. intros [= <-]. eexists u, _. split; [done|].
    split; [done|]. by rewrite names_mutate_found.
  - unfold deleteRestaurant. destruct (JS.truthy username) as [u|] eqn:Hu; [|done].
    apply truthy_inv in Hu as [-> Hu]. destruct (JS.find _ _); [|done].
    cbn [written commit]. intros [= <-]. eexists u, _. split; [done|].
    split; [done|]. by rewrite names_mutate_found.
Qed.

(** X9. Within one stored list a city name occurs once: if that holds of
    every list of the data object, it holds after any request, under any
    limits; so it holds of every state reached from an empty data file. *)
Theorem requests_keep_names_unique (cfg : Config) :
  (∀ username req data,
     names_unique data → names_unique (after (handle cfg username req data) data)) ∧
  (∀ trace data, names_unique data → names_unique (run cfg trace data)) ∧
  (∀ trace, names_unique (run cfg trace ∅)).
Proof.
  assert (∀ username req data,
     names_unique data → names_unique (after (handle cfg username req data) data))
    as Hstep.
  { intros username req data Hdata. unfold after.
    destruct (written (handle cfg username req data)) as [data'|] eqn:Hw; [|done].
    destruct (handle_written_names _ _ _ _ _ Hw) as (u & cities' & _ & -> & Hnd).
    assert (NoDup (name <$> cities')) as Hnew.
    { apply Hnd. destruct (data !! u) as [l|] eqn:Hl; [by eapply Hdata|].
      apply NoDup_nil_2. }
    change (names_unique (store u cities' data)).
    intros k l. unfold store. rewrite !lookup_insert.
    repeat case_decide; try (by intros [= <-]). apply Hdata. }
  assert (∀ trace data, names_unique data → names_unique (run cfg trace data))
    as Hrun.
  { intros trace. induction trace as [|[who req] rest IH]; intros data Hdata; [done|].
    cbn [run]. by apply IH, Hstep. }
  split; [done|]. split; [done|]. intros trace. apply Hrun.
  intros k l Hk. by rewrite lookup_empty in Hk.
Qed.

Lemma requests_keep_names_unique_witness :
  names_unique (after (handle default_config (Some "bob")
                         (PostCity (Some (bare_city "London"))) bob_data) bob_data).
Proof.
  apply (proj1 (requests_keep_names_unique default_config)).
  intros k l Hk. unfold bob_data in Hk.
  apply lookup_insert_Some in Hk as [[_ <-]|[_ Hk]].
  - apply NoDup_singleton.
  - apply lookup_singleton_Some in Hk as [_ <-]. apply NoDup_singleton.
Defined.

(** ** Serving a request twice *)

Lemma store_store (u : string) (l l' : list City) (data : Database) :
  store u l' (store u l data) = store u l' data.
Proof.
  apply map_eq. intros k. unfold store. rewrite !lookup_insert.
  by repeat case_decide.
Qed.

Lemma or_empty_store (u : string) (l : list City) (data : Database) :
  or_empty (store u l data !! u) = l.
Proof. by rewrite lookup_store_user. Qed.

Lemma findIndex_push {A} (p : A → bool) (l : list A) (x : A) :
  JS.findIndex p l = -1 → p x = true →
  JS.findIndex p (JS.push l x) = Z.of_nat (length l).
Proof.
  intros Hnone Hp. unfold JS.push.
  apply (findIndex_some p (l ++ [x]) (length l) x).
  - by rewrite lookup_app_r, Nat.sub_diag.
  - done.
  - intros j y Hj Hy. rewrite lookup_app_l in Hy by done.
    apply (proj1 (findIndex_none p l) Hnone). by eapply list_elem_of_lookup_2.
Qed.

Lemma findIndex_insert {A} (p : A → bool) (l : list A) (i : nat) (old x : A) :
  l !! i = Some old →
  (∀ j y, (j < i)%nat → l !! j = Some y → p y = false) → p x = true →
  JS.findIndex p (<[i := x]> l) = Z.of_nat i.
Proof.
  intros Hi Hb Hp. apply (findIndex_some p (<[i := x]> l) i x).
  - apply list_lookup_insert_eq. by eapply lookup_lt_Some.
  - done.
  - intros j y Hj Hy. rewrite list_lookup_insert_ne in Hy by lia. by eapply Hb.
Qed.

Lemma filter_filter {A} (p : A → bool) (l : list A) :
  JS.filter p (JS.filter p l) = JS.filter p l.
Proof.
  apply filter_id. intros x Hx. by apply elem_of_filter in Hx as [? _].
Qed.

Lemma find_mutate_found {A} (p : A → bool) (f : A → A) (l : list A) :
  (∀ x, p x = true → p (f x) = true) →
  JS.find p (mutate_found p f l) = f <$> JS.find p l.
Proof.
  intros Hf. induction l as [|x l IH]; [done|]. cbn [mutate_found JS.find].
  destruct (p x) eqn:Hp; cbn [JS.find].
  - by rewrite (Hf x Hp).
  - by rewrite Hp.
Qed.

Lemma mutate_found_twice {A} (p : A → bool) (f g : A → A) (l : list A) :
  (∀ x, p x = true → p (f x) = true) →
  mutate_found p g (mutate_found p f l) = mutate_found p (λ x, g (f x)) l.
Proof.
  intros Hf. induction l as [|x l IH]; [done|]. cbn [mutate_found].
  destruct (p x) eqn:Hp; cbn [mutate_found].
  - by rewrite (Hf x Hp).
  - by rewrite Hp, IH.
Qed.

Lemma mutate_found_ext {A} (p : A → bool) (f g : A → A) (l : list A) :
  (∀ x, JS.find p l = Some x → f x = g x) → mutate_found p f l = mutate_found p g l.
Proof.
  induction l as [|x l IH]; [done|]. cbn [mutate_found JS.find]. intros H.
  destruct (p x); [by rewrite H|]. by rewrite IH.
Qed.

(** The list a second, identical request stores is the list the first one
    stored. *)
Lemma handle_twice_written (cfg : Config) (username : option string) (req : Request)
    (data data1 data2 : Database) :
  written (handle cfg username req data) = Some data1 →
  written (handle cfg username req data1) = Some data2 →
  data2 = data1.
Proof.
  destruct req as [|city|cityName|cityName a|cityName a|cityName r|cityName r];
    cbn [handle]; [done|..].
  - unfold addOrUpdateCity. destruct (JS.truthy username) as [u|] eqn:Hu; [|done].
    destruct city as [city|]; [|done]. case_bool_decide; [done|].
    set (c' := cap_city cfg city).
    set (p := λ c, JS.strict_eq (name c) (name city)).
    assert (p c' = true) as Hpc
      by (unfold p, JS.strict_eq; by apply bool_decide_eq_true_2).
    set (cities := or_empty (data !! u)).
    destruct (Z.eqb_spec (JS.findIndex p cities) (-1)) as [He|Hne]; cbn [andb].
    + destruct (Z.of_nat (length cities) >=? getMaxCitiesPerUser cfg); [done|].
      rewrite He. cbn [Z.geb Z.compare written commit]. intros [= <-].
      rewrite or_empty_store, (findIndex_push p cities c' He Hpc).
      destruct (Z.eqb_spec (Z.of_nat (length cities)) (-1)); [lia|]. cbn [andb].
      destruct (Z.geb_spec (Z.of_nat (length cities)) 0); [|lia].
      cbn [written commit]. intros [= <-]. rewrite store_store. f_equal.
      unfold JS.set_index, JS.push. rewrite Nat2Z.id.
      apply list_insert_id. by rewrite lookup_app_r, Nat.sub_diag.
    + destruct (findIndex_found p cities Hne) as (i & old & Hi & Hold & Hp & Hb).
      rewrite Hi. destruct (Z.geb_spec (Z.of_nat i) 0); [|lia].
      assert (JS.set_index cities (Z.of_nat i) c' = <[i := c']> cities) as ->
        by (unfold JS.set_index; by rewrite Nat2Z.id).
      cbn [written commit]. intros [= <-]. rewrite or_empty_store.
      rewrite (findIndex_insert p cities i old c' Hold Hb Hpc).
      destruct (Z.eqb_spec (Z.of_nat i) (-1)); [lia|]. cbn [andb].
      destruct (Z.geb_spec (Z.of_nat i) 0); [|lia].
      cbn [written commit]. intros [= <-]. rewrite store_store. f_equal.
      unfold JS.set_index. rewrite Nat2Z.id. apply list_insert_insert_eq.
  - unfold deleteCity. destruct (JS.truthy username) as [u|] eqn:Hu; [|done].
    destruct (data !! u) as [cities|]; [|done]. cbn [written commit].
    intros [= <-]. rewrite lookup_store_user. cbn [written commit].
    intros [= <-]. by rewrite store_store, filter_filter.
  - unfold addAttraction. destruct (JS.truthy username) as [u|] eqn:Hu; [|done].
    destruct (JS.truthy a) as [item|]; [|done].
    set (cities := or_empty (data !! u)).
    set (named := λ c : City, JS.strict_eq (name c) cityName).
    destruct (JS.find named cities) as [city|] eqn:Hf; [|done].
    case_match; [done|]. set (list := or_empty (attractions city)).
    set (list' := if JS.findIndex (λ x, JS.strict_eq x item) list =? -1
                  then JS.push list item else list).
    cbn [written commit]. intros [= <-]. rewrite or_empty_store.
    rewrite find_mutate_found, Hf by done. cbn [fmap option_fmap option_map].
    change (or_empty (attractions (set_attractions list' city))) with list'.
    case_match; [done|].
    assert ((JS.findIndex (λ x, JS.strict_eq x item) list' =? -1) = false) as ->.
    { apply Z.eqb_neq. rewrite findIndex_absent. intros Hout. apply Hout.
      unfold list'. destruct (Z.eqb_spec (JS.findIndex (λ x, JS.strict_eq x item) list) (-1))
        as [He|Hne].
      - unfold JS.push. apply elem_of_app. right. left.
      - rewrite findIndex_absent in Hne. by apply dec_stable. }
    cbn [written commit]. intros [= <-]. rewrite store_store. f_equal.
    rewrite mutate_found_twice by done. by apply mutate_found_ext.
  - unfold deleteAttraction. destruct (JS.truthy username) as [u|] eqn:Hu; [|done].
    set (cities := or_empty (data !! u)).
    set (named := λ c : City, JS.strict_eq (name c) cityName).
    destruct (JS.find named cities) as [city|] eqn:Hf; [|done].
    cbn [written commit]. intros [= <-]. rewrite or_empty_store.
    rewrite find_mutate_found, Hf by done. cbn [fmap option_fmap option_map].
    cbn [written commit]. intros [= <-]. rewrite store_store. f_equal.
    rewrite mutate_found_twice by done. apply mutate_found_ext.
    intros x _. cbn [set_attractions attractions or_empty default from_option id].
    by rewrite filter_filter.
  - unfold addRestaurant. destruct (JS.truthy username) as [u|] eqn:Hu; [|done].
    destruct (JS.truthy r) as [item|]; [|done].
    set (cities := or_empty (data !! u)).
    set (named := λ c : City, JS.strict_eq (name c) cityName).
    destruct (JS.find named cities) as [city|] eqn:Hf; [|done].
    case_match; [done|]. set (list := or_empty (restaurants city)).
    set (list' := if JS.findIndex (λ x, JS.strict_eq x item) list =? -1
                  then JS.push list item else list).
    cbn [written commit]. intros [= <-]. rewrite or_empty_store.
    rewrite find_mutate_found, Hf by done. cbn [fmap option_fmap option_map].
    change (or_empty (restaurants (set_restaurants list' city))) with list'.
    case_match; [done|].
    assert ((JS.findIndex (λ x, JS.strict_eq x item) list' =? -1) = false) as ->.
    { apply Z.eqb_neq. rewrite findIndex_absent. intros Hout. apply Hout.
      unfold list'. destruct (Z.eqb_spec (JS.findIndex (λ x, JS.strict_eq x item) list) (-1))
        as [He|Hne].
      - unfold JS.push. apply elem_of_app. right. left.
      - rewrite findIndex_absent in Hne. by apply dec_stable. }
    cbn [written commit]. intros [= <-]. rewrite store_store. f_equal.
    rewrite mutate_found_twice by done. by apply mutate_found_ext.
  - unfold deleteRestaurant. destruct (JS.truthy username) as [u|] eqn:Hu; [|done].
    set (cities := or_empty (data !! u)).
    set (named := λ c : City, JS.strict_eq (name c) cityName).
    destruct (JS.find named cities) as [city|] eqn:Hf; [|done].
    cbn [written commit]. intros [= <-]. rewrite or_empty_store.
    rewrite find_mutate_found, Hf by done. cbn [fmap option_fmap option_map].
    cbn [written commit]. intros [= <-]. rewrite store_store. f_equal.
    rewrite mutate_found_twice by done. apply mutate_found_ext.
    intros x _. cbn [set_restaurants restaurants or_empty default from_option id].
    by rewrite filter_filter.
Qed.

(** X10. Every route of the city store is idempotent on the stored data:
    serving the same request of the same caller a second time leaves the
    data object exactly as the first time left it (the second answer may
    differ: a fifth attraction is added with 200 and refused with 400 when
    sent again, the list being full by then). *)
Theorem requests_are_idempotent (cfg : Config) (username : option string)
    (req : Request) (data : Database) :
  after (handle cfg username req (after (handle cfg username req data) data))
        (after (handle cfg username req data) data)
  = after (handle cfg username req data) data ∧
  run cfg [(username, req); (username, req)] data = run cfg [(username, req)] data.
Proof.
  assert (after (handle cfg username req (after (handle cfg username req data) data))
                (after (handle cfg username req data) data)
          = after (handle cfg username req data) data) as Hiter.
  { assert (∀ d, written (handle cfg username req data) = Some d →
                after (handle cfg username req data) data = d) as Hsome
      by (intros d Hd; unfold after; by rewrite Hd).
    assert (written (handle cfg username req data) = None →
            after (handle cfg username req data) data = data) as Hnone
      by (intros Hd; unfold after; by rewrite Hd).
    destruct (written (handle cfg username req data)) as [data1|] eqn:Hw1.
    - rewrite (Hsome data1 eq_refl). unfold after.
      destruct (written (handle cfg username req data1)) as [data2|] eqn:Hw2; [|done].
      cbn [default from_option id]. by eapply handle_twice_written.
    - rewrite (Hnone eq_refl). unfold after. by rewrite Hw1. }
  split; [done|]. cbn [run]. exact Hiter.
Qed.

(** The fifth attraction of Rome, sent twice: 200, then 400, one copy. *)
Example addAttraction_twice :
  let five := {| name := "Rome"; attractions := Some (numbered "A" 5);
                 restaurants := Some [] |} in
  let data : Database :=
    {[ "frank" := [{| name := "Rome"; attractions := Some (numbered "A" 4);
                      restaurants := Some [] |}] ]} in
  let once := after (addAttraction default_config (Some "frank") "Rome" (Some "A4") data)
                data in
  response (addAttraction default_config (Some "frank") "Rome" (Some "A4") data)
  = ok (BodyCity five) ∧
  addAttraction default_config (Some "frank") "Rome" (Some "A4") once
  = respond (AttractionLimitReached default_config) ∧
  once !! "frank" = Some [five].
Proof. repeat split; vm_compute; reflexivity. Qed.

(** ** Adding an item and taking it away again *)

Lemma filter_appended (item : string) (l : list string) :
  item ∉ l → JS.filter (λ x, negb (JS.strict_eq x item)) (JS.push l item) = l.
Proof.
  intros Hout. rewrite filter_other_items. unfold JS.push.
  rewrite filter_app, filter_absent_item by done.
  rewrite filter_cons, decide_False by (by intros ?). by rewrite app_nil_r.
Qed.

Ltac add_del_proof add del items set_id :=
  unfold add_del_outcome;
  intros cfg u cityName item data i city Hu Hitem Hi Hname Hfirst Hroom Hout;
  set (cities := or_empty (data !! u)) in *;
  set (list := or_empty (items city)) in *;
  set (named := λ c : City, JS.strict_eq (name c) cityName);
  assert (named city = true) as Hyes
    by (unfold named, JS.strict_eq; by apply bool_decide_eq_true_2);
  assert (∀ j c, (j < i)%nat → cities !! j = Some c → named c = false) as Hb
    by (intros j c Hj Hc; unfold named, JS.strict_eq;
        apply bool_decide_eq_false_2; by eapply Hfirst);
  unfold add, del;
  rewrite (truthy_nonempty u Hu), (truthy_nonempty item Hitem);
  fold cities; fold named;
  rewrite (find_first named cities i city Hi Hyes Hb); fold list;
  destruct (Z.geb_spec (Z.of_nat (length list)) (getMaxAttractionsPerCity cfg));
    [unfold getMaxAttractionsPerCity in *; try lia|];
  try (destruct (Z.geb_spec (Z.of_nat (length list)) (getMaxRestaurantsPerCity cfg));
       [unfold getMaxRestaurantsPerCity in *; lia|]);
  rewrite (proj2 (findIndex_absent item list) Hout), Z.eqb_refl;
  eexists; (split; [reflexivity|]);
  rewrite or_empty_store, find_mutate_found by done;
  rewrite (find_first named cities i city Hi Hyes Hb);
  cbn [fmap option_fmap option_map]; cbn [attractions restaurants set_attractions
    set_restaurants or_empty default from_option id];
  rewrite filter_appended by done; rewrite store_store;
  rewrite mutate_found_twice by done;
  rewrite (mutate_found_first named _ cities i city Hi Hyes Hb);
  cbn [attractions restaurants set_attractions set_restaurants name];
  reflexivity.

Lemma add_then_delete_outcome :
  add_del_outcome addAttraction deleteAttraction attractions set_attractions
    getMaxAttractionsPerCity ∧
  add_del_outcome addRestaurant deleteRestaurant restaurants set_restaurants
    getMaxRestaurantsPerCity.
Proof.
  split.
  - add_del_proof addAttraction deleteAttraction attractions set_attractions.
  - add_del_proof addRestaurant deleteRestaurant restaurants set_restaurants.
Qed.

(** From the equation on the outcome to what is seen of it. *)
Ltac add_del_seen Houtcome :=
  unfold add_del_spec;
  intros cfg u cityName item data i city Hu Hitem Hi Hname Hfirst Hroom Hout;
  destruct (Houtcome cfg u cityName item data i city Hu Hitem Hi Hname Hfirst Hroom Hout)
    as (data1 & Hadd & Hdel);
  exists data1; eexists; split; [exact Hadd|]; rewrite Hdel;
  split; [apply commit_replies|]; split; [apply commit_writes|];
  split; [done|]; split; [done|]; split; [done|];
  intros [l Hl];
  assert (∀ c : City, c = city → c = city ∧
            <[i := c]> (or_empty (data !! u)) = or_empty (data !! u)) as Hsame
    by (intros c ->; split; [done|by apply list_insert_id]);
  apply Hsame; destruct city; cbn in *; by subst.

(** X11. An attraction (or restaurant) that was not there, added to a city
    with room for it and deleted again, gives the caller's list back: the
    delete answers 200 and writes, under the caller's name and under
    [latest], a list that is the old one at every position but the city's,
    where the city has its old name, its old other array and its old array
    of this kind.  The one difference: a city that was stored without the
    array now has an empty one; when the array was there, the city and the
    whole list are exactly as they were. *)
Theorem add_then_delete_item :
  add_del_spec addAttraction deleteAttraction attractions restaurants
    getMaxAttractionsPerCity ∧
  add_del_spec addRestaurant deleteRestaurant restaurants attractions
    getMaxRestaurantsPerCity.
Proof.
  split.
  - add_del_seen (proj1 add_then_delete_outcome).
  - add_del_seen (proj2 add_then_delete_outcome).
Qed.

(** Bob adds Big Ben to London and deletes it again. *)
Lemma add_then_delete_item_witness :
  ∃ data1 city',
    written (addAttraction default_config (Some "bob") "London" (Some "Big Ben") bob_data)
    = Some data1 ∧
    replies (deleteAttraction default_config (Some "bob") "London" "Big Ben" data1)
      200 (BodyCity city') ∧
    writes (deleteAttraction default_config (Some "bob") "London" "Big Ben" data1)
      "bob" [city'] bob_data ∧
    name city' = "London" ∧
    attractions city' = Some [] ∧
    restaurants city' = Some [] ∧
    (is_Some (attractions (bare_city "London")) →
       city' = bare_city "London" ∧ [city'] = [bare_city "London"]).
Proof.
  refine (proj1 add_then_delete_item default_config "bob" "London" "Big Ben"
            bob_data 0%nat (bare_city "London") _ _ _ _ _ _ _).
  - done.
  - done.
  - reflexivity.
  - reflexivity.
  - intros j c Hj. lia.
  - vm_compute. reflexivity.
  - apply not_elem_of_nil.
Defined.

(** A city stored without the array comes back with an empty one. *)
Example add_then_delete_missing_array :
  let rome := {| name := "Rome"; attractions := None; restaurants := None |} in
  (λ data1, written (deleteAttraction default_config (Some "ann") "Rome" "Forum" data1))
    <$> written (addAttraction default_config (Some "ann") "Rome" (Some "Forum")
                   {[ "ann" := [rome] ]})
  = Some (Some (store "ann" [{| name := "Rome"; attractions := Some [];
                                restaurants := None |}] {[ "ann" := [rome] ]})).
Proof. vm_compute. reflexivity. Qed.

(** ** What is left of a deleted city *)






(** ** What the email pattern accepts *)

Lemma string_app_eq_nil (s1 s2 : string) : s1 +:+ s2 = "" → s1 = "" ∧ s2 = "".
Proof. destruct s1; [done|]. by rewrite string_app_cons. Qed.

Lemma string_app_eq_cons (s1 s2 s : string) (c : ascii) :
  s1 +:+ s2 = String c s →
  (s1 = "" ∧ s2 = String c s) ∨ ∃ s1', s1 = String c s1' ∧ s = s1' +:+ s2.
Proof.
  destruct s1 as [|c1 s1]; [by left|]. rewrite string_app_cons.
  intros [= -> <-]. right. by exists s1.
Qed.

Lemma nullable_in_language (r : Regex.t) :
  Regex.nullable r = true ↔ in_language r "".
Proof.
  split.
  - induction r as [| |p|r1 IH1 r2 IH2|r1 IH1 r2 IH2|r IH]; cbn [Regex.nullable];
      intros Hn; try done.
    + constructor.
    + apply andb_true_iff in Hn as [H1 H2].
      change "" with ("" +:+ ""). constructor; auto.
    + apply orb_true_iff in Hn as [H|H]; [apply lang_alt_l|apply lang_alt_r]; auto.
    + constructor.
  - intros H. remember "" as s eqn:Hs.
    induction H as [|p c Hp|r1 r2 s1 s2 H1 IH1 H2 IH2|r1 r2 s H IH|r1 r2 s H IH
                   |r|r s1 s2 H1 IH1 H2 IH2]; cbn [Regex.nullable]; try done.
    + apply string_app_eq_nil in Hs as [-> ->]. by rewrite IH1, IH2.
    + by rewrite IH.
    + rewrite IH by done. apply orb_true_r.
Qed.

Lemma deriv_sound (r : Regex.t) (c : ascii) (s : string) :
  in_language (Regex.deriv c r) s → in_language r (String c s).
Proof.
  revert s. induction r as [| |p|r1 IH1 r2 IH2|r1 IH1 r2 IH2|r IH];
    intros s; cbn [Regex.deriv]; intros H.
  - inversion H.
  - inversion H.
  - destruct (p c) eqn:Hp; inversion H; subst. by constructor.
  - assert (in_language (Regex.Seq (Regex.deriv c r1) r2) s →
            in_language (Regex.Seq r1 r2) (String c s)) as Hseq.
    { intros H'. inversion H' as [| |? ? s1 s2 Ha Hb| | | |]; subst.
      rewrite <- string_app_cons. constructor; auto. }
    destruct (Regex.nullable r1) eqn:Hn; [|by apply Hseq].
    inversion H as [| | |? ? ? Ha|? ? ? Hb| |]; subst; [by apply Hseq|].
    rewrite <- (string_app_nil (String c s)). constructor; [|by apply IH2].
    by apply nullable_in_language.
  - inversion H; subst; [apply lang_alt_l|apply lang_alt_r]; auto.
  - inversion H as [| |? ? s1 s2 Ha Hb| | | |]; subst.
    rewrite <- string_app_cons. constructor; auto.
Qed.

Lemma deriv_complete (r : Regex.t) (s0 : string) :
  in_language r s0 → ∀ c s, s0 = String c s → in_language (Regex.deriv c r) s.
Proof.
  induction 1 as [|p c0 Hp|r1 r2 s1 s2 H1 IH1 H2 IH2|r1 r2 s' H IH|r1 r2 s' H IH
                 |r|r s1 s2 H1 IH1 H2 IH2]; intros c s Heq; cbn [Regex.deriv].
  - done.
  - injection Heq as -> <-. rewrite Hp. constructor.
  - apply string_app_eq_cons in Heq as [[-> ->]|(s1' & -> & ->)].
    + rewrite (proj2 (nullable_in_language r1) H1). apply lang_alt_r. by apply IH2.
    + assert (in_language (Regex.Seq (Regex.deriv c r1) r2) (s1' +:+ s2)) as Hseq
        by (constructor; [by apply IH1|done]).
      destruct (Regex.nullable r1); [by apply lang_alt_l|done].
  - apply lang_alt_l. by apply IH.
  - apply lang_alt_r. by apply IH.
  - done.
  - apply string_app_eq_cons in Heq as [[-> ->]|(s1' & -> & ->)].
    + by apply IH2.
    + constructor; [by apply IH1|done].
Qed.

(** The derivative matcher decides the language. *)
Lemma test_in_language (r : Regex.t) (s : string) :
  Regex.test r s = true ↔ in_language r s.
Proof.
  revert r. induction s as [|c s IH]; intros r; cbn [Regex.test].
  - apply nullable_in_language.
  - rewrite IH. split; [apply deriv_sound|].
    intros H. by eapply deriv_complete.
Qed.

Lemma in_language_chr (c : ascii) (s : string) :
  in_language (Regex.Chr c) s ↔ s = String c "".
Proof.
  unfold Regex.Chr. split.
  - intros H. inversion H as [|? c' Hp| | | | |]; subst.
    by apply bool_decide_eq_true in Hp as ->.
  - intros ->. constructor. by apply bool_decide_eq_true.
Qed.

Lemma in_language_star_class (p : ascii → bool) (s : string) :
  in_language (Regex.Star (Regex.Class p)) s ↔ every p s = true.
Proof.
  split.
  - intros H. remember (Regex.Star (Regex.Class p)) as r eqn:Hr.
    induction H as [|? ? ?|? ? ? ? ? ? ? ?|? ? ? ? ?|? ? ? ? ?
                   |r'|r' s1 s2 H1 _ H2 IH2]; try done.
    injection Hr as ->. inversion H1 as [|? c Hp| | | | |]; subst.
    rewrite string_app_cons, string_app_nil. cbn [every].
    by rewrite Hp, IH2.
  - induction s as [|c s IH]; cbn [every]; intros H; [constructor|].
    apply andb_true_iff in H as [Hc Hs].
    change (String c s) with (String c "" +:+ s).
    constructor; [by constructor|by apply IH].
Qed.

Lemma in_language_plus_class (p : ascii → bool) (s : string) :
  in_language (Regex.Plus (Regex.Class p)) s ↔ s ≠ "" ∧ every p s = true.
Proof.
  unfold Regex.Plus. split.
  - intros H. inversion H as [| |? ? s1 s2 H1 H2| | | |]; subst.
    inversion H1 as [|? c Hp| | | | |]; subst.
    rewrite string_app_cons, string_app_nil. split; [done|]. cbn [every].
    rewrite Hp. by apply in_language_star_class.
  - intros [Hne H]. destruct s as [|c s]; [done|]. cbn [every] in H.
    apply andb_true_iff in H as [Hc Hs].
    change (String c s) with (String c "" +:+ s).
    constructor; [by constructor|by apply in_language_star_class].
Qed.

(** X13. [isValidEmail] accepts exactly the strings of the shape
    [a@b.c] whose three parts are non-empty and free of [@] and of white
    space (the parts may themselves contain dots); [undefined] is
    refused. *)
Theorem isValidEmail_spec :
  (∀ s : string,
     isValidEmail (Some s) = true ↔
     ∃ a b c, s = a +:+ "@" +:+ b +:+ "." +:+ c ∧ plain a ∧ plain b ∧ plain c) ∧
  isValidEmail None = false.
Proof.
  split; [|by vm_compute]. intros s.
  unfold isValidEmail, JS.to_string. cbn [from_option id].
  rewrite test_in_language. unfold email_pattern, plain. split.
  - intros H.
    inversion H as [| |? ? a s1 Ha H1| | | |]; subst.
    inversion H1 as [| |? ? at_ s2 Hat H2| | | |]; subst.
    inversion H2 as [| |? ? b s3 Hb H3| | | |]; subst.
    inversion H3 as [| |? ? dot c Hdot Hc| | | |]; subst.
    apply in_language_chr in Hat as ->. apply in_language_chr in Hdot as ->.
    apply in_language_plus_class in Ha, Hb, Hc. by exists a, b, c.
  - intros (a & b & c & -> & Ha & Hb & Hc).
    repeat constructor; try by apply in_language_plus_class.
    all: by apply in_language_chr.
Qed.

(** An address with a dotted domain. *)
Lemma isValidEmail_spec_witness : isValidEmail (Some "ann@mail.example.org") = true.
Proof.
  apply (proj1 isValidEmail_spec).
  exists "ann", "mail.example", "org". by repeat split.
Defined.

(** ** Accounts: who can sign in *)

Lemma find_is_Some {A} (p : A → bool) (l : list A) :
  is_Some (JS.find p l) ↔ ∃ x, x ∈ l ∧ p x = true.
Proof.
  split.
  - intros [x Hx]. apply find_some in Hx as (i & _ & Hi & Hp & _).
    exists x. split; [by eapply list_elem_of_lookup_2|done].
  - intros (x & Hx & Hp). destruct (JS.find p l) eqn:Hf; [by eexists|].
    apply find_findIndex_none in Hf.
    pose proof (proj1 (findIndex_none p l) Hf x Hx). congruence.
Qed.

Lemma find_is_None {A} (p : A → bool) (l : list A) :
  JS.find p l = None ↔ ∀ x, x ∈ l → p x = false.
Proof. by rewrite find_findIndex_none, findIndex_none. Qed.

(** The record [login] looks for. *)
Lemma login_record (email pass : option string) (users : list User) :
  is_Some (JS.find (λ '{| username := u; password := p |},
                      bool_decide (Some u = email) && bool_decide (Some p = pass)) users)
  ↔ ∃ u p, email = Some u ∧ pass = Some p ∧ {| username := u; password := p |} ∈ users.
Proof.
  rewrite find_is_Some. split.
  - intros ([u p] & Hin & Hp). apply andb_true_iff in Hp as [Hu Hpw].
    apply bool_decide_eq_true in Hu as <-. apply bool_decide_eq_true in Hpw as <-.
    by exists u, p.
  - intros (u & p & -> & -> & Hin). exists {| username := u; password := p |}.
    split; [done|]. by rewrite !bool_decide_eq_true_2.
Qed.

Lemma login_ok_iff (email pass : option string) (users : list User) :
  status (user_response (login email pass users)) = 200 ↔
  isValidEmail email = true ∧
  ∃ u p, email = Some u ∧ pass = Some p ∧ {| username := u; password := p |} ∈ users.
Proof.
  rewrite <- login_record. unfold login.
  destruct (isValidEmail email); cbn [negb].
  - destruct (JS.find _ users) eqn:Hf.
    + split; [|done]. intros _. split; [done|by eexists].
    + split; [done|]. by intros [_ [? ?]].
  - split; [done|]. by intros [? _].
Qed.

(** X14. [login] signs the caller in (200) exactly when the username is an
    email address and the users array holds a record with exactly this
    username and this password; it then answers with the username and
    stores it in the session.  A well-formed username without such a record
    gets 401, and [login] never writes the users file. *)
Theorem login_spec (email pass : option string) (users : list User) :
  users_written (login email pass users) = None ∧
  (status (user_response (login email pass users)) = 200 ↔
     isValidEmail email = true ∧
     ∃ u p, email = Some u ∧ pass = Some p ∧
            {| username := u; password := p |} ∈ users) ∧
  (∀ u, email = Some u →
     status (user_response (login email pass users)) = 200 →
     login email pass users = signed_in u) ∧
  (status (user_response (login email pass users)) ≠ 200 →
     session_user (login email pass users) = None ∧
     (isValidEmail email = true →
        login email pass users = user_respond InvalidCredentials)).
Proof.
  split; [|split; [apply login_ok_iff|split]].
  - unfold login. by repeat case_match.
  - intros u ->. unfold login. by repeat case_match.
  - unfold login. destruct (isValidEmail email); cbn [negb]; [|done].
    by destruct (JS.find _ users).
Qed.

(** Ann signs in with her password. *)
Lemma login_spec_witness :
  login (Some "ann@example.org") (Some "secret")
    [{| username := "ann@example.org"; password := "secret" |}]
  = signed_in "ann@example.org".
Proof.
  refine (proj1 (proj2 (proj2 (login_spec (Some "ann@example.org") (Some "secret")
            [{| username := "ann@example.org"; password := "secret" |}])))
            "ann@example.org" _ _); reflexivity.
Defined.

Lemma register_fresh (email pass : option string) (users users' : list User) :
  users_written (register email pass users) = Some users' →
  ∃ u p, email = Some u ∧ pass = Some p ∧ u ≠ "" ∧ p ≠ "" ∧
         isValidEmail (Some u) = true ∧
         users' = users ++ [{| username := u; password := p |}] ∧
         (∀ x, x ∈ users → username x ≠ u) ∧
         register email pass users
         = {| user_response := ok (BodyUser u); users_written := Some users';
              session_user := Some u |}.
Proof.
  unfold register.
  destruct (JS.truthy email) as [u|] eqn:Hu; [|done].
  destruct (JS.truthy pass) as [p|] eqn:Hp; [|done].
  apply truthy_inv in Hu as [-> Hu]. apply truthy_inv in Hp as [-> Hp].
  destruct (isValidEmail (Some u)) eqn:Hv; [|done]. cbn [negb].
  destruct (JS.find _ users) eqn:Hf; [done|]. cbn [users_written].
  intros [= <-]. exists u, p. repeat (split; [done|]). split; [|done].
  intros [u' p'] Hx. cbn [username]. intros ->.
  pose proof (proj1 (find_is_None _ _) Hf _ Hx) as Hno. cbn in Hno.
  unfold JS.strict_eq in Hno. by apply bool_decide_eq_false in Hno.
Qed.

(** X15. After a registration that was accepted, the same username and
    password sign in; the same username with any other password is refused
    with 401; and everyone who could sign in before still can. *)
Theorem register_then_login (email pass : option string) (users users' : list User) :
  users_written (register email pass users) = Some users' →
  ∃ u, email = Some u ∧
    login email pass users' = signed_in u ∧
    (∀ p2, p2 ≠ pass → login email p2 users' = user_respond InvalidCredentials) ∧
    (∀ e2 p2, status (user_response (login e2 p2 users)) = 200 →
              login e2 p2 users' = login e2 p2 users).
Proof.
  intros Hw.
  destruct (register_fresh _ _ _ _ Hw) as (u & p & -> & -> & Hu & Hp & Hv & -> & Hnew & _).
  exists u. split; [done|].
  assert (∀ e2 p2, status (user_response (login e2 p2
              (users ++ [{| username := u; password := p |}]))) = 200 →
            ∃ u2, e2 = Some u2 ∧
              login e2 p2 (users ++ [{| username := u; password := p |}]) = signed_in u2)
    as Hok.
  { intros e2 p2 H200. pose proof H200 as H. apply login_ok_iff in H as [_ (u2 & ? & -> & _)].
    exists u2. split; [done|]. revert H200. unfold login. by repeat case_match. }
  split; [|split].
  - destruct (Hok (Some u) (Some p)) as (? & [= <-] & ->); [|done].
    apply login_ok_iff. split; [done|]. exists u, p. repeat (split; [done|]).
    apply elem_of_app. right. by apply list_elem_of_singleton.
  - intros p2 Hp2. unfold login. rewrite Hv. cbn [negb].
    destruct (JS.find _ _) eqn:Hf; [|done]. exfalso.
    assert (is_Some (JS.find (λ '{| username := u0; password := p0 |},
              bool_decide (Some u0 = Some u) && bool_decide (Some p0 = p2))
              (users ++ [{| username := u; password := p |}]))) as Hsome
      by (by eexists).
    apply login_record in Hsome as (u' & p' & [= <-] & -> & Hin).
    apply elem_of_app in Hin as [Hin|Hin].
    + by apply (Hnew _ Hin).
    + apply list_elem_of_singleton in Hin as [= <-]. done.
  - intros e2 p2 H200. pose proof H200 as H.
    apply login_ok_iff in H as [Hv2 (u2 & q2 & -> & -> & Hin)].
    assert (login (Some u2) (Some q2) users = signed_in u2) as ->
      by (revert H200; unfold login; by repeat case_match).
    destruct (Hok (Some u2) (Some q2)) as (? & [= <-] & ->); [|done].
    apply login_ok_iff. split; [done|]. exists u2, q2. repeat (split; [done|]).
    apply elem_of_app. by left.
Qed.

(** Ann registers on an empty users file; a wrong password is then refused. *)
Lemma register_then_login_witness :
  ∃ u, Some "ann@example.org" = Some u ∧
    login (Some "ann@example.org") (Some "secret")
      [{| username := "ann@example.org"; password := "secret" |}] = signed_in u ∧
    (∀ p2, p2 ≠ Some "secret" →
       login (Some "ann@example.org") p2
         [{| username := "ann@example.org"; password := "secret" |}]
       = user_respond InvalidCredentials) ∧
    (∀ e2 p2, status (user_response (login e2 p2 [])) = 200 →
       login e2 p2 [{| username := "ann@example.org"; password := "secret" |}]
       = login e2 p2 []).
Proof.
  refine (register_then_login (Some "ann@example.org") (Some "secret") []
            [{| username := "ann@example.org"; password := "secret" |}] _).
  reflexivity.
Defined.

(** ** Accounts: what the users file holds *)

Lemma users_after_step (req : UserRequest) (users : list User) :
  users_ok users →
  users_ok (users_after (handle_user req users) users) ∧
  users `prefix_of` users_after (handle_user req users) users.
Proof.
  intros [Hnd Hall]. unfold users_after.
  destruct (users_written (handle_user req users)) as [users'|] eqn:Hw;
    cbn [default from_option id]; [|done].
  destruct req as [email pass|email pass]; cbn [handle_user] in Hw.
  - destruct (register_fresh _ _ _ _ Hw)
      as (u & p & -> & -> & Hu & Hp & Hv & -> & Hnew & _).
    split; [split|by eexists].
    + rewrite fmap_app. apply NoDup_app. split; [done|]. split; [|apply NoDup_singleton].
      intros n Hn Hn'. apply list_elem_of_singleton in Hn'. cbn in Hn'. subst n.
      apply list_elem_of_fmap in Hn as (x & Hx & Hin). by apply (Hnew x Hin).
    + apply Forall_app. split; [done|]. by apply Forall_singleton.
  - revert Hw. unfold login. by repeat case_match.
Qed.

(** X16. Whatever registrations and logins are served, the users array
    keeps one record per username, every stored username is an email
    address, no stored password is empty, and records are only ever
    appended: the array at the start is a prefix of the array at the end. *)
Theorem user_requests_keep_accounts (reqs : list UserRequest) (users : list User) :
  users_ok users →
  users_ok (run_users reqs users) ∧ users `prefix_of` run_users reqs users.
Proof.
  revert users. induction reqs as [|req reqs IH]; intros users Hok; cbn [run_users].
  - done.
  - destruct (users_after_step req users Hok) as [Hok' Hpre].
    destruct (IH _ Hok') as [Hend Hpre']. split; [done|]. by etrans.
Qed.

(** Two registrations of the same address on a missing users file leave one
    record. *)
Lemma user_requests_keep_accounts_witness :
  users_ok (run_users [Register (Some "ann@example.org") (Some "secret");
                       Login (Some "ann@example.org") (Some "secret");
                       Register (Some "ann@example.org") (Some "other")] []) ∧
  [] `prefix_of` run_users [Register (Some "ann@example.org") (Some "secret");
                            Login (Some "ann@example.org") (Some "secret");
                            Register (Some "ann@example.org") (Some "other")] [].
Proof.
  apply user_requests_keep_accounts. split; [apply NoDup_nil_2|apply Forall_nil_2].
Defined.

(** ** The routes on the file and the handlers on the object *)

Lemma serve_users_file (cfg : Config) (username : option string) (req : Request)
    (fs fs' : FileSystem) (r : Response) :
  serve cfg username req fs = Some (r, fs') → usersFile fs' = usersFile fs.
Proof.
  unfold serve. destruct (reads_data username req).
  - destruct (readData fs) as [data|]; [|done]. cbn [mbind option_bind].
    intros [= _ <-]. by destruct (written _).
  - by intros [= _ <-].
Qed.

(** X17. The routes on the file do what the handlers do on the object.
    When the data file is missing or holds a data object (an object whose
    members are arrays of cities, each with a string name and at most the
    two arrays of strings: what the routes themselves write for requests
    that carry strings), every request of any sequence of such requests is
    answered, with the status the handler gives on the data object; the
    file at the end holds the object the handlers leave, so the next
    request finds a data object again; and the users file is not touched.
    A file that holds anything else (no JSON, or a value with members of
    another type) is not covered. *)
Theorem serve_all_run (cfg : Config) (trace : list (option string * Request))
    (fs : FileSystem) (data : Database) :
  readData fs = Some data →
  ∃ fs', serve_all cfg trace fs = Some (answers cfg trace data, fs') ∧
         readData fs' = Some (run cfg trace data) ∧
         usersFile fs' = usersFile fs.
Proof.
  revert fs data. induction trace as [|[who req] rest IH]; intros fs data Hread.
  - by exists fs.
  - cbn [serve_all answers run].
    destruct (serve_spec cfg who req fs data Hread) as (fs1 & Hs & Hread1).
    destruct (IH fs1 _ Hread1) as (fs2 & Hall & Hread2 & Hu).
    exists fs2. rewrite Hs. cbn [mbind option_bind]. rewrite Hall.
    cbn [mbind option_bind]. split; [done|]. split; [done|].
    rewrite Hu. by eapply serve_users_file.
Qed.

(** A server started without a data file: a guest request, a refused one and
    two accepted ones. *)
Lemma serve_all_run_witness :
  ∃ fs', serve_all default_config
           [(None, GetCities); (None, DeleteCity "London");
            (Some "bob", PostCity (Some (bare_city "London")));
            (Some "bob", PostAttraction "London" (Some "Big Ben"))]
           {| dataFile := None; usersFile := None |}
         = Some ([200; 401; 200; 200], fs') ∧
         readData fs'
         = Some (run default_config
                   [(None, GetCities); (None, DeleteCity "London");
                    (Some "bob", PostCity (Some (bare_city "London")));
                    (Some "bob", PostAttraction "London" (Some "Big Ben"))]
                   {[ "cities" := [] ]}) ∧
         usersFile fs' = None.
Proof.
  refine (serve_all_run default_config _ {| dataFile := None; usersFile := None |}
            {[ "cities" := [] ]} _).
  reflexivity.
Defined.

(** ** The server as a whole *)

Lemma readUsers_same (fs fs' : FileSystem) :
  usersFile fs' = usersFile fs → readUsers fs' = readUsers fs.
Proof. unfold readUsers. by intros ->. Qed.

Lemma readData_writeUsers (users : list User) (fs : FileSystem) :
  readData (writeUsers users fs) = readData fs.
Proof. done. Qed.

Lemma user_route_without_users (req : UserRequest) (users : list User) :
  reads_users req = false →
  users_written (handle_user req users) = None ∧
  session_user (handle_user req users) = None ∧
  user_response (handle_user req users) = user_response (handle_user req []).
Proof.
  destruct req as [email pass|email pass]; cbn [reads_users handle_user].
  - unfold register.
    destruct (JS.truthy email) as [u|] eqn:Hu; [|done].
    destruct (JS.truthy pass) as [p|] eqn:Hp; [|done].
    apply truthy_inv in Hu as [-> Hu].
    rewrite !bool_decide_eq_true_2 by (by eexists). cbn [andb]. by intros ->.
  - unfold login. by intros ->.
Qed.

Lemma session_is_account (req : UserRequest) (users : list User) (u : string) :
  session_user (handle_user req users) = Some u →
  u ∈ accounts (users_after (handle_user req users) users).
Proof.
  unfold users_after, accounts. destruct req as [email pass|email pass]; cbn [handle_user].
  - intros Hs.
    destruct (users_written (register email pass users)) as [users'|] eqn:Hw.
    + destruct (register_fresh _ _ _ _ Hw) as (u' & p & _ & _ & _ & _ & _ & -> & _ & Hr).
      rewrite Hr in Hs. injection Hs as ->. cbn [default from_option id].
      rewrite fmap_app. apply elem_of_app. right. by apply list_elem_of_singleton.
    + revert Hs Hw. unfold register. by repeat case_match.
  - intros Hs.
    assert (status (user_response (login email pass users)) = 200) as H200
      by (revert Hs; unfold login; by repeat case_match).
    apply login_ok_iff in H200 as [_ (u' & p & -> & -> & Hin)].
    assert (u = u') as ->
      by (revert Hs; unfold login; repeat case_match; try done; cbn; congruence).
    assert (users_written (login (Some u') (Some p) users) = None) as ->
      by (unfold login; by repeat case_match).
    cbn [default from_option id]. apply list_elem_of_fmap.
    by exists {| username := u'; password := p |}.
Qed.

Lemma step_keeps_server_ok (cfg : Config) (client : nat) (call : Call) (srv : Server) :
  server_ok srv →
  ∃ r srv', step cfg client call srv = Some (r, srv') ∧ server_ok srv'.
Proof.
  intros (users & data & Hru & Hrd & Hok & Hsess & Hkeys).
  destruct call as [req| | |req]; cbn [step].
  - unfold serve_user. destruct (reads_users req) eqn:Hreads.
    + rewrite Hru. cbn [mbind option_bind].
      destruct (users_after_step req users Hok) as [Hok' Hpre].
      pose proof (session_is_account req users) as Hnew.
      set (o := handle_user req users) in *.
      eexists _, _. split; [done|].
      exists (users_after o users), data. cbn [files sessions].
      assert (∀ u, u ∈ accounts users → u ∈ accounts (users_after o users)) as Hmono.
      { intros u Hu. destruct Hpre as [k ->]. unfold accounts.
        rewrite fmap_app. apply elem_of_app. by left. }
      split; [|split; [|split; [done|split]]].
      * unfold users_after. destruct (users_written o); [|done].
        apply readUsers_writeUsers.
      * by destruct (users_written o).
      * intros c u. destruct (session_user o) as [u'|]; [|by eauto].
        destruct (decide (c = client)) as [->|Hne].
        -- rewrite lookup_insert_eq. intros [= <-]. by apply Hnew.
        -- rewrite lookup_insert_ne by done. eauto.
      * intros k Hk. destruct (Hkeys k Hk) as [?|[?|?]]; auto.
    + cbn [mbind option_bind].
      destruct (user_route_without_users req [] Hreads) as (_ & -> & _).
      eexists _, _. split; [done|]. by exists users, data.
  - eexists _, _. split; [done|]. exists users, data. cbn [files sessions].
    repeat (split; [done|]). split; [|done].
    intros c u Hc. apply lookup_delete_Some in Hc as [_ Hc]. eauto.
  - eexists _, _. split; [done|]. by exists users, data.
  - destruct (serve_spec cfg (sessions srv !! client) req (files srv) data Hrd)
      as (fs' & Hs & Hrd').
    rewrite Hs. cbn [mbind option_bind]. eexists _, _. split; [done|].
    exists users, (after (handle cfg (sessions srv !! client) req data) data).
    cbn [files sessions]. split; [|split; [done|split; [done|split; [done|]]]].
    + rewrite <- Hru. apply readUsers_same. by eapply serve_users_file.
    + unfold after.
      destruct (written (handle cfg (sessions srv !! client) req data))
        as [data'|] eqn:Hw; cbn [default from_option id]; [|done].
      destruct (handle_written_store _ _ _ _ _ Hw) as (_ & u & cities' & Hu & _ & ->).
      intros k Hk. unfold store in Hk.
      destruct (decide (k = "latest")) as [->|Hl]; [by left|].
      rewrite lookup_insert_ne in Hk by done.
      destruct (decide (k = u)) as [->|Hne]; [right; right; by eapply Hsess|].
      rewrite lookup_insert_ne in Hk by done. by apply Hkeys.
Qed.

(** X18. A server in order stays in order.  When the users file is missing
    or holds an array of user records, the data file is missing or holds a
    data object, and the sessions belong to accounts, then whatever the
    clients ask, in requests that carry strings, every request is answered
    and the same holds afterwards: both files hold values of these shapes,
    the accounts are in order, every session is the session of an account,
    and every list of the data object belongs to an account (or is
    [latest], or the [cities] of the default object).  A server started
    without files is in order. *)
Theorem server_stays_ok (cfg : Config) (calls : list (nat * Call)) (srv : Server) :
  server_ok srv →
  ∃ codes srv',
    serve_calls cfg calls srv = Some (codes, srv') ∧
    length codes = length calls ∧ server_ok srv'.
Proof.
  revert srv. induction calls as [|[client call] rest IH]; intros srv Hok.
  - by exists [], srv.
  - cbn [serve_calls].
    destruct (step_keeps_server_ok cfg client call srv Hok) as (r & srv1 & -> & Hok1).
    cbn [mbind option_bind].
    destruct (IH srv1 Hok1) as (codes & srv2 & -> & Hlen & Hok2).
    cbn [mbind option_bind]. exists (status r :: codes), srv2.
    split; [done|]. split; [|done]. cbn [length]. by rewrite Hlen.
Qed.

(** A server started without files: Ann registers and adds a city, a second
    client without a session is refused, Ann logs out. *)
Lemma server_stays_ok_witness :
  ∃ codes srv',
    serve_calls default_config
      [(0%nat, UserCall (Register (Some "ann@example.org") (Some "secret")));
       (0%nat, CityCall (PostCity (Some (bare_city "London"))));
       (1%nat, CityCall (DeleteCity "London"));
       (0%nat, LogoutCall);
       (0%nat, MeCall)] new_server = Some (codes, srv') ∧
    length codes = 5%nat ∧ server_ok srv'.
Proof.
  refine (server_stays_ok default_config _ new_server _).
  exists [], {[ "cities" := [] ]}.
  split; [reflexivity|]. split; [reflexivity|].
  split; [split; [apply NoDup_nil_2|apply Forall_nil_2]|].
  split; [intros client u H; cbn [new_server sessions] in H; by rewrite lookup_empty in H|].
  intros k [l Hk]. apply lookup_singleton_Some in Hk as [<- _]. by right; left.
Defined.

Example server_trace :
  fst <$> serve_calls default_config
      [(0%nat, UserCall (Register (Some "ann@example.org") (Some "secret")));
       (0%nat, CityCall (PostCity (Some (bare_city "London"))));
       (1%nat, CityCall (DeleteCity "London"));
       (1%nat, CityCall GetCities);
       (0%nat, LogoutCall);
       (0%nat, MeCall);
       (0%nat, UserCall (Login (Some "ann@example.org") (Some "wrong")));
       (0%nat, UserCall (Login (Some "ann@example.org") (Some "secret")));
       (0%nat, MeCall)] new_server
  = Some [200; 200; 401; 200; 200; 401; 401; 200; 200].
Proof. vm_compute. reflexivity. Qed.

(** ** Accounts on the file *)

Lemma register_ok_written (email pass : option string) (users : list User) :
  status (user_response (register email pass users)) = 200 →
  is_Some (users_written (register email pass users)).
Proof. unfold register. repeat case_match; try done; by eexists. Qed.

(** X19. An account outlives the server process: after a registration
    served from the users file and answered 200, the users file read again
    holds the old records followed by the new one, a login with the same
    username and password served from it after a restart succeeds, and the
    data file is as it was. *)
Theorem account_survives_restart (email pass : option string) (fs fs' : FileSystem)
    (o : UserOutcome) :
  serve_user (Register email pass) fs = Some (o, fs') →
  status (user_response o) = 200 →
  ∃ u p users,
    email = Some u ∧ pass = Some p ∧ readUsers fs = Some users ∧
    readUsers (restart fs') = Some (users ++ [{| username := u; password := p |}]) ∧
    serve_user (Login email pass) (restart fs') = Some (signed_in u, fs') ∧
    dataFile fs' = dataFile fs.
Proof.
  unfold serve_user, restart. destruct (reads_users (Register email pass)) eqn:Hreads.
  - destruct (readUsers fs) as [users|] eqn:Hru; [|done]. cbn [mbind option_bind handle_user].
    intros [= <- <-] H200.
    destruct (register_ok_written _ _ _ H200) as [users' Hw]. rewrite Hw.
    destruct (register_fresh _ _ _ _ Hw) as (u & p & -> & -> & Hu & Hp & Hv & -> & Hnew & _).
    exists u, p, users. repeat (split; [done|]).
    rewrite readUsers_writeUsers. split; [done|]. split; [|done].
    cbn [reads_users]. rewrite Hv. cbn [mbind option_bind handle_user].
    assert (login (Some u) (Some p) (users ++ [{| username := u; password := p |}])
            = signed_in u) as Hlogin.
    { assert (status (user_response (login (Some u) (Some p)
                (users ++ [{| username := u; password := p |}]))) = 200) as Hok.
      { apply login_ok_iff. split; [done|]. exists u, p. repeat (split; [done|]).
        apply elem_of_app. right. by apply list_elem_of_singleton. }
      revert Hok. unfold login. by repeat case_match. }
    by rewrite Hlogin.
  - intros [= <- <-] H200. exfalso. cbn [handle_user] in H200.
    destruct (user_route_without_users (Register email pass) [] Hreads) as (Hw & _).
    cbn [handle_user] in Hw.
    destruct (register_ok_written _ _ _ H200) as [? Hw']. congruence.
Qed.

(** Ann registers on a server without a users file and signs in after a
    restart. *)
Lemma account_survives_restart_witness :
  ∃ u p users,
    Some "ann@example.org" = Some u ∧ Some "secret" = Some p ∧
    readUsers {| dataFile := None; usersFile := None |} = Some users ∧
    readUsers (restart (writeUsers [{| username := "ann@example.org"; password := "secret" |}]
                          {| dataFile := None; usersFile := None |}))
    = Some (users ++ [{| username := u; password := p |}]) ∧
    serve_user (Login (Some "ann@example.org") (Some "secret"))
      (restart (writeUsers [{| username := "ann@example.org"; password := "secret" |}]
                  {| dataFile := None; usersFile := None |}))
    = Some (signed_in u,
            writeUsers [{| username := "ann@example.org"; password := "secret" |}]
              {| dataFile := None; usersFile := None |}) ∧
    dataFile (writeUsers [{| username := "ann@example.org"; password := "secret" |}]
                {| dataFile := None; usersFile := None |}) = None.
Proof.
  refine (account_survives_restart (Some "ann@example.org") (Some "secret")
            {| dataFile := None; usersFile := None |} _ _ _ _).
  - reflexivity.
  - reflexivity.
Defined.

(** ** The user interface and the limits of the server *)



(** Eve, with ten cities, and Frank, whose Rome holds five attractions, are
    offered neither. *)
Example buttons_at_the_limit :
  showsAddCity true (getUserCities default_config eve_data (Some "eve")) = false ∧
  (λ c, showsAddItem true (or_empty (attractions c)))
    <$> getUserCities default_config frank_data (Some "frank") = [false].
Proof. split; vm_compute; reflexivity. Qed.

(** ** The configuration object: [deepMerge] *)

Lemma nesting_lookup (o : gmap string Value) (k : string) (v : Value) :
  o !! k = Some v → (nesting v < nesting (VObj o))%nat.
Proof.
  intros Hk. cbn [nesting].
  rewrite (map_fold_delete_L _ _ k v o); [lia| |done].
  intros. lia.
Qed.

(** Induction on the nesting of an object. *)
Lemma object_ind (P : gmap string Value → Prop) :
  (∀ o, (∀ k o', o !! k = Some (VObj o') → P o') → P o) → ∀ o, P o.
Proof.
  intros Hstep o.
  remember (nesting (VObj o)) as n eqn:Hn. revert o Hn.
  induction n as [n IH] using lt_wf_ind. intros o ->.
  apply Hstep. intros k o' Hk. eapply IH; [|done].
  by eapply nesting_lookup.
Qed.

(** The loop, key by key. *)
Lemma deepMerge_lookup (target : Value) (source : gmap string Value) (key : string) :
  deepMerge target source !! key =
  match source !! key with
  | Some v => Some (merged_value target key v)
  | None => spread target !! key
  end.
Proof.
  unfold deepMerge. cbn [deepMerge_rec].
  apply (map_fold_weak_ind (λ r (m : gmap string Value), r !! key =
    match m !! key with
    | Some v => Some (merged_value target key v)
    | None => spread target !! key
    end)).
  - by rewrite lookup_empty.
  - intros i x m r Hi IH. destruct (decide (i = key)) as [->|Hne].
    + rewrite lookup_insert_eq. rewrite Hi in IH.
      destruct x; rewrite ?lookup_insert_eq; try done.
      unfold merged_value, deepMerge. by rewrite IH.
    + rewrite lookup_insert_ne by done.
      destruct x; by rewrite lookup_insert_ne.
Qed.

Lemma spread_or_object (v : option Value) (key : string) :
  spread (or_object v) !! key = v ≫= member key.
Proof.
  destruct v as [v|]; [|done]. cbn [or_object mbind option_bind]. unfold member.
  destruct v as [|b|n|s|l|o]; cbn [truthy_value]; try done.
  - by destruct b.
  - destruct (n =? 0); done.
  - case_bool_decide as Hs; [|done]. by rewrite Hs.
Qed.

Lemma no_proto_limit (key : string) (n : Z) :
  key ≠ "__proto__" → no_proto {[ "defaults" := VObj {[ key := VNum n ]} ]}.
Proof.
  intros Hkey. constructor; [done|]. intros k o' Hk.
  apply lookup_singleton_Some in Hk as [_ [= <-]].
  constructor; [by rewrite lookup_singleton_ne|].
  intros k' o'' Hk'. by apply lookup_singleton_Some in Hk' as [_ ?].
Qed.

(** X21. [deepMerge] key by key: a key that [source] does not have keeps
    the value [target] has for it; a key under which [source] holds
    anything but an object (a string, a number, a boolean, null, an array)
    gets that value, whatever [target] held; a key under which [source]
    holds an object gets the merge of that object into what [target] held
    there, or into an empty object.  So no key of [target] or of [source]
    is lost, and merging an empty object copies the target. *)
Theorem deepMerge_spec (target : Value) (source : gmap string Value) :
  no_proto source →
  (∀ key, source !! key = None →
     deepMerge target source !! key = member key target) ∧
  (∀ key v, source !! key = Some v → (∀ o, v ≠ VObj o) →
     deepMerge target source !! key = Some v) ∧
  (∀ key o, source !! key = Some (VObj o) →
     deepMerge target source !! key
     = Some (VObj (deepMerge (or_object (member key target)) o))) ∧
  (∀ key, is_Some (deepMerge target source !! key) ↔
          is_Some (member key target) ∨ is_Some (source !! key)) ∧
  deepMerge target ∅ = spread target.
Proof.
  intros _. split; [|split; [|split; [|split]]].
  - intros key Hk. by rewrite deepMerge_lookup, Hk.
  - intros key v Hk Hleaf. rewrite deepMerge_lookup, Hk. f_equal.
    destruct v; try done. by destruct (Hleaf o).
  - intros key o Hk. by rewrite deepMerge_lookup, Hk.
  - intros key. rewrite deepMerge_lookup. unfold member.
    destruct (source !! key) as [v|].
    + split; [right|]; by eexists.
    + split; [by left|]. by intros [?|[? ?]].
  - apply map_eq. intros key. by rewrite deepMerge_lookup, lookup_empty.
Qed.

(** Fifteen cities per user, merged into the default configuration. *)
Lemma deepMerge_spec_witness :
  deepMerge default_config_object
    {[ "defaults" := VObj {[ "maxCitiesPerUser" := VNum 15 ]} ]} !! "defaults"
  = Some (VObj (deepMerge (or_object (member "defaults" default_config_object))
                  {[ "maxCitiesPerUser" := VNum 15 ]})).
Proof.
  refine (proj1 (proj2 (proj2 (deepMerge_spec default_config_object
            {[ "defaults" := VObj {[ "maxCitiesPerUser" := VNum 15 ]} ]} _)))
            "defaults" _ _).
  - by apply no_proto_limit.
  - reflexivity.
Defined.

Lemma deepMerge_twice (source : gmap string Value) :
  ∀ target, deepMerge (VObj (deepMerge target source)) source = deepMerge target source.
Proof.
  induction source as [source IH] using object_ind. intros target.
  apply map_eq. intros key. rewrite !deepMerge_lookup.
  destruct (source !! key) as [v|] eqn:Hk; [|by cbn [spread]; rewrite deepMerge_lookup, Hk].
  f_equal. destruct v as [| | | | |o]; try done. cbn [merged_value spread].
  rewrite deepMerge_lookup, Hk. cbn [merged_value or_object truthy_value].
  f_equal. by eapply IH.
Qed.

(** X22. [deepMerge] is idempotent: merging the same source into the
    result a second time changes nothing. *)
Theorem deepMerge_idempotent (target : Value) (source : gmap string Value) :
  no_proto source →
  deepMerge (VObj (deepMerge target source)) source = deepMerge target source.
Proof. intros _. apply deepMerge_twice. Qed.

Lemma deepMerge_idempotent_witness :
  deepMerge (VObj (deepMerge default_config_object
                     {[ "defaults" := VObj {[ "maxCitiesPerUser" := VNum 15 ]} ]}))
    {[ "defaults" := VObj {[ "maxCitiesPerUser" := VNum 15 ]} ]}
  = deepMerge default_config_object
      {[ "defaults" := VObj {[ "maxCitiesPerUser" := VNum 15 ]} ]}.
Proof. apply deepMerge_idempotent. by apply no_proto_limit. Defined.

Lemma at_path_falsy (path : list string) (v : option Value) :
  path ≠ [] → at_path path (or_object v) = v ≫= at_path path.
Proof.
  destruct path as [|key rest]; [done|]. intros _. cbn [at_path]. unfold member.
  rewrite spread_or_object. destruct v as [v|]; done.
Qed.

Lemma leaves_nonempty (path : list string) (v : Value) : leaves path v → path ≠ [].
Proof. by destruct path. Qed.

Lemma deepMerge_frame (path : list string) :
  ∀ target source, leaves path (VObj source) →
    at_path path (VObj (deepMerge target source)) = at_path path target.
Proof.
  induction path as [|key rest IH]; intros target source; [done|].
  cbn [leaves at_path]. unfold member. cbn [spread].
  rewrite deepMerge_lookup.
  destruct (source !! key) as [v|] eqn:Hk; [|done].
  intros Hrest. cbn [mbind option_bind].
  destruct v as [| | | | |o]; try by destruct rest.
  cbn [merged_value]. rewrite (IH _ _ Hrest).
  apply at_path_falsy. by eapply leaves_nonempty.
Qed.

Lemma deepMerge_source_wins (path : list string) :
  ∀ target source v, path ≠ [] → (∀ o, v ≠ VObj o) →
    at_path path (VObj source) = Some v →
    at_path path (VObj (deepMerge target source)) = Some v.
Proof.
  induction path as [|key rest IH]; intros target source v Hne Hleaf; [done|].
  cbn [at_path]. unfold member. cbn [spread]. rewrite deepMerge_lookup.
  destruct (source !! key) as [w|] eqn:Hk; [|done]. cbn [mbind option_bind].
  destruct rest as [|key' rest'].
  - cbn [at_path]. intros [= ->]. f_equal. destruct v; try done. by destruct (Hleaf o).
  - destruct w as [| | | | |o]; try done. cbn [merged_value]. by apply IH.
Qed.

(** X23. Along paths, [deepMerge] does what a deep merge should: a value
    that [source] holds at a path and that is no object is found at that
    path of the result, and a path that leaves [source] (some object of
    [source] on the way lacks the next key) leads in the result to what it
    led to in [target]. *)
Theorem deepMerge_paths (target : Value) (source : gmap string Value)
    (path : list string) :
  no_proto source →
  (∀ v, path ≠ [] → (∀ o, v ≠ VObj o) →
     at_path path (VObj source) = Some v →
     at_path path (VObj (deepMerge target source)) = Some v) ∧
  (leaves path (VObj source) →
     at_path path (VObj (deepMerge target source)) = at_path path target).
Proof.
  intros _. split.
  - intros v. apply deepMerge_source_wins.
  - apply deepMerge_frame.
Qed.

(** The new limit is found; the name of the users file is still there. *)
Lemma deepMerge_paths_witness :
  at_path ["files"; "users"]
    (VObj (deepMerge default_config_object
             {[ "defaults" := VObj {[ "maxCitiesPerUser" := VNum 15 ]} ]}))
  = at_path ["files"; "users"] default_config_object.
Proof.
  refine (proj2 (deepMerge_paths default_config_object
            {[ "defaults" := VObj {[ "maxCitiesPerUser" := VNum 15 ]} ]}
            ["files"; "users"] _) _).
  - by apply no_proto_limit.
  - cbn [leaves]. by rewrite lookup_singleton_ne.
Defined.



Example default_limits : limits default_config_object = Some default_config.
Proof. reflexivity. Qed.

(** ** The two variants of the city store *)

(** X25. Reading the limits from the configuration changed nothing for a
    server without [database.json]: under the default configuration every
    route answers and writes exactly what the variant with the numbers 10
    and 5 written in does, error messages included, and [getUserCities]
    lists the same. *)
Theorem configured_like_written_in (username : option string) (req : Request)
    (data : Database) :
  handle default_config username req data = Earlier.handle username req data ∧
  getUserCities default_config data username = Earlier.getUserCities data username.
Proof.
  split.
  - destruct req; reflexivity.
  - reflexivity.
Qed.

(** ** The "Edit" button *)

Lemma edit_outcome (u n : string) (data : Database) (cities : list City)
    (i : nat) (listed : City) :
  u ≠ "" → n ≠ "" → data !! u = Some cities →
  getUserCities default_config data (Some u) !! i = Some listed →
  (∀ c, c ∈ cities → name c ≠ n) →
  let copy := {| name := n; attractions := attractions listed;
                 restaurants := restaurants listed |} in
  handleUpdateCity listed (Some n) = Some (PostCity (Some copy)) ∧
  ((length cities < 10)%nat →
     handle default_config (Some u) (PostCity (Some copy)) data
     = commit (ok (BodyCity copy)) (store u (cities ++ [copy]) data)) ∧
  ((10 ≤ length cities)%nat →
     handle default_config (Some u) (PostCity (Some copy)) data
     = respond (CityLimitReached default_config)).
Proof.
  intros Hu Hn Hl Hlisted Hnew copy.
  split; [unfold handleUpdateCity; by rewrite (truthy_nonempty n Hn)|].
  assert (capped copy = copy) as Hcopy.
  { rewrite getUserCities_default, (truthy_nonempty u Hu) in Hlisted.
    cbn [mbind option_bind] in Hlisted. rewrite Hl in Hlisted.
    rewrite list_lookup_fmap in Hlisted.
    destruct (last_n 10 cities !! i) as [c|]; [|done].
    injection Hlisted as <-. unfold copy, capped, displayed, first_n.
    cbn [name attractions restaurants or_empty default from_option id].
    by rewrite !take_ge by (rewrite length_last_n; lia). }
  cbn [handle]. rewrite addOrUpdateCity_named by done. cbv zeta.
  rewrite Hl. cbn [or_empty default from_option id name].
  assert (JS.findIndex (λ c, JS.strict_eq (name c) (name copy)) cities = -1) as ->.
  { apply findIndex_none. intros c Hc. unfold JS.strict_eq.
    apply bool_decide_eq_false_2. by apply Hnew. }
  rewrite Hcopy. cbn [Z.eqb Z.geb Z.compare andb].
  split; intros Hlen.
  - destruct (Z.geb_spec (Z.of_nat (length cities)) 10); [lia|]. done.
  - destruct (Z.geb_spec (Z.of_nat (length cities)) 10); [done|lia].
Qed.

(** X26. "Edit" does not rename.  When a signed-in user edits a listed city
    and answers the prompt with a name that none of the stored cities has,
    the request that is sent carries the listed city under the new name.
    Under the default limits the server answers it with 200 and this copy,
    and writes, under the user's name and under [latest], a list that holds
    every stored city, the edited one included, at the position it had,
    followed by the copy; with ten stored cities it refuses the request
    with 400 "City limit (10) reached" and writes nothing. *)
Theorem edit_appends_a_copy (u n : string) (data : Database) (cities : list City)
    (i : nat) (listed : City) :
  u ≠ "" → n ≠ "" → data !! u = Some cities →
  getUserCities default_config data (Some u) !! i = Some listed →
  (∀ c, c ∈ cities → name c ≠ n) →
  let copy := {| name := n; attractions := attractions listed;
                 restaurants := restaurants listed |} in
  let o := handle default_config (Some u) (PostCity (Some copy)) data in
  handleUpdateCity listed (Some n) = Some (PostCity (Some copy)) ∧
  ((length cities < 10)%nat →
     replies o 200 (BodyCity copy) ∧
     ∃ cities',
       writes o u cities' data ∧
       (∀ j c, cities !! j = Some c → cities' !! j = Some c) ∧
       cities' !! length cities = Some copy ∧
       length cities' = S (length cities)) ∧
  ((10 ≤ length cities)%nat → refuses o 400 "City limit (10) reached").
Proof.
  intros Hu Hn Hl Hlisted Hnew copy o.
  destruct (edit_outcome u n data cities i listed Hu Hn Hl Hlisted Hnew)
    as (Hreq & Hroom & Hfull).
  fold copy in Hreq, Hroom, Hfull. fold o in Hroom, Hfull.
  split; [done|]. split.
  - intros Hlen. rewrite (Hroom Hlen). split; [apply commit_replies|].
    exists (cities ++ [copy]). split; [apply commit_writes|]. split; [|split].
    + intros j c Hj. by apply lookup_app_l_Some.
    + by rewrite lookup_app_r, Nat.sub_diag.
    + rewrite length_app. cbn. lia.
  - intros Hlen. rewrite (Hfull Hlen). apply respond_refuses.
Qed.

(** Bob edits London and answers "Londres": both are stored. *)
Lemma edit_appends_a_copy_witness :
  replies (handle default_config (Some "bob") (PostCity (Some (bare_city "Londres")))
             bob_data) 200 (BodyCity (bare_city "Londres")) ∧
  ∃ cities',
    writes (handle default_config (Some "bob") (PostCity (Some (bare_city "Londres")))
              bob_data) "bob" cities' bob_data ∧
    (∀ j c, [bare_city "London"] !! j = Some c → cities' !! j = Some c) ∧
    cities' !! 1%nat = Some (bare_city "Londres") ∧
    length cities' = 2%nat.
Proof.
  refine (proj1 (proj2 (edit_appends_a_copy "bob" "Londres" bob_data [bare_city "London"]
            0%nat (bare_city "London") _ _ _ _ _)) _).
  - done.
  - done.
  - reflexivity.
  - reflexivity.
  - intros c Hc. by apply list_elem_of_singleton in Hc as ->.
  - cbn. lia.
Defined.

(** ** The configured limits, at rest *)

Section ConfiguredLimits.
Context (cfg : Config).
Hypothesis cities_limit : 0 ≤ getMaxCitiesPerUser cfg.
Hypothesis attractions_limit : 0 ≤ getMaxAttractionsPerCity cfg.
Hypothesis restaurants_limit : 0 ≤ getMaxRestaurantsPerCity cfg.

Lemma city_within_cap (city : City) : city_within cfg (cap_city cfg city).
Proof.
  unfold city_within, cap_city. cbn [attractions restaurants or_empty default
    from_option id].
  rewrite !slice_first, !length_first_n by done. lia.
Qed.

Lemma list_within_mutate_found (p : City → bool) (f : City → City) (cities : list City) :
  list_within cfg cities →
  (∀ x, JS.find p cities = Some x → city_within cfg x → city_within cfg (f x)) →
  list_within cfg (mutate_found p f cities).
Proof.
  intros [Hlen Hall] Hf. split; [by rewrite length_mutate_found|].
  rewrite Forall_forall in Hall. apply Forall_forall. intros y Hy.
  apply elem_of_mutate_found in Hy as [Hy|(x & Hx & Hfind & ->)]; [by apply Hall|].
  apply Hf; [done|by apply Hall].
Qed.

Lemma list_within_filter (p : City → bool) (cities : list City) :
  list_within cfg cities → list_within cfg (JS.filter p cities).
Proof.
  intros [Hlen Hall]. split.
  - pose proof (length_filter_le p cities). lia.
  - rewrite Forall_forall in Hall. apply Forall_forall.
    intros y [_ Hy]%elem_of_filter. by apply Hall.
Qed.

Lemma handle_written_within (username : option string) (req : Request)
    (data data' : Database) :
  written (handle cfg username req data) = Some data' →
  ∃ u cities', data' = store u cities' data ∧
    (list_within cfg (or_empty (data !! u)) → list_within cfg cities').
Proof.
  destruct req as [|city|cityName|cityName a|cityName a|cityName r|cityName r];
    cbn [handle]; [done|..].
  - unfold addOrUpdateCity. destruct (JS.truthy username) as [u|]; [|done].
    destruct city as [city|]; [|done]. case_bool_decide; [done|].
    set (cities := or_empty (data !! u)).
    pose proof (findIndex_ge (λ c, JS.strict_eq (name c) (name city)) cities) as Hidx.
    set (idx := JS.findIndex _ cities) in *.
    destruct (Z.eqb_spec idx (-1)) as [He|Hne]; cbn [andb].
    + destruct (Z.geb_spec (Z.of_nat (length cities)) (getMaxCitiesPerUser cfg))
        as [|Hlt]; [done|].
      rewrite He. cbn [Z.geb Z.compare written commit]. intros [= <-].
      eexists u, _. split; [reflexivity|]. intros [_ Hall]. unfold JS.push. split.
      * rewrite length_app. cbn [length]. lia.
      * apply Forall_app. split; [done|]. apply Forall_singleton, city_within_cap.
    + destruct (Z.geb_spec idx 0); [|lia]. cbn [written commit]. intros [= <-].
      eexists u, _. split; [reflexivity|]. intros [Hlen Hall]. unfold JS.set_index.
      split; [by rewrite length_insert|]. apply Forall_insert; [done|].
      apply city_within_cap.
  - unfold deleteCity. destruct (JS.truthy username) as [u|]; [|done].
    destruct (data !! u) as [cities|] eqn:Hd; [|done]. cbn [written commit].
    intros [= <-]. eexists u, _. split; [reflexivity|]. rewrite ?Hd.
    apply list_within_filter.
  - unfold addAttraction. destruct (JS.truthy username) as [u|]; [|done].
    destruct (JS.truthy a) as [item|]; [|done].
    set (cities := or_empty (data !! u)).
    destruct (JS.find _ cities) as [city|] eqn:Hf; [|done].
    destruct (Z.geb_spec (Z.of_nat (length (or_empty (attractions city))))
                (getMaxAttractionsPerCity cfg)) as [|Hlt]; [done|].
    cbn [written commit]. intros [= <-]. eexists u, _. split; [reflexivity|].
    intros Hl. apply list_within_mutate_found; [done|]. intros x _ [_ Hx].
    split; [|done]. cbn [set_attractions attractions or_empty default from_option id].
    destruct (_ =? -1); unfold JS.push; rewrite ?length_app; cbn [length]; lia.
  - unfold deleteAttraction. destruct (JS.truthy username) as [u|]; [|done].
    set (cities := or_empty (data !! u)).
    destruct (JS.find _ cities) as [city|] eqn:Hf; [|done].
    cbn [written commit]. intros [= <-]. eexists u, _. split; [reflexivity|].
    intros Hl. apply list_within_mutate_found; [done|]. intros x Hx [Ha Hr].
    rewrite Hf in Hx. injection Hx as <-.
    split; [|done]. cbn [set_attractions attractions or_empty default from_option id].
    pose proof (length_filter_le (λ x, negb (JS.strict_eq x a))
                  (or_empty (attractions city))). lia.
  - unfold addRestaurant. destruct (JS.truthy username) as [u|]; [|done].
    destruct (JS.truthy r) as [item|]; [|done].
    set (cities := or_empty (data !! u)).
    destruct (JS.find _ cities) as [city|] eqn:Hf; [|done].
    destruct (Z.geb_spec (Z.of_nat (length (or_empty (restaurants city))))
                (getMaxRestaurantsPerCity cfg)) as [|Hlt]; [done|].
    cbn [written commit]. intros [= <-]. eexists u, _. split; [reflexivity|].
    intros Hl. apply list_within_mutate_found; [done|]. intros x _ [Hx _].
    split; [done|]. cbn [set_restaurants restaurants or_empty default from_option id].
    destruct (_ =? -1); unfold JS.push; rewrite ?length_app; cbn [length]; lia.
  - unfold deleteRestaurant. destruct (JS.truthy username) as [u|]; [|done].
    set (cities := or_empty (data !! u)).
    destruct (JS.find _ cities) as [city|] eqn:Hf; [|done].
    cbn [written commit]. intros [= <-]. eexists u, _. split; [reflexivity|].
    intros Hl. apply list_within_mutate_found; [done|]. intros x Hx [Ha Hr].
    rewrite Hf in Hx. injection Hx as <-.
    split; [done|]. cbn [set_restaurants restaurants or_empty default from_option id].
    pose proof (length_filter_le (λ x, negb (JS.strict_eq x r))
                  (or_empty (restaurants city))). lia.
Qed.

Lemma after_keeps_within (username : option string) (req : Request) (data : Database) :
  within cfg data → within cfg (after (handle cfg username req data) data).
Proof.
  intros Hdata. unfold after.
  destruct (written (handle cfg username req data)) as [data'|] eqn:Hw; [|done].
  destruct (handle_written_within _ _ _ _ Hw) as (u & cities' & -> & Hok).
  assert (list_within cfg cities') as Hnew.
  { apply Hok. destruct (data !! u) as [l|] eqn:Hl; [by eapply Hdata|].
    split; [cbn; lia|constructor]. }
  cbn [default from_option id]. intros k l. unfold store. rewrite !lookup_insert.
  repeat case_decide; try (by intros [= <-]). apply Hdata.
Qed.

End ConfiguredLimits.

(** X27. The limits of any configuration hold at rest, not only the
    default ones: when no limit is negative, data within the limits stays
    within them under every request and every sequence of requests, so a
    server started on an empty data file never stores a list longer than
    [maxCitiesPerUser] nor a city with more than [maxAttractionsPerCity]
    attractions or [maxRestaurantsPerCity] restaurants. *)
Theorem requests_keep_configured_limits (cfg : Config) :
  0 ≤ getMaxCitiesPerUser cfg → 0 ≤ getMaxAttractionsPerCity cfg →
  0 ≤ getMaxRestaurantsPerCity cfg →
  (∀ trace data, within cfg data → within cfg (run cfg trace data)) ∧
  (∀ trace, within cfg (run cfg trace ∅)).
Proof.
  intros Hc Ha Hr.
  assert (∀ trace data, within cfg data → within cfg (run cfg trace data)) as Hrun.
  { induction trace as [|[who req] rest IH]; intros data Hdata; [done|].
    cbn [run]. by apply IH, after_keeps_within. }
  split; [done|]. intros trace. apply Hrun. intros k l Hk.
  by rewrite lookup_empty in Hk.
Qed.

(** Under the limits 2, 1 and 1 a third city and a second attraction are
    not stored. *)
Lemma requests_keep_configured_limits_witness :
  within {| maxCitiesPerUser := 2; maxAttractionsPerCity := 1;
            maxRestaurantsPerCity := 1 |}
    (run {| maxCitiesPerUser := 2; maxAttractionsPerCity := 1;
            maxRestaurantsPerCity := 1 |}
       [(Some "bob", PostCity (Some (bare_city "London")));
        (Some "bob", PostCity (Some (bare_city "Paris")));
        (Some "bob", PostCity (Some (bare_city "Rome")));
        (Some "bob", PostAttraction "Paris" (Some "Louvre"));
        (Some "bob", PostAttraction "Paris" (Some "Eiffel Tower"))] ∅).
Proof.
  refine (proj2 (requests_keep_configured_limits
            {| maxCitiesPerUser := 2; maxAttractionsPerCity := 1;
               maxRestaurantsPerCity := 1 |} _ _ _) _); by cbn.
Defined.

Example configured_limits_trace :
  run {| maxCitiesPerUser := 2; maxAttractionsPerCity := 1; maxRestaurantsPerCity := 1 |}
    [(Some "bob", PostCity (Some (bare_city "London")));
     (Some "bob", PostCity (Some (bare_city "Paris")));
     (Some "bob", PostCity (Some (bare_city "Rome")));
     (Some "bob", PostAttraction "Paris" (Some "Louvre"));
     (Some "bob", PostAttraction "Paris" (Some "Eiffel Tower"))] ∅ !! "bob"
  = Some [bare_city "London"; set_attractions ["Louvre"] (bare_city "Paris")].
Proof. vm_compute. reflexivity. Qed.

(** ** Whose lists the data object holds *)

(** X28. In a server that is in order, the user of every session has an
    email address for a name; such a name is never [latest], [cities] or
    empty, so a list stored for a user never takes the place of the
    [latest] snapshot or of the default [cities] entry.  A city request of
    a signed-in client is therefore never refused for want of a login (its
    status is 200, 400 or 404), and what it writes keeps [cities] and makes
    [latest] the caller's list. *)
Theorem sessions_are_plain_users (cfg : Config) (srv : Server) (client : nat)
    (u : string) :
  server_ok srv → sessions srv !! client = Some u →
  isValidEmail (Some u) = true ∧
  (u ≠ "latest" ∧ u ≠ "cities" ∧ u ≠ "") ∧
  (∀ req data,
     status (response (handle cfg (sessions srv !! client) req data)) ∈ [200; 400; 404]) ∧
  (∀ req data data',
     written (handle cfg (sessions srv !! client) req data) = Some data' →
     data' !! "cities" = data !! "cities" ∧ data' !! "latest" = data' !! u).
Proof.
  intros (users & data0 & _ & _ & [_ Hall] & Hsess & _) Hclient.
  assert (isValidEmail (Some u) = true) as Hv.
  { apply Hsess in Hclient. unfold accounts in Hclient.
    apply list_elem_of_fmap in Hclient as (x & -> & Hx).
    rewrite Forall_forall in Hall. by destruct (Hall x Hx). }
  destruct (email_is_plain_key u Hv) as (_ & Hl & Hc & He).
  rewrite Hclient. split; [done|]. split; [done|]. split.
  - intros req data.
    destruct req as [|city|cityName|cityName a|cityName a|cityName r|cityName r];
      cbn [handle]; unfold listCities, addOrUpdateCity, deleteCity, addAttraction,
        deleteAttraction, addRestaurant, deleteRestaurant;
      rewrite ?(truthy_nonempty u He);
      repeat case_match; cbn; set_solver.
  - intros req data data' Hw.
    destruct (handle_written_store _ _ _ _ _ Hw) as (_ & u' & cities' & [= <-] & _ & ->).
    rewrite lookup_store_other, lookup_store_latest, lookup_store_user by done. done.
Qed.

(** Ann, signed in on a server that holds her account. *)
Lemma sessions_are_plain_users_witness : isValidEmail (Some "ann@example.org") = true.
Proof.
  refine (proj1 (sessions_are_plain_users default_config
            {| files := writeUsers [{| username := "ann@example.org"; password := "secret" |}]
                          {| dataFile := None; usersFile := None |};
               sessions := {[ 0%nat := "ann@example.org" ]} |} 0%nat "ann@example.org" _ _)).
  - exists [{| username := "ann@example.org"; password := "secret" |}], {[ "cities" := [] ]}.
    split; [apply readUsers_writeUsers|]. split; [reflexivity|].
    split; [split; [apply NoDup_singleton|by apply Forall_singleton]|].
    split.
    + intros c u Hc. cbn [sessions] in Hc.
      apply lookup_singleton_Some in Hc as [_ <-].
      apply list_elem_of_singleton. reflexivity.
    + intros k [l Hk]. apply lookup_singleton_Some in Hk as [<- _]. by right; left.
  - reflexivity.
Defined.
